(** * stateViz: the formula evaluator, recalculation, persistence and the
      state machine, embedded from [types.ts] and [machines/stateMachine.ts],
      with the arrows of [types.ts] and the handlers of the editing dialog
      ([InitialStateDialog.tsx]).

    JavaScript strings are sequences of UTF-16 code units, numbers are IEEE 754
    binary64 values (the kernel-independent [spec_float] of the standard
    library, at precision 53 and maximal exponent 1024), a [Map] is an
    association list in insertion order, and [try]/[catch] is a completion
    monad. *)

From Stdlib Require Import ZArith NArith List Bool Lia String Ascii.
From Stdlib Require Import Sorting.Sorted.
From Stdlib Require Import Floats.SpecFloat.
Import ListNotations.

Set Implicit Arguments.

(* ================================================================== *)
(** ** Strings *)
(* ================================================================== *)

Module JsString.

Local Open Scope N_scope.

Definition codeunit := N.
Definition jsstring := list codeunit.

(** An ASCII literal as a JavaScript string. *)
Definition js (s : string) : jsstring :=
  map N_of_ascii (list_ascii_of_string s).
Arguments js s%_string.

Definition between (lo hi c : codeunit) : bool := (lo <=? c) && (c <=? hi).
Arguments between (lo hi c)%_N.

(** LineTerminator: LF, CR, LS, PS. *)
Definition isLineTerminator (c : codeunit) : bool :=
  (c =? 10)%N || (c =? 13)%N || (c =? 8232)%N || (c =? 8233)%N.

(** WhiteSpace: TAB, VT, FF, ZWNBSP and the space separators. *)
Definition isWhiteSpace (c : codeunit) : bool :=
  (c =? 9)%N || (c =? 11)%N || (c =? 12)%N || (c =? 32)%N || (c =? 160)%N
  || (c =? 5760)%N || between 8192 8202 c || (c =? 8239)%N || (c =? 8287)%N
  || (c =? 12288)%N || (c =? 65279)%N.

(** The class [\s] of a regular expression, and what [trim] strips. *)
Definition isSpace (c : codeunit) : bool := isWhiteSpace c || isLineTerminator c.

Definition isDigit (c : codeunit) : bool := between 48 57 c.

(** The class [\w]: [A-Za-z0-9_]. *)
Definition isWord (c : codeunit) : bool :=
  between 65 90 c || between 97 122 c || isDigit c || (c =? 95)%N.

(** The range [一-龥]. *)
Definition isHan (c : codeunit) : bool := between 19968 40869 c.

(** [s === t]. *)
Fixpoint eqb (s t : jsstring) : bool :=
  match s, t with
  | [], [] => true
  | a :: s', b :: t' => (a =? b) && eqb s' t'
  | _, _ => false
  end.

Fixpoint dropWhile (p : codeunit -> bool) (s : jsstring) : jsstring :=
  match s with
  | [] => []
  | c :: s' => if p c then dropWhile p s' else s
  end.

(** [String.prototype.trim]. *)
Definition trim (s : jsstring) : jsstring :=
  rev (dropWhile isSpace (rev (dropWhile isSpace s))).

Fixpoint startsWith (p s : jsstring) : bool :=
  match p, s with
  | [], _ => true
  | _ :: _, [] => false
  | a :: p', b :: s' => (a =? b)%N && startsWith p' s'
  end.

(** [String.prototype.includes]. *)
Fixpoint includes (s sub : jsstring) : bool :=
  startsWith sub s ||
  match s with
  | [] => false
  | _ :: s' => includes s' sub
  end.

(** A string is truthy when it is not empty. *)
Definition truthy (s : jsstring) : bool :=
  match s with [] => false | _ => true end.

End JsString.
Import JsString.

(* ================================================================== *)
(** ** Numbers *)
(* ================================================================== *)

Module JsNumber.

Local Open Scope Z_scope.

Definition number := spec_float.

Definition prec : Z := 53.
Definition emax : Z := 1024.

Definition NaN : number := S754_nan.
Definition Infinity : number := S754_infinity false.
Definition zero : number := S754_zero false.

Definition add : number -> number -> number := SFadd prec emax.
Definition sub : number -> number -> number := SFsub prec emax.
Definition mul : number -> number -> number := SFmul prec emax.
Definition div : number -> number -> number := SFdiv prec emax.
Definition neg : number -> number := SFopp.

Definition isNaN (x : number) : bool :=
  match x with S754_nan => true | _ => false end.

Definition isFinite (x : number) : bool :=
  match x with S754_zero _ | S754_finite _ _ _ => true | _ => false end.

(** ToBoolean on a number: [NaN], [+0] and [-0] are falsy. *)
Definition truthy (x : number) : bool :=
  match x with S754_nan | S754_zero _ => false | _ => true end.

(** Structural equality of canonical values (not [===]: [NaN] equals itself
    here and the zeros differ). *)
Definition same (x y : number) : bool :=
  match x, y with
  | S754_nan, S754_nan => true
  | S754_zero a, S754_zero b => Bool.eqb a b
  | S754_infinity a, S754_infinity b => Bool.eqb a b
  | S754_finite a m e, S754_finite b m' e' =>
      Bool.eqb a b && (m =? m')%positive && (e =? e')%Z
  | _, _ => false
  end.

(** The number nearest to [m * 10^e] (ties to even), sign [s]. *)
Definition ofDecimal (s : bool) (m : Z) (e : Z) : number :=
  match m with
  | Zpos p =>
      match e with
      | Zneg q => div (S754_finite s p 0) (S754_finite false (Pos.pow 10 q) 0)
      | _ => binary_normalize prec emax (if s then - (m * 10 ^ e) else m * 10 ^ e) 0 s
      end
  | _ => S754_zero s
  end.

(** An integer as a number. *)
Definition ofZ (z : Z) : number := binary_normalize prec emax z 0 false.

(** *** Decimal digits *)

Fixpoint uintDigits (d : Decimal.uint) : jsstring :=
  match d with
  | Decimal.Nil => []
  | Decimal.D0 d' => 48%N :: uintDigits d'
  | Decimal.D1 d' => 49%N :: uintDigits d'
  | Decimal.D2 d' => 50%N :: uintDigits d'
  | Decimal.D3 d' => 51%N :: uintDigits d'
  | Decimal.D4 d' => 52%N :: uintDigits d'
  | Decimal.D5 d' => 53%N :: uintDigits d'
  | Decimal.D6 d' => 54%N :: uintDigits d'
  | Decimal.D7 d' => 55%N :: uintDigits d'
  | Decimal.D8 d' => 56%N :: uintDigits d'
  | Decimal.D9 d' => 57%N :: uintDigits d'
  end.

(** The decimal digits of a non-negative integer, without leading zeros. *)
Definition digitsOfZ (z : Z) : jsstring := uintDigits (N.to_uint (Z.to_N z)).

(** The value of a hexadecimal (hence also decimal, octal, binary) digit. *)
Definition digitVal (c : codeunit) : Z :=
  if between 48 57 c then Z.of_N c - 48
  else if between 97 102 c then Z.of_N c - 87
  else if between 65 70 c then Z.of_N c - 55
  else 0.

Definition isHexDigit (c : codeunit) : bool :=
  between 48 57 c || between 97 102 c || between 65 70 c.
Definition isOctalDigit (c : codeunit) : bool := between 48 55 c.
Definition isBinaryDigit (c : codeunit) : bool := between 48 49 c.

Fixpoint digitsValue (base acc : Z) (s : jsstring) : Z :=
  match s with
  | [] => acc
  | c :: s' => digitsValue base (acc * base + digitVal c) s'
  end.

Fixpoint span (p : codeunit -> bool) (s : jsstring) : jsstring * jsstring :=
  match s with
  | [] => ([], [])
  | c :: s' =>
      if p c then let (a, b) := span p s' in (c :: a, b) else ([], s)
  end.

(** *** Number::toString, radix 10 *)

Section ToString.

(** The value is the positive rational [num / den]. *)
Variables num den : Z.

(** [num / den < 10^j]. *)
Definition belowPow10 (j : Z) : bool :=
  if (0 <=? j)%Z then (num <? 10 ^ j * den)%Z else (num * 10 ^ (- j) <? den)%Z.

(** The first [n] from [n0] on with [num / den < 10^n]. *)
Fixpoint firstPow10 (fuel : nat) (n0 : Z) : Z :=
  match fuel with
  | O => n0
  | S fuel' => if belowPow10 n0 then n0 else firstPow10 fuel' (n0 + 1)
  end.

(** Quotient and remainder of [num / den] by [10^q], and the divisor. *)
Definition scaled (q : Z) : Z * Z * Z :=
  if (0 <=? q)%Z
  then let d := (den * 10 ^ q)%Z in (num / d, num mod d, d)%Z
  else let n := (num * 10 ^ (- q))%Z in (n / den, n mod den, den)%Z.

Variable x : number.

(** The digits [s] and the exponent [n] of the shortest decimal that reads
    back as [x]: [k] grows from 1, and of the two [k]-digit neighbours of
    the value the nearer one that reads back as [x] is taken, the even one
    on a tie. *)
Fixpoint shortest (fuel : nat) (n k : Z) : Z * Z :=
  let '(lo, r, d) := scaled (n - k) in
  let hi := (lo + 1)%Z in
  let okLo := same (ofDecimal false lo (n - k)) x in
  let okHi := same (ofDecimal false hi (n - k)) x in
  let carry (s : Z) := if (s =? 10 ^ k)%Z then (1, n + 1)%Z else (s, n) in
  match fuel with
  | O => (lo, n)
  | S fuel' =>
      if (r =? 0)%Z then (lo, n)
      else if okLo && okHi then
        match (2 * r ?= d)%Z with
        | Lt => (lo, n)
        | Gt => carry hi
        | Eq => if Z.even lo then (lo, n) else carry hi
        end
      else if okLo then (lo, n)
      else if okHi then carry hi
      else shortest fuel' n (k + 1)
  end.

End ToString.

Fixpoint stripZerosR (fuel : nat) (s : Z) : Z :=
  match fuel with
  | O => s
  | S fuel' => if (s mod 10 =? 0)%Z then stripZerosR fuel' (s / 10)%Z else s
  end.

Definition zeros (n : Z) : jsstring := repeat 48%N (Z.to_nat n).

(** The digits [s], their count [k] and the exponent [n] of a positive finite
    number [m * 2^e]. *)
Definition decimalOf (m : positive) (e : Z) : Z * Z * Z :=
  let num := (Zpos m * 2 ^ Z.max e 0)%Z in
  let den := (2 ^ Z.max (- e) 0)%Z in
  let b := (Zpos (digits2_pos m) - 1 + e)%Z in
  let n0 := firstPow10 num den 6 (b * 30103 / 100000 - 1) in
  let '(s, n) := shortest num den (S754_finite false m e) 17 n0 1 in
  let s := stripZerosR 20 s in
  (s, Z.of_nat (List.length (digitsOfZ s)), n).

(** Number::toString(x) for a positive finite [x]. *)
Definition formatDecimal (s k n : Z) : jsstring :=
  let ds := digitsOfZ s in
  if (k <=? n)%Z && (n <=? 21)%Z then ds ++ zeros (n - k)
  else if (0 <? n)%Z && (n <=? 21)%Z then
    firstn (Z.to_nat n) ds ++ 46%N :: skipn (Z.to_nat n) ds
  else if (-6 <? n)%Z && (n <=? 0)%Z then
    48%N :: 46%N :: zeros (- n) ++ ds
  else
    let e := (n - 1)%Z in
    let ex := (if (e <? 0)%Z then 45%N else 43%N) :: digitsOfZ (Z.abs e) in
    match ds with
    | [] => []
    | d :: [] => d :: 101%N :: ex
    | d :: rest => d :: 46%N :: rest ++ 101%N :: ex
    end.

Definition toString (x : number) : jsstring :=
  match x with
  | S754_nan => js "NaN"
  | S754_zero _ => js "0"
  | S754_infinity s => (if s then [45%N] else []) ++ js "Infinity"
  | S754_finite s m e =>
      let '(d, k, n) := decimalOf m e in
      (if s then [45%N] else []) ++ formatDecimal d k n
  end.

(** *** StringToNumber *)

(** The exponent part that ends a decimal literal, 0 when there is none. *)
Definition parseExponent (s : jsstring) : option Z :=
  match s with
  | [] => Some 0%Z
  | c :: s' =>
      if (c =? 101)%N || (c =? 69)%N then
        let '(sg, ds) :=
          match s' with
          | 43%N :: d => (false, d)
          | 45%N :: d => (true, d)
          | _ => (false, s')
          end in
        if JsString.truthy ds && forallb isDigit ds
        then Some (if sg then - digitsValue 10 0 ds else digitsValue 10 0 ds)%Z
        else None
      else None
  end.

(** StrUnsignedDecimalLiteral without [Infinity]: mantissa and exponent. *)
Definition parseUnsignedDecimal (s : jsstring) : option (Z * Z) :=
  let (ip, r) := span isDigit s in
  match r with
  | 46%N :: r' =>
      let (fp, r'') := span isDigit r' in
      if negb (JsString.truthy ip) && negb (JsString.truthy fp) then None
      else
        match parseExponent r'' with
        | Some e => Some (digitsValue 10 0 (ip ++ fp), e - Z.of_nat (List.length fp))%Z
        | None => None
        end
  | _ =>
      if JsString.truthy ip then
        match parseExponent r with
        | Some e => Some (digitsValue 10 0 ip, e)
        | None => None
        end
      else None
  end.

Definition parseSignedDecimal (s : bool) (t : jsstring) : number :=
  if JsString.eqb t (js "Infinity") then S754_infinity s
  else
    match parseUnsignedDecimal t with
    | Some (m, e) => ofDecimal s m e
    | None => NaN
    end.

Definition parseRadix (isD : codeunit -> bool) (base : Z) (ds : jsstring) : number :=
  if JsString.truthy ds && forallb isD ds then ofZ (digitsValue base 0 ds) else NaN.

(** [Number(s)] for a string [s]. *)
Definition ofString (s : jsstring) : number :=
  match trim s with
  | [] => zero
  | 43%N :: t => parseSignedDecimal false t
  | 45%N :: t => parseSignedDecimal true t
  | (48%N :: c :: ds) as t =>
      if (c =? 120)%N || (c =? 88)%N then parseRadix isHexDigit 16 ds
      else if (c =? 111)%N || (c =? 79)%N then parseRadix isOctalDigit 8 ds
      else if (c =? 98)%N || (c =? 66)%N then parseRadix isBinaryDigit 2 ds
      else parseSignedDecimal false t
  | t => parseSignedDecimal false t
  end.

End JsNumber.
Import JsNumber.

(* ================================================================== *)
(** ** Completions and values *)
(* ================================================================== *)

Inductive exn := SyntaxError | TypeError | RangeError.

(** The outcome of running a piece of JavaScript: a value, or an exception
    on its way to the nearest [catch]. *)
Inductive completion (A : Type) : Type :=
| Normal (a : A)
| Throw (e : exn).
Arguments Normal {A} a.
Arguments Throw {A} e.

Definition bind {A B} (c : completion A) (k : A -> completion B) : completion B :=
  match c with
  | Normal a => k a
  | Throw e => Throw e
  end.

Notation "x <- c ;; k" := (bind c (fun x => k))
  (at level 61, c at next level, right associativity).
Notation "' p <- c ;; k" := (bind c (fun p => k))
  (at level 61, p pattern, c at next level, right associativity).

(** [try { body } catch (error) { return handler }]. *)
Definition tryCatch {A} (body : completion A) (handler : A) : completion A :=
  match body with
  | Normal a => Normal a
  | Throw _ => Normal handler
  end.

(** What a function built by [new Function] can return, as far as [typeof]
    tells the results apart. *)
Inductive jsvalue :=
| VNumber (x : number)
| VUndefined
| VString (s : jsstring)
| VObject.

Definition typeof_number (v : jsvalue) : bool :=
  match v with VNumber _ => true | _ => false end.

(** The engine outside the fragment that is modelled below: [replace] with a
    [RegExp] built from a name that holds pattern syntax, and the body of a
    [new Function] that holds a regular-expression literal, the operator
    [**] or a line terminator, and [Date.parse] on a string that is not in
    the full ISO form.  Every result below holds for all hosts. *)
Class Host := {
  host_replace : jsstring -> jsstring -> jsstring -> completion jsstring;
  host_Function : jsstring -> completion jsvalue;
  host_Date_parse : jsstring -> option Z
}.

(* ================================================================== *)
(** ** The expression language of [new Function("return " + expression)] *)
(* ================================================================== *)

Module JsSyntax.

Local Open Scope N_scope.

Inductive token :=
| TNum (x : number)
| TPlus | TMinus | TStar | TSlash | TLParen | TRParen.

Inductive lexed :=
| Tokens (ts : list token)
| LexThrow            (* a SyntaxError, or a call or member access on a number *)
| Outside.            (* not in the modelled fragment *)

Definition consTok (t : token) (l : lexed) : lexed :=
  match l with
  | Tokens ts => Tokens (t :: ts)
  | _ => l
  end.

Inductive lexState :=
| LBetween
| LInt (ds : jsstring)          (* the digits read so far, last one first *)
| LFrac (ip fp : jsstring)      (* integer part, fraction digits last first *)
| LLineComment
| LBlockComment (star : bool).

Definition headIs (p : codeunit -> bool) (s : jsstring) : bool :=
  match s with c :: _ => p c | [] => false end.

(** [0] followed by digits: LegacyOctalIntegerLiteral when all are octal,
    NonOctalDecimalIntegerLiteral otherwise. *)
Definition isLegacyOctal (ds : jsstring) : bool :=
  match ds with
  | 48 :: _ :: _ => forallb isOctalDigit ds
  | _ => false
  end.

Definition intLiteral (ds : jsstring) : number :=
  if isLegacyOctal ds then ofZ (digitsValue 8 0 ds) else ofDecimal false (digitsValue 10 0 ds) 0.

Definition decimalLiteral (ip fp : jsstring) : number :=
  ofDecimal false (digitsValue 10 0 (ip ++ fp)) (- Z.of_nat (List.length fp)).

(** The token of a pending numeric literal. *)
Definition flush (st : lexState) (l : lexed) : lexed :=
  match st with
  | LInt ds => consTok (TNum (intLiteral (rev ds))) l
  | LFrac ip fp => consTok (TNum (decimalLiteral ip (rev fp))) l
  | _ => l
  end.

Definition pending (st : lexState) : bool :=
  match st with LInt _ | LFrac _ _ => true | _ => false end.

(** One character between tokens.  [here] goes on with the rest [s'] of the
    input and [next] with the rest less its first character; [prev] tells
    whether the last token ended an operand, which is what makes a following
    [/] a division and not the start of a regular expression. *)
Definition lexBetween (c : codeunit) (prev : bool) (s' : jsstring)
    (here next : lexState -> bool -> lexed) : lexed :=
  if isWhiteSpace c then here LBetween prev
  else if isLineTerminator c then Outside
  else if isDigit c then here (LInt [c]) prev
  else if c =? 46 then
    if headIs isDigit s' then here (LFrac [] []) prev else LexThrow
  else if c =? 43 then
    if headIs (N.eqb 43) s' then LexThrow else consTok TPlus (here LBetween false)
  else if c =? 45 then
    if headIs (N.eqb 45) s' then LexThrow else consTok TMinus (here LBetween false)
  else if c =? 42 then
    if headIs (N.eqb 42) s' then Outside else consTok TStar (here LBetween false)
  else if c =? 47 then
    if headIs (N.eqb 47) s' then next LLineComment prev
    else if headIs (N.eqb 42) s' then next (LBlockComment false) prev
    else if prev then consTok TSlash (here LBetween false) else Outside
  else if c =? 40 then consTok TLParen (here LBetween false)
  else if c =? 41 then consTok TRParen (here LBetween true)
  else Outside.

Fixpoint lex (st : lexState) (prev : bool) (s : jsstring) : lexed :=
  match s with
  | [] =>
      match st with
      | LBlockComment _ => LexThrow
      | _ => flush st (Tokens [])
      end
  | c :: s' =>
      let between (p : bool) :=
        lexBetween c p s'
          (fun st' p' => lex st' p' s')
          (fun st' p' => match s' with _ :: s'' => lex st' p' s'' | [] => LexThrow end) in
      match st with
      | LBetween => between prev
      | LLineComment =>
          if isLineTerminator c then Outside else lex LLineComment prev s'
      | LBlockComment star =>
          if isLineTerminator c then Outside
          else if star && (c =? 47) then lex LBetween prev s'
          else lex (LBlockComment (c =? 42)) prev s'
      | LInt ds =>
          if isDigit c then lex (LInt (c :: ds)) true s'
          else if (c =? 46) && negb (isLegacyOctal (rev ds))
          then lex (LFrac (rev ds) []) true s'
          else flush st (between true)
      | LFrac ip fp =>
          if isDigit c then lex (LFrac ip (c :: fp)) true s'
          else flush st (between true)
      end
  end.

(** *** Parsing: operator precedence with two stacks *)

Inductive expr :=
| Lit (x : number)
| Neg (e : expr) | Plus (e : expr)
| Add (a b : expr) | Sub (a b : expr) | Mul (a b : expr) | Div (a b : expr).

Inductive operator := OAdd | OSub | OMul | ODiv | ONeg | OPlus | OParen.

Definition precedence (o : operator) : nat :=
  match o with
  | OParen => 0
  | OAdd | OSub => 1
  | OMul | ODiv => 2
  | ONeg | OPlus => 3
  end%nat.

(** Apply an operator to the operands on top of the stack. *)
Definition applyOp (o : operator) (vals : list expr) : option (list expr) :=
  match o, vals with
  | OAdd, b :: a :: vs => Some (Add a b :: vs)
  | OSub, b :: a :: vs => Some (Sub a b :: vs)
  | OMul, b :: a :: vs => Some (Mul a b :: vs)
  | ODiv, b :: a :: vs => Some (Div a b :: vs)
  | ONeg, a :: vs => Some (Neg a :: vs)
  | OPlus, a :: vs => Some (Plus a :: vs)
  | _, _ => None
  end.

(** Apply the stacked operators that bind at least as tightly as [p], down to
    the nearest open parenthesis. *)
Fixpoint reduce (p : nat) (ops : list operator) (vals : list expr)
  : option (list operator * list expr) :=
  match ops with
  | [] => Some ([], vals)
  | OParen :: _ => Some (ops, vals)
  | o :: ops' =>
      if (p <=? precedence o)%nat then
        match applyOp o vals with
        | Some vals' => reduce p ops' vals'
        | None => None
        end
      else Some (ops, vals)
  end.

Definition pushBinary (o : operator) (ops : list operator) (vals : list expr)
  : option (list operator * list expr) :=
  match reduce (precedence o) ops vals with
  | Some (ops', vals') => Some (o :: ops', vals')
  | None => None
  end.

(** [operand] tells whether an operand is expected next.  [None] is a
    SyntaxError, or a call of a number, which is a TypeError. *)
Fixpoint shunt (ts : list token) (ops : list operator) (vals : list expr)
    (operand : bool) : option expr :=
  match ts with
  | [] =>
      if operand then None
      else
        match reduce 0 ops vals with
        | Some ([], [e]) => Some e
        | _ => None
        end
  | t :: ts' =>
      match t, operand with
      | TNum x, true => shunt ts' ops (Lit x :: vals) false
      | TPlus, true => shunt ts' (OPlus :: ops) vals true
      | TMinus, true => shunt ts' (ONeg :: ops) vals true
      | TLParen, true => shunt ts' (OParen :: ops) vals true
      | TPlus, false =>
          match pushBinary OAdd ops vals with
          | Some (ops', vals') => shunt ts' ops' vals' true
          | None => None
          end
      | TMinus, false =>
          match pushBinary OSub ops vals with
          | Some (ops', vals') => shunt ts' ops' vals' true
          | None => None
          end
      | TStar, false =>
          match pushBinary OMul ops vals with
          | Some (ops', vals') => shunt ts' ops' vals' true
          | None => None
          end
      | TSlash, false =>
          match pushBinary ODiv ops vals with
          | Some (ops', vals') => shunt ts' ops' vals' true
          | None => None
          end
      | TRParen, false =>
          match reduce 1 ops vals with
          | Some (OParen :: ops', vals') => shunt ts' ops' vals' false
          | _ => None
          end
      | _, _ => None
      end
  end.

Definition parse (ts : list token) : option expr := shunt ts [] [] true.

Fixpoint eval (e : expr) : number :=
  match e with
  | Lit x => x
  | Neg a => neg (eval a)
  | Plus a => eval a
  | Add a b => add (eval a) (eval b)
  | Sub a b => sub (eval a) (eval b)
  | Mul a b => mul (eval a) (eval b)
  | Div a b => div (eval a) (eval b)
  end.

(** [new Function("return " + body)()] for a body made of digits, white
    space and the characters [+ - * / ( ) .]; [None] when the body leaves the
    fragment that is modelled. *)
Definition run (body : jsstring) : option (completion jsvalue) :=
  match lex LBetween false body with
  | Outside => None
  | LexThrow => Some (Throw SyntaxError)
  | Tokens [] => Some (Normal VUndefined)
  | Tokens ts =>
      match parse ts with
      | Some e => Some (Normal (VNumber (eval e)))
      | None => Some (Throw SyntaxError)
      end
  end.

End JsSyntax.

(* ================================================================== *)
(** ** The data model ([types.ts]) *)
(* ================================================================== *)

(** A [Date] is its time value: milliseconds since the epoch, [None] for an
    invalid date. *)
Definition JsDate := option Z.

Inductive RowType := TString | TNumber | TDate | TDatetime | TPercentage | TFormula.
Inductive DateFormat := FDate | FDatetime.

(** [string | number | Date]. *)
Inductive Value :=
| VStr (s : jsstring)
| VNum (x : number)
| VDate (d : JsDate).

(** [number | Date], and [null], which is what [JSON.parse] reads for a
    number that was not finite when it was written. *)
Inductive Result :=
| RNum (x : number)
| RDate (d : JsDate)
| RNull.

(** An optional property is [None] when it is absent or [undefined]. *)
Record DataRow := {
  id : number;
  name : jsstring;
  value : Value;
  type : RowType;
  dateFormat : option DateFormat;
  output : option jsstring;
  formula : option jsstring;
  result : option Result
}.

Record Position := { x : number; y : number }.

Record StateTable := {
  tableId : jsstring;
  position : Position;
  data : list DataRow
}.

Record StateTransition := {
  transitionId : jsstring;
  fromId : jsstring;
  toId : jsstring;
  text : option jsstring
}.

(** [table.data]. *)
Definition tableData (table : StateTable) : list DataRow := data table.

Definition RowType_eqb (a b : RowType) : bool :=
  match a, b with
  | TString, TString | TNumber, TNumber | TDate, TDate
  | TDatetime, TDatetime | TPercentage, TPercentage | TFormula, TFormula => true
  | _, _ => false
  end.

(** [{ ...row, result: r }]. *)
Definition withResult (row : DataRow) (r : option Result) : DataRow :=
  {| id := id row; name := name row; value := value row; type := type row;
     dateFormat := dateFormat row; output := output row;
     formula := formula row; result := r |}.

(** [Number(v)] for the value of a row. *)
Definition Number (v : Value) : number :=
  match v with
  | VNum x => x
  | VStr s => ofString s
  | VDate (Some t) => ofZ t
  | VDate None => NaN
  end.

(* ================================================================== *)
(** ** [calculateFormula] ([types.ts]) *)
(* ================================================================== *)

(** *** [Array.prototype.sort], which is stable *)

Section Sort.
Variable A : Type.
(** [before a b]: the comparator is negative or zero, [a] may stay in front
    of [b]. *)
Variable before : A -> A -> bool.

Fixpoint insert (a : A) (l : list A) : list A :=
  match l with
  | [] => [a]
  | b :: l' => if before a b then a :: l else b :: insert a l'
  end.

Fixpoint sort (l : list A) : list A :=
  match l with
  | [] => []
  | a :: l' => insert a (sort l')
  end.
End Sort.

(** The comparator [(a, b) => b.name.length - a.name.length] keeps [a] in
    front of [b] when the result is not positive. *)
Definition byNameLength (a b : DataRow) : bool :=
  (List.length (name b) <=? List.length (name a))%nat.

(** *** [Map], in insertion order *)

Definition NameMap := list (jsstring * number).

Definition Map_has (m : NameMap) (k : jsstring) : bool :=
  existsb (fun kv => JsString.eqb (fst kv) k) m.

Definition Map_set (m : NameMap) (k : jsstring) (v : number) : NameMap :=
  if Map_has m k
  then map (fun kv => if JsString.eqb (fst kv) k then (k, v) else kv) m
  else m ++ [(k, v)].

Definition Map_keys (m : NameMap) : list jsstring := map fst m.

Fixpoint Map_get (m : NameMap) (k : jsstring) : option number :=
  match m with
  | [] => None
  | (k', v) :: m' => if JsString.eqb k' k then Some v else Map_get m' k
  end.

(** *** The regular expressions *)

(** [[a-zA-Z一-龥]]. *)
Definition isLetter (c : codeunit) : bool :=
  between 97 122 c || between 65 90 c || isHan c.

(** A character that [[^一-龥\w]] rejects. *)
Definition isNameChar (c : codeunit) : bool := isHan c || isWord c.

(** [[0-9\s\+\-\*\/\(\)\.]]. *)
Definition isExpressionChar (c : codeunit) : bool :=
  isDigit c || isSpace c || (c =? 43)%N || (c =? 45)%N || (c =? 42)%N
  || (c =? 47)%N || (c =? 40)%N || (c =? 41)%N || (c =? 46)%N.

(** [/^[0-9\s\+\-\*\/\(\)\.]+$/.test(expression)]. *)
Definition validExpression (expression : jsstring) : bool :=
  JsString.truthy expression && forallb isExpressionChar expression.

(** The characters with a meaning of their own in a pattern. *)
Definition isSyntaxCharacter (c : codeunit) : bool :=
  existsb (N.eqb c) (js "^$\.*+?()[]{}|").

(** The lookahead [(?=[^一-龥\w]|$)]. *)
Definition boundaryAhead (s : jsstring) : bool :=
  match s with
  | [] => true
  | c :: _ => negb (isNameChar c)
  end.

(** [name] is matched at the start of [s] and a boundary follows. *)
Definition nameHere (name s : jsstring) : bool :=
  startsWith name s && boundaryAhead (skipn (List.length name) s).

(** [expression.replace(regex, `$1${value}`)] with the global expression
    [(^|[^一-龥\w])name(?=[^一-龥\w]|$)] for a name of plain characters:
    at each position, leftmost first, the name is matched either at the very
    start of the input or behind one character that is no name character,
    which is kept; [skip] counts the characters of a match still to be
    dropped. *)
Fixpoint replaceAll (name value : jsstring) (atStart : bool) (skip : nat)
    (s : jsstring) : jsstring :=
  match s with
  | [] => []
  | c :: s' =>
      match skip with
      | S k => replaceAll name value false k s'
      | O =>
          if atStart && nameHere name s
          then value ++ replaceAll name value false (List.length name - 1) s'
          else if negb (isNameChar c) && nameHere name s'
          then c :: value ++ replaceAll name value false (List.length name) s'
          else c :: replaceAll name value false 0 s'
      end
  end.

Section WithHost.

Context {host : Host}.

(** [new RegExp(...)] followed by [replace]. *)
Definition replaceVariable (name value expression : jsstring) : completion jsstring :=
  if existsb isSyntaxCharacter name
  then host_replace name value expression
  else Normal (replaceAll name value true 0 expression).

(** [new Function(`return ${expression}`)()]: by the evaluator above when
    the expression is made of the characters of arithmetic and lies in the
    fragment, by the host otherwise. *)
Definition runFunction (expression : jsstring) : completion jsvalue :=
  if forallb isExpressionChar expression then
    match JsSyntax.run expression with
    | Some c => c
    | None => host_Function expression
    end
  else host_Function expression.

(** The value a row stands for, by its type. *)
Definition rowValue (row : DataRow) : number :=
  match type row with
  | TPercentage => Number (value row)
  | TNumber => Number (value row)
  | TFormula =>
      let n := Number (value row) in
      if JsNumber.truthy n then n else zero
  | _ =>
      let numValue := Number (value row) in
      if isNaN numValue then zero else numValue
  end.

(** The body of the [forEach] that fills [nameValueMap]. *)
Definition addRow (nameValueMap : NameMap) (row : DataRow) : NameMap :=
  if negb (JsString.truthy (name row)) then nameValueMap
  else
    let value := rowValue row in
    if negb (Map_has nameValueMap (name row))
    then Map_set nameValueMap (name row) value
    else nameValueMap.

(** The body of the [forEach] that substitutes one name. *)
Definition substitute (nameValueMap : NameMap)
    (expression : completion jsstring) (name : jsstring) : completion jsstring :=
  e <- expression ;;
  let value := match Map_get nameValueMap name with
               | Some v => toString v
               | None => js "undefined"
               end in
  replaceVariable name value e.

(** All the rows a formula can refer to. *)
Definition allRows (data : list DataRow) (stateTables : option (list StateTable))
  : list DataRow :=
  match stateTables with
  | Some tables => data ++ flat_map tableData tables
  | None => data
  end.

(** [nameValueMap], from all the rows sorted by the length of their names. *)
Definition buildMap (allData : list DataRow) : NameMap :=
  let sortedData := sort byNameLength allData in
  fold_left addRow sortedData [].

(** The names of the map that occur in the expression. *)
Definition unresolvedNames (nameValueMap : NameMap) (expression : jsstring)
  : list jsstring :=
  filter (fun name => includes expression name) (Map_keys nameValueMap).

(** The expression after the [forEach] over [unresolved]. *)
Definition substituteAll (nameValueMap : NameMap) (unresolved : list jsstring)
    (expression : jsstring) : completion jsstring :=
  fold_left (substitute nameValueMap) unresolved (Normal expression).

(** The [try] block of [calculateFormula]. *)
Definition calculateFormula_body (formula : jsstring) (data : list DataRow)
    (stateTables : option (list StateTable)) : completion number :=
  let expression := trim formula in
  let allData := allRows data stateTables in
  let nameValueMap := buildMap allData in
  let unresolved := unresolvedNames nameValueMap expression in
  if (List.length unresolved =? 0)%nat && existsb isLetter expression
  then Normal zero
  else
    expression <- substituteAll nameValueMap unresolved expression ;;
    if negb (validExpression expression) then Normal zero
    else
      result <- runFunction expression ;;
      Normal (match result with VNumber r => r | _ => zero end).

Definition calculateFormula (formula : jsstring) (data : list DataRow)
    (stateTables : option (list StateTable)) : completion number :=
  tryCatch (calculateFormula_body formula data stateTables) zero.

End WithHost.

(** A host that rejects whatever lies outside the modelled fragment. *)
Definition strictHost : Host :=
  {| host_replace := fun _ _ _ => Throw SyntaxError;
     host_Function := fun _ => Throw SyntaxError;
     host_Date_parse := fun _ => None |}.

(* ================================================================== *)
(** ** Dates: [toISOString] and [Date.parse] *)
(* ================================================================== *)

Module JsDateOps.

Local Open Scope Z_scope.

Definition msPerDay : Z := 86400000.
Definition maxTime : Z := 8640000000000000.

Definition DayFromYear (y : Z) : Z :=
  365 * (y - 1970) + (y - 1969) / 4 - (y - 1901) / 100 + (y - 1601) / 400.

Definition InLeapYear (y : Z) : Z :=
  if (y mod 4 =? 0) && (negb (y mod 100 =? 0) || (y mod 400 =? 0)) then 1 else 0.

(** The largest [y] with [DayFromYear y <= day], from an estimate that is off
    by one at most. *)
Definition YearFromDay (day : Z) : Z :=
  let y := 1970 + day * 400 / 146097 in
  if day <? DayFromYear y then y - 1
  else if DayFromYear (y + 1) <=? day then y + 1
  else y.

(** The days of the year before month [m] (from 0). *)
Definition DaysBeforeMonth (leap m : Z) : Z :=
  match m with
  | 0 => 0 | 1 => 31 | 2 => 59 + leap | 3 => 90 + leap | 4 => 120 + leap
  | 5 => 151 + leap | 6 => 181 + leap | 7 => 212 + leap | 8 => 243 + leap
  | 9 => 273 + leap | 10 => 304 + leap | _ => 334 + leap
  end.

Definition MonthFromDay (leap d : Z) : Z :=
  if d <? 31 then 0 else if d <? 59 + leap then 1 else if d <? 90 + leap then 2
  else if d <? 120 + leap then 3 else if d <? 151 + leap then 4
  else if d <? 181 + leap then 5 else if d <? 212 + leap then 6
  else if d <? 243 + leap then 7 else if d <? 273 + leap then 8
  else if d <? 304 + leap then 9 else if d <? 334 + leap then 10 else 11.

(** MakeDay for a month and a date in range. *)
Definition MakeDay (year month date : Z) : Z :=
  DayFromYear year + DaysBeforeMonth (InLeapYear year) month + date - 1.

Definition MakeTime (hour min sec ms : Z) : Z :=
  hour * 3600000 + min * 60000 + sec * 1000 + ms.

Definition TimeClip (t : Z) : JsDate :=
  if Z.abs t <=? maxTime then Some t else None.

(** [w] decimal digits of [n], the most significant first. *)
Fixpoint pad (w : nat) (n : Z) : jsstring :=
  match w with
  | O => []
  | S w' => Z.to_N (48 + n / 10 ^ Z.of_nat w' mod 10) :: pad w' n
  end.

(** The value of exactly [w] decimal digits at the head of [s], and the rest. *)
Fixpoint digits (w : nat) (acc : Z) (s : jsstring) : option (Z * jsstring) :=
  match w with
  | O => Some (acc, s)
  | S w' =>
      match s with
      | c :: s' => if isDigit c then digits w' (acc * 10 + (Z.of_N c - 48)) s' else None
      | [] => None
      end
  end.

Definition expect (c : codeunit) (s : jsstring) : option jsstring :=
  match s with
  | c' :: s' => if (c' =? c)%N then Some s' else None
  | [] => None
  end.

Arguments expect c%_N s.

Record Fields := {
  year : Z; month : Z; date : Z; hours : Z; minutes : Z; seconds : Z; millis : Z
}.

Definition fieldsOf (t : Z) : Fields :=
  let day := t / msPerDay in
  let ms := t mod msPerDay in
  let y := YearFromDay day in
  let d := day - DayFromYear y in
  let m := MonthFromDay (InLeapYear y) d in
  {| year := y; month := m + 1;
     date := d - DaysBeforeMonth (InLeapYear y) m + 1;
     hours := ms / 3600000; minutes := ms / 60000 mod 60;
     seconds := ms / 1000 mod 60; millis := ms mod 1000 |}.

Definition formatYear (y : Z) : jsstring :=
  if (0 <=? y) && (y <=? 9999) then pad 4 y
  else (if y <? 0 then 45%N else 43%N) :: pad 6 (Z.abs y).

Definition formatFields (f : Fields) : jsstring :=
  formatYear (year f) ++ 45%N :: pad 2 (month f) ++ 45%N :: pad 2 (date f)
  ++ 84%N :: pad 2 (hours f) ++ 58%N :: pad 2 (minutes f) ++ 58%N :: pad 2 (seconds f)
  ++ 46%N :: pad 3 (millis f) ++ [90%N].

(** [Date.prototype.toISOString], a RangeError on an invalid date. *)
Definition toISOString (d : JsDate) : completion jsstring :=
  match d with
  | Some t =>
      if Z.abs t <=? maxTime then Normal (formatFields (fieldsOf t))
      else Throw RangeError
  | None => Throw RangeError
  end.

(** Four digits, or a sign and six digits, which are not [-000000]. *)
Definition parseYear (s : jsstring) : option (Z * jsstring) :=
  match s with
  | c :: s' =>
      if (c =? 43)%N then digits 6 0 s'
      else if (c =? 45)%N then
        match digits 6 0 s' with
        | Some (y, r) => if y =? 0 then None else Some (- y, r)
        | None => None
        end
      else digits 4 0 s
  | [] => None
  end.

Definition bindO {A B} (o : option A) (k : A -> option B) : option B :=
  match o with Some a => k a | None => None end.

(** The fields of a string in the full form [YYYY-MM-DDTHH:mm:ss.sssZ]. *)
Definition parseFields (s : jsstring) : option Fields :=
  bindO (parseYear s) (fun '(y, s) =>
  bindO (expect 45 s) (fun s =>
  bindO (digits 2 0 s) (fun '(mo, s) =>
  bindO (expect 45 s) (fun s =>
  bindO (digits 2 0 s) (fun '(d, s) =>
  bindO (expect 84 s) (fun s =>
  bindO (digits 2 0 s) (fun '(h, s) =>
  bindO (expect 58 s) (fun s =>
  bindO (digits 2 0 s) (fun '(mi, s) =>
  bindO (expect 58 s) (fun s =>
  bindO (digits 2 0 s) (fun '(se, s) =>
  bindO (expect 46 s) (fun s =>
  bindO (digits 3 0 s) (fun '(ms, s) =>
  match s with
  | [90%N] =>
      Some {| year := y; month := mo; date := d; hours := h; minutes := mi;
              seconds := se; millis := ms |}
  | _ => None
  end))))))))))))).

Definition validFields (f : Fields) : bool :=
  (1 <=? month f) && (month f <=? 12) && (1 <=? date f)
  && (date f <=? (if month f =? 12 then 31
                  else DaysBeforeMonth (InLeapYear (year f)) (month f)
                       - DaysBeforeMonth (InLeapYear (year f)) (month f - 1)))
  && (hours f <=? 23) && (minutes f <=? 59) && (seconds f <=? 59).

Definition timeOf (f : Fields) : Z :=
  MakeDay (year f) (month f - 1) (date f) * msPerDay
  + MakeTime (hours f) (minutes f) (seconds f) (millis f).

(** [Date.parse] on the full ISO form with legal fields; [None] for any other
    string, whose reading is left to the host. *)
Definition parseISO (s : jsstring) : option JsDate :=
  match parseFields s with
  | Some f => if validFields f then Some (TimeClip (timeOf f)) else None
  | None => None
  end.

End JsDateOps.

(* ================================================================== *)
(** ** JSON and [localStorage] *)
(* ================================================================== *)

(** What [JSON.parse] reads back from the text [JSON.stringify] writes: the
    document as a tree.  The properties of an object are kept in the order of
    the interface declarations; nothing below depends on their order. *)
Unset Elimination Schemes.
Inductive json :=
| JNull
| JBool (b : bool)
| JNum (x : number)
| JStr (s : jsstring)
| JArr (items : list json)
| JObj (fields : list (jsstring * json)).
Set Elimination Schemes.

Fixpoint lookup (k : jsstring) (fields : list (jsstring * json)) : option json :=
  match fields with
  | [] => None
  | (k', v) :: fields' => if JsString.eqb k' k then Some v else lookup k fields'
  end.

(** A property that is [undefined] is left out. *)
Definition optional (k : jsstring) (v : option json) : list (jsstring * json) :=
  match v with
  | Some j => [(k, j)]
  | None => []
  end.

(** A number that is not finite is written as [null], and [-0] as [0]. *)
Definition json_of_number (n : number) : json :=
  match n with
  | S754_zero _ => JNum zero
  | S754_finite _ _ _ => JNum n
  | _ => JNull
  end.

(** [Date.prototype.toJSON]. *)
Definition json_of_date (d : JsDate) : json :=
  match JsDateOps.toISOString d with
  | Normal s => JStr s
  | Throw _ => JNull
  end.

Definition typeName (t : RowType) : jsstring :=
  match t with
  | TString => js "string" | TNumber => js "number" | TDate => js "date"
  | TDatetime => js "datetime" | TPercentage => js "percentage"
  | TFormula => js "formula"
  end.

Definition formatName (f : DateFormat) : jsstring :=
  match f with FDate => js "date" | FDatetime => js "datetime" end.

Definition json_of_value (v : Value) : json :=
  match v with
  | VStr s => JStr s
  | VNum n => json_of_number n
  | VDate d => json_of_date d
  end.

Definition json_of_result (r : Result) : json :=
  match r with
  | RNum n => json_of_number n
  | RDate d => json_of_date d
  | RNull => JNull
  end.

Definition json_of_row (row : DataRow) : json :=
  JObj ([(js "id", json_of_number (id row)); (js "name", JStr (name row));
         (js "value", json_of_value (value row));
         (js "type", JStr (typeName (type row)))]
        ++ optional (js "dateFormat")
             (option_map (fun f => JStr (formatName f)) (dateFormat row))
        ++ optional (js "output") (option_map JStr (output row))
        ++ optional (js "formula") (option_map JStr (formula row))
        ++ optional (js "result") (option_map json_of_result (result row))).

Definition json_of_table (t : StateTable) : json :=
  JObj [(js "id", JStr (tableId t));
        (js "position", JObj [(js "x", json_of_number (x (position t)));
                              (js "y", json_of_number (y (position t)))]);
        (js "data", JArr (map json_of_row (data t)))].

Definition json_of_transition (t : StateTransition) : json :=
  JObj ([(js "id", JStr (transitionId t)); (js "fromId", JStr (fromId t));
         (js "toId", JStr (toId t))]
        ++ optional (js "text") (option_map JStr (text t))).

(** [JSON.stringify({ stateTables, stateTransitions })]. *)
Definition json_of_state (tables : list StateTable)
    (transitions : list StateTransition) : json :=
  JObj [(js "stateTables", JArr (map json_of_table tables));
        (js "stateTransitions", JArr (map json_of_transition transitions))].

(** Reading the document back at the declared types; [None] when it does not
    have them. *)

Fixpoint traverse {A B} (f : A -> option B) (l : list A) : option (list B) :=
  match l with
  | [] => Some []
  | a :: l' =>
      match f a, traverse f l' with
      | Some b, Some bs => Some (b :: bs)
      | _, _ => None
      end
  end.

Definition asNumber (j : option json) : option number :=
  match j with Some (JNum n) => Some n | _ => None end.

Definition asString (j : option json) : option jsstring :=
  match j with Some (JStr s) => Some s | _ => None end.

Definition asOptionalString (j : option json) : option (option jsstring) :=
  match j with
  | None => Some None
  | Some (JStr s) => Some (Some s)
  | _ => None
  end.

Definition typeOfName (s : jsstring) : option RowType :=
  find (fun t => JsString.eqb (typeName t) s)
    [TString; TNumber; TDate; TDatetime; TPercentage; TFormula].

Definition formatOfName (s : jsstring) : option DateFormat :=
  find (fun f => JsString.eqb (formatName f) s) [FDate; FDatetime].

Definition row_of_json (j : json) : option DataRow :=
  match j with
  | JObj fs =>
      match asNumber (lookup (js "id") fs), asString (lookup (js "name") fs),
            lookup (js "value") fs,
            JsDateOps.bindO (asString (lookup (js "type") fs)) typeOfName,
            asOptionalString (lookup (js "dateFormat") fs),
            asOptionalString (lookup (js "output") fs),
            asOptionalString (lookup (js "formula") fs) with
      | Some i, Some n, Some v, Some t, Some df, Some o, Some f =>
          match match v with
                | JStr s => Some (VStr s)
                | JNum x => Some (VNum x)
                | _ => None
                end,
                match df with
                | None => Some None
                | Some s => option_map Some (formatOfName s)
                end,
                match lookup (js "result") fs with
                | None => Some None
                | Some (JNum r) => Some (Some (RNum r))
                | Some JNull => Some (Some RNull)
                | _ => None
                end with
          | Some v, Some df, Some r =>
              Some {| id := i; name := n; value := v; type := t;
                      dateFormat := df; output := o; formula := f; result := r |}
          | _, _, _ => None
          end
      | _, _, _, _, _, _, _ => None
      end
  | _ => None
  end.

Definition table_of_json (j : json) : option StateTable :=
  match j with
  | JObj fs =>
      match asString (lookup (js "id") fs), lookup (js "position") fs,
            lookup (js "data") fs with
      | Some i, Some (JObj p), Some (JArr rows) =>
          match asNumber (lookup (js "x") p), asNumber (lookup (js "y") p),
                traverse row_of_json rows with
          | Some px, Some py, Some rs =>
              Some {| tableId := i; position := {| x := px; y := py |}; data := rs |}
          | _, _, _ => None
          end
      | _, _, _ => None
      end
  | _ => None
  end.

Definition transition_of_json (j : json) : option StateTransition :=
  match j with
  | JObj fs =>
      match asString (lookup (js "id") fs), asString (lookup (js "fromId") fs),
            asString (lookup (js "toId") fs),
            asOptionalString (lookup (js "text") fs) with
      | Some i, Some f, Some t, Some tx =>
          Some {| transitionId := i; fromId := f; toId := t; text := tx |}
      | _, _, _, _ => None
      end
  | _ => None
  end.

Definition state_of_json (j : json)
  : option (list StateTable * list StateTransition) :=
  match j with
  | JObj fs =>
      match lookup (js "stateTables") fs, lookup (js "stateTransitions") fs with
      | Some (JArr ts), Some (JArr trs) =>
          match traverse table_of_json ts, traverse transition_of_json trs with
          | Some tables, Some transitions => Some (tables, transitions)
          | _, _ => None
          end
      | _, _ => None
      end
  | _ => None
  end.

(** The world outside the machine: the item [visualizationState] of
    [localStorage], and the clock, whose [n]-th reading is [now n]. *)
Record World := {
  storage : option json;
  now : nat -> Z;
  ticks : nat
}.

Definition Date_now (w : World) : Z * World :=
  (now w (ticks w),
   {| storage := storage w; now := now w; ticks := S (ticks w) |}).

Definition localStorage_setItem (doc : json) (w : World) : World :=
  {| storage := Some doc; now := now w; ticks := ticks w |}.

(* ================================================================== *)
(** ** Recalculation and persistence ([machines/stateMachine.ts]) *)
(* ================================================================== *)

(** [Array.prototype.map] with a callback that may throw. *)
Fixpoint mapM {A B} (f : A -> completion B) (l : list A) : completion (list B) :=
  match l with
  | [] => Normal []
  | a :: l' => b <- f a ;; bs <- mapM f l' ;; Normal (b :: bs)
  end.

Definition withData (table : StateTable) (rows : list DataRow) : StateTable :=
  {| tableId := tableId table; position := position table; data := rows |}.

Definition withValue (row : DataRow) (v : Value) : DataRow :=
  {| id := id row; name := name row; value := v; type := type row;
     dateFormat := dateFormat row; output := output row;
     formula := formula row; result := result row |}.

(** [row.formula] is neither [undefined] nor empty. *)
Definition hasFormula (row : DataRow) : bool :=
  match formula row with
  | Some f => JsString.truthy f
  | None => false
  end.

(** [s || ''] for an optional string. *)
Definition orEmpty (s : option jsstring) : option jsstring :=
  match s with
  | Some t => Some t
  | None => Some []
  end.

(** [row.type === 'formula' && row.formula]. *)
Definition isFormulaRow (row : DataRow) : bool :=
  RowType_eqb (type row) TFormula && hasFormula row.

Section Machine.

Context {host : Host}.

Definition recalculateRow (data : list DataRow) (stateTables : list StateTable)
    (row : DataRow) : completion DataRow :=
  if isFormulaRow row then
    r <- calculateFormula (match formula row with Some f => f | None => [] end)
           data (Some stateTables) ;;
    Normal (withResult row (Some (RNum r)))
  else Normal row.

Definition recalculateFormulas (data : list DataRow) (stateTables : list StateTable)
  : completion (list DataRow) :=
  mapM (recalculateRow data stateTables) data.

(** The callback of [table.data.map] in [saveState]. *)
Definition saveRow (table : StateTable) (stateTables : list StateTable)
    (row : DataRow) : completion DataRow :=
  match type row, value row with
  | TDate, VDate d =>
      s <- JsDateOps.toISOString d ;;
      Normal (withValue row (VStr s))
  | _, _ =>
      if hasFormula row then
        r <- calculateFormula (match formula row with Some f => f | None => [] end)
               (data table) (Some stateTables) ;;
        Normal (withResult row (Some (RNum r)))
      else
        Normal {| id := id row; name := name row; value := value row;
                  type := type row; dateFormat := dateFormat row;
                  output := orEmpty (output row);
                  formula := orEmpty (formula row);
                  result := result row |}
  end.

Definition saveState (stateTables : list StateTable)
    (stateTransitions : list StateTransition) (w : World) : World :=
  match
    mapM (fun table =>
            rows <- mapM (saveRow table stateTables) (data table) ;;
            Normal (withData table rows)) stateTables
  with
  | Normal processedTables =>
      localStorage_setItem (json_of_state processedTables stateTransitions) w
  | Throw _ => w
  end.

(** [new Date(s)] for a string. *)
Definition Date_parse (s : jsstring) : JsDate :=
  match JsDateOps.parseISO s with
  | Some d => d
  | None => host_Date_parse s
  end.

(** The callback of [table.data.map] in [loadState]. *)
Definition loadRow (row : DataRow) : DataRow :=
  match type row, value row with
  | TDate, VStr s => withValue row (VDate (Date_parse s))
  | _, _ => row
  end.

(** [processedTables.forEach(table => { table.data = ... })]: the tables in
    [done] hold their new rows already when the next one is recalculated. *)
Fixpoint recalculateTables (done todo : list StateTable)
  : completion (list StateTable) :=
  match todo with
  | [] => Normal done
  | table :: rest =>
      rows <- recalculateFormulas (data table) (done ++ todo) ;;
      recalculateTables (done ++ [withData table rows]) rest
  end.

(** [loadState]; [None] when the stored document does not have the declared
    types. *)
Definition loadState (w : World)
  : option (list StateTable * list StateTransition) :=
  match storage w with
  | Some savedState =>
      match state_of_json savedState with
      | Some (stateTables, stateTransitions) =>
          let processedTables :=
            map (fun table => withData table (map loadRow (data table))) stateTables in
          match recalculateTables [] processedTables with
          | Normal processedTables => Some (processedTables, stateTransitions)
          | Throw _ => Some ([], [])
          end
      | None => None
      end
  | None => Some ([], [])
  end.

(** *** The machine *)

Inductive MachineState := idle | dialogOpen.

Record Context := {
  stateTables : list StateTable;
  stateTransitions : list StateTransition;
  selectedTableId : option jsstring;
  isDialogOpen : bool
}.

Inductive Event :=
| OPEN_DIALOG (table : option jsstring)
| CLOSE_DIALOG
| SAVE_STATE (rows : list DataRow)
| MOVE_TABLE (table : jsstring) (pos : Position)
| DELETE_TABLE (table : jsstring)
| UPDATE_TRANSITION (transition : jsstring) (label : jsstring).

Definition initialContext : Context :=
  {| stateTables := []; stateTransitions := [];
     selectedTableId := None; isDialogOpen := false |}.

(** [`table-${Date.now()}`]. *)
Definition freshId (prefix : jsstring) (t : Z) : jsstring :=
  prefix ++ toString (ofZ t).

(** [if (context.selectedTableId)]: neither [null] nor empty. *)
Definition selected (context : Context) : option jsstring :=
  match selectedTableId context with
  | Some i => if JsString.truthy i then Some i else None
  | None => None
  end.

(** The assigner of [stateTables] on SAVE_STATE. *)
Definition saveTables (context : Context) (eventData : list DataRow) (w : World)
  : completion (list StateTable * World) :=
  let newTables := stateTables context in
  recalculatedData <- recalculateFormulas eventData (stateTables context) ;;
  match selected context with
  | Some sel =>
      match find (fun t => JsString.eqb (tableId t) sel) (stateTables context) with
      | None => Normal (newTables, w)
      | Some sourceTable =>
          let (t, w) := Date_now w in
          let newTableId := freshId (js "table-") t in
          let newTable :=
            {| tableId := newTableId;
               position := {| x := add (x (position sourceTable)) (ofZ 500);
                              y := y (position sourceTable) |};
               data := recalculatedData |} in
          let newTables := newTables ++ [newTable] in
          Normal (newTables, saveState newTables (stateTransitions context) w)
      end
  | None =>
      let (t, w) := Date_now w in
      let newTable :=
        {| tableId := freshId (js "table-") t;
           position := {| x := ofZ 100; y := ofZ 100 |};
           data := recalculatedData |} in
      let newTables := newTables ++ [newTable] in
      Normal (newTables, saveState newTables (stateTransitions context) w)
  end.

(** The assigner of [stateTransitions] on SAVE_STATE. *)
Definition saveTransitions (context : Context) (w : World)
  : list StateTransition * World :=
  match selected context with
  | Some sel =>
      let (t1, w) := Date_now w in
      let (t2, w) := Date_now w in
      let newTransition :=
        {| transitionId := freshId (js "transition-") t1; fromId := sel;
           toId := freshId (js "table-") t2; text := None |} in
      let newTransitions := stateTransitions context ++ [newTransition] in
      (newTransitions, saveState (stateTables context) newTransitions w)
  | None => (stateTransitions context, w)
  end.

(** [trans.fromId !== event.tableId && trans.toId !== event.tableId]. *)
Definition keepsTransition (eventTableId : jsstring) (trans : StateTransition) : bool :=
  negb (JsString.eqb (fromId trans) eventTableId)
  && negb (JsString.eqb (toId trans) eventTableId).

(** One event.  The assigners of one [assign] all read the context as it was
    before the event, in the order they are written; an event a state does
    not handle leaves everything as it is. *)
Definition step (state : MachineState) (context : Context) (event : Event)
    (w : World) : completion (MachineState * Context * World) :=
  match state, event with
  | idle, OPEN_DIALOG eventTableId =>
      Normal (dialogOpen,
              {| stateTables := stateTables context;
                 stateTransitions := stateTransitions context;
                 selectedTableId := eventTableId; isDialogOpen := true |}, w)
  | idle, MOVE_TABLE eventTableId eventPosition =>
      let newTables :=
        map (fun table =>
               if JsString.eqb (tableId table) eventTableId
               then {| tableId := tableId table; position := eventPosition;
                       data := data table |}
               else table) (stateTables context) in
      Normal (idle,
              {| stateTables := newTables;
                 stateTransitions := stateTransitions context;
                 selectedTableId := selectedTableId context;
                 isDialogOpen := isDialogOpen context |},
              saveState newTables (stateTransitions context) w)
  | idle, DELETE_TABLE eventTableId =>
      let newTables :=
        filter (fun table => negb (JsString.eqb (tableId table) eventTableId))
          (stateTables context) in
      let newTransitions :=
        filter (keepsTransition eventTableId) (stateTransitions context) in
      Normal (idle,
              {| stateTables := newTables;
                 stateTransitions :=
                   filter (keepsTransition eventTableId) (stateTransitions context);
                 selectedTableId := selectedTableId context;
                 isDialogOpen := isDialogOpen context |},
              saveState newTables newTransitions w)
  | _, CLOSE_DIALOG =>
      Normal (idle,
              {| stateTables := stateTables context;
                 stateTransitions := stateTransitions context;
                 selectedTableId := None; isDialogOpen := false |}, w)
  | idle, UPDATE_TRANSITION eventTransitionId eventText =>
      Normal (idle,
              {| stateTables := stateTables context;
                 stateTransitions :=
                   map (fun transition =>
                          if JsString.eqb (transitionId transition) eventTransitionId
                          then {| transitionId := transitionId transition;
                                  fromId := fromId transition;
                                  toId := toId transition; text := Some eventText |}
                          else transition) (stateTransitions context);
                 selectedTableId := selectedTableId context;
                 isDialogOpen := isDialogOpen context |}, w)
  | dialogOpen, SAVE_STATE eventData =>
      '(newTables, w) <- saveTables context eventData w ;;
      let (newTransitions, w) := saveTransitions context w in
      Normal (idle,
              {| stateTables := newTables; stateTransitions := newTransitions;
                 selectedTableId := selectedTableId context;
                 isDialogOpen := isDialogOpen context |}, w)
  | _, _ => Normal (state, context, w)
  end.

End Machine.

(* ================================================================== *)
(** ** Arrows ([types.ts]) *)
(* ================================================================== *)

(** [a > b] and [a < b] on numbers: false when one of them is [NaN]. *)
Definition gt (a b : number) : bool := SFltb b a.
Definition lt (a b : number) : bool := SFltb a b.

Definition Math_abs (a : number) : number := SFabs a.

(** [table.data.length]. *)
Definition dataLength (table : StateTable) : number :=
  ofZ (Z.of_nat (List.length (data table))).

(** [calculateArrowPoints]: the points are objects with the fields [x] and
    [y], which the offsets at the end are added to. *)
Definition calculateArrowPoints (fromTable toTable : StateTable) : list number :=
  let tableWidth := ofZ 700 in
  let fromTableHeight := mul (add (dataLength fromTable) (ofZ 1)) (ofZ 40) in
  let toTableHeight := mul (add (dataLength toTable) (ofZ 1)) (ofZ 40) in
  let fromCenter :=
    {| x := add (x (position fromTable)) (div tableWidth (ofZ 2));
       y := add (y (position fromTable)) (div fromTableHeight (ofZ 2)) |} in
  let toCenter :=
    {| x := add (x (position toTable)) (div tableWidth (ofZ 2));
       y := add (y (position toTable)) (div toTableHeight (ofZ 2)) |} in
  let dx := sub (x toCenter) (x fromCenter) in
  let dy := sub (y toCenter) (y fromCenter) in
  let '(fromPoint, toPoint) :=
    if gt (Math_abs dx) (Math_abs dy) then
      if gt dx zero then
        ({| x := add (x (position fromTable)) tableWidth;
            y := add (y (position fromTable)) (div fromTableHeight (ofZ 2)) |},
         {| x := x (position toTable);
            y := add (y (position toTable)) (div toTableHeight (ofZ 2)) |})
      else
        ({| x := x (position fromTable);
            y := add (y (position fromTable)) (div fromTableHeight (ofZ 2)) |},
         {| x := add (x (position toTable)) tableWidth;
            y := add (y (position toTable)) (div toTableHeight (ofZ 2)) |})
    else
      if gt dy zero then
        ({| x := add (x (position fromTable)) (div tableWidth (ofZ 2));
            y := add (y (position fromTable)) fromTableHeight |},
         {| x := add (x (position toTable)) (div tableWidth (ofZ 2));
            y := y (position toTable) |})
      else
        ({| x := add (x (position fromTable)) (div tableWidth (ofZ 2));
            y := y (position fromTable) |},
         {| x := add (x (position toTable)) (div tableWidth (ofZ 2));
            y := add (y (position toTable)) toTableHeight |}) in
  let offset := ofZ 5 in
  let '(fromPoint, toPoint) :=
    if gt dx zero then
      ({| x := add (x fromPoint) offset; y := y fromPoint |},
       {| x := sub (x toPoint) offset; y := y toPoint |})
    else if lt dx zero then
      ({| x := sub (x fromPoint) offset; y := y fromPoint |},
       {| x := add (x toPoint) offset; y := y toPoint |})
    else (fromPoint, toPoint) in
  let '(fromPoint, toPoint) :=
    if gt dy zero then
      ({| x := x fromPoint; y := add (y fromPoint) offset |},
       {| x := x toPoint; y := sub (y toPoint) offset |})
    else if lt dy zero then
      ({| x := x fromPoint; y := sub (y fromPoint) offset |},
       {| x := x toPoint; y := add (y toPoint) offset |})
    else (fromPoint, toPoint) in
  [x fromPoint; y fromPoint; x toPoint; y toPoint].

(* ================================================================== *)
(** ** The editing dialog ([InitialStateDialog.tsx]) *)
(* ================================================================== *)

(** [a === b] on numbers: [NaN] differs from itself and the zeros are
    equal. *)
Definition strictEquals (a b : number) : bool := SFeqb a b.

(** [parseFloat(s)]: the longest prefix of [s], white space at its head
    dropped, that is a decimal literal; an exponent counts when it has a
    digit. *)
Definition parseFloat (s : jsstring) : number :=
  let t := dropWhile isSpace s in
  let '(sg, u) :=
    match t with
    | 43%N :: u => (false, u)
    | 45%N :: u => (true, u)
    | _ => (false, t)
    end in
  if startsWith (js "Infinity") u then S754_infinity sg
  else
    let (ip, r) := span isDigit u in
    let '(fp, r') :=
      match r with
      | 46%N :: r1 => span isDigit r1
      | _ => ([], r)
      end in
    if negb (JsString.truthy ip) && negb (JsString.truthy fp) then NaN
    else
      let e :=
        match r' with
        | c :: r2 =>
            if (c =? 101)%N || (c =? 69)%N then
              let '(esg, r3) :=
                match r2 with
                | 43%N :: d => (false, d)
                | 45%N :: d => (true, d)
                | _ => (false, r2)
                end in
              let (ed, _) := span isDigit r3 in
              if JsString.truthy ed
              then (if esg then - digitsValue 10 0 ed else digitsValue 10 0 ed)%Z
              else 0%Z
            else 0%Z
        | [] => 0%Z
        end in
      ofDecimal sg (digitsValue 10 0 (ip ++ fp)) (e - Z.of_nat (List.length fp)).

(** [s.replace('%', '')]: the first [%] is taken out. *)
Fixpoint removePercent (s : jsstring) : jsstring :=
  match s with
  | [] => []
  | c :: s' => if (c =? 37)%N then s' else c :: removePercent s'
  end.

(** [s.replace(/\//g, '-')]. *)
Definition dashes (s : jsstring) : jsstring :=
  map (fun c => if (c =? 47)%N then 45%N else c) s.

(** [s.endsWith('%')]. *)
Definition endsWithPercent (s : jsstring) : bool :=
  match rev s with
  | c :: _ => (c =? 37)%N
  | [] => false
  end.

(** [s.split('\n')]. *)
Fixpoint splitLines (cur : jsstring) (s : jsstring) : list jsstring :=
  match s with
  | [] => [rev cur]
  | c :: s' =>
      if (c =? 10)%N then rev cur :: splitLines [] s'
      else splitLines (c :: cur) s'
  end.

(** [s.split(/\s+/)]: the pieces between the runs of white space; [cur] is
    the piece that is being read, last character first, and [inSpace] tells
    that the last character was white space. *)
Fixpoint splitSpaces (cur : jsstring) (inSpace : bool) (s : jsstring)
  : list jsstring :=
  match s with
  | [] => [rev cur]
  | c :: s' =>
      if isSpace c then
        if inSpace then splitSpaces [] true s'
        else rev cur :: splitSpaces [] true s'
      else splitSpaces (c :: cur) false s'
  end.

(** [/^\d{4}[-/]\d{2}[-/]\d{2}$/.test(s)]. *)
Definition isSeparator (c : codeunit) : bool := (c =? 45)%N || (c =? 47)%N.

Definition isDateText (s : jsstring) : bool :=
  match s with
  | [y1; y2; y3; y4; s1; m1; m2; s2; d1; d2] =>
      forallb isDigit [y1; y2; y3; y4; m1; m2; d1; d2]
      && isSeparator s1 && isSeparator s2
  | _ => false
  end.

(** [/^\d{4}[-/]\d{2}[-/]\d{2} \d{2}:\d{2}:\d{2}$/.test(s)]. *)
Definition isDateTimeText (s : jsstring) : bool :=
  match s with
  | [y1; y2; y3; y4; s1; m1; m2; s2; d1; d2; sp; h1; h2; c1; i1; i2; c2; e1; e2] =>
      forallb isDigit [y1; y2; y3; y4; m1; m2; d1; d2; h1; h2; i1; i2; e1; e2]
      && isSeparator s1 && isSeparator s2
      && (sp =? 32)%N && (c1 =? 58)%N && (c2 =? 58)%N
  | _ => false
  end.

(** The field that is edited with its new value: [field] and [newValue],
    the latter at the type the handler casts it to. *)
Inductive Edit :=
| EditName (newValue : jsstring)
| EditValue (newValue : jsstring)
| EditOutput (newValue : jsstring)
| EditFormula (newValue : jsstring)
| EditDateFormat (newValue : DateFormat).

(** [Date.parse] on the date-only ISO form [YYYY-MM-DD] with a legal month
    and day: midnight of that day, universal time.  [None] for any other
    string. *)
Definition parseDateOnly (s : jsstring) : option JsDate :=
  JsDateOps.bindO (JsDateOps.digits 4 0 s) (fun '(y, s) =>
  JsDateOps.bindO (JsDateOps.expect 45 s) (fun s =>
  JsDateOps.bindO (JsDateOps.digits 2 0 s) (fun '(mo, s) =>
  JsDateOps.bindO (JsDateOps.expect 45 s) (fun s =>
  JsDateOps.bindO (JsDateOps.digits 2 0 s) (fun '(d, s) =>
  match s with
  | [] =>
      let f := {| JsDateOps.year := y; JsDateOps.month := mo; JsDateOps.date := d;
                  JsDateOps.hours := 0; JsDateOps.minutes := 0;
                  JsDateOps.seconds := 0; JsDateOps.millis := 0 |} in
      if JsDateOps.validFields f
      then Some (JsDateOps.TimeClip (JsDateOps.timeOf f))
      else None
  | _ => None
  end))))).

(** [String(num).padStart(2, '0')]. *)
Definition padStart2 (s : jsstring) : jsstring :=
  repeat 48%N (2 - List.length s) ++ s.

(** The time zone of the host: what [Date.prototype.toString] writes for a
    valid date, and the offset of local time. *)
Class DateHost := {
  host_Date_toString : Z -> jsstring;
  (** The offset of local time at an instant, in milliseconds. *)
  LocalTZA : Z -> Z
}.

Section Dialog.

Context {host : Host} {dateHost : DateHost}.

(** [new Date(s)] for a string: the date-only form is read here, the full
    form and the rest by [Date_parse]. *)
Definition newDate (s : jsstring) : JsDate :=
  match parseDateOnly s with
  | Some d => d
  | None => Date_parse s
  end.

(** The fields of a date in local time. *)
Definition localFields (t : Z) : JsDateOps.Fields :=
  JsDateOps.fieldsOf (t + LocalTZA t).

(** [getFullYear], [getMonth], [getDate], [getHours], [getMinutes] and
    [getSeconds]; [NaN] on an invalid date. *)
Definition getter (field : JsDateOps.Fields -> Z) (date : JsDate) : number :=
  match date with
  | Some t => ofZ (field (localFields t))
  | None => NaN
  end.

Definition getFullYear := getter JsDateOps.year.
Definition getMonth := getter (fun f => JsDateOps.month f - 1)%Z.
Definition getDate := getter JsDateOps.date.
Definition getHours := getter JsDateOps.hours.
Definition getMinutes := getter JsDateOps.minutes.
Definition getSeconds := getter JsDateOps.seconds.

(** [formatDate], which is the same in the dialog and on the canvas. *)
Definition formatDate (date : JsDate) (format : option DateFormat) : jsstring :=
  let pad (num : number) := padStart2 (toString num) in
  let year := getFullYear date in
  let month := pad (add (getMonth date) (ofZ 1)) in
  let day := pad (getDate date) in
  match format with
  | Some FDatetime =>
      let hours := pad (getHours date) in
      let minutes := pad (getMinutes date) in
      let seconds := pad (getSeconds date) in
      toString year ++ [45%N] ++ month ++ [45%N] ++ day ++ [32%N]
      ++ hours ++ [58%N] ++ minutes ++ [58%N] ++ seconds
  | _ => toString year ++ [45%N] ++ month ++ [45%N] ++ day
  end.

(** [handleAddRow]: the array given to [setData]. *)
Definition handleAddRow (data : list DataRow) : list DataRow :=
  data ++ [{| id := add (ofZ (Z.of_nat (List.length data))) (ofZ 1);
              name := []; value := VStr []; type := TString;
              dateFormat := None; output := None; formula := None;
              result := None |}].

(** [handleDeleteRow]: the array given to [setData]. *)
Definition handleDeleteRow (rowId : number) (data : list DataRow) : list DataRow :=
  filter (fun row => negb (strictEquals (id row) rowId)) data.

(** The first [map] of [handleCellChange], on a row with the id that is
    edited. *)
Definition editRow (edit : Edit) (prevData : list DataRow) (row : DataRow)
  : completion DataRow :=
  match edit with
  | EditValue newValue =>
      match type row with
      | TDate =>
          Normal {| id := id row; name := name row; value := VStr newValue;
                    type := type row;
                    dateFormat := Some (match dateFormat row with
                                        | Some f => f
                                        | None => FDate
                                        end);
                    output := output row; formula := formula row;
                    result := result row |}
      | TPercentage =>
          let numValue := div (parseFloat (removePercent newValue)) (ofZ 100) in
          Normal (withValue row (VNum (if isNaN numValue then zero else numValue)))
      | TNumber =>
          let numValue := ofString newValue in
          Normal (withValue row (VNum (if isNaN numValue then zero else numValue)))
      | TFormula =>
          r <- calculateFormula newValue prevData None ;;
          Normal (withResult (withValue row (VStr newValue)) (Some (RNum r)))
      | _ => Normal (withValue row (VStr newValue))
      end
  | EditFormula newValue =>
      if JsString.truthy newValue then
        r <- calculateFormula newValue prevData None ;;
        Normal {| id := id row; name := name row; value := value row;
                  type := type row; dateFormat := dateFormat row;
                  output := output row; formula := Some newValue;
                  result := Some (RNum r) |}
      else
        Normal {| id := id row; name := name row; value := value row;
                  type := type row; dateFormat := dateFormat row;
                  output := output row; formula := Some newValue;
                  result := None |}
  | EditOutput newValue =>
      Normal {| id := id row; name := name row; value := value row;
                type := type row; dateFormat := dateFormat row;
                output := Some newValue; formula := formula row;
                result := result row |}
  | EditDateFormat newValue =>
      Normal {| id := id row; name := name row; value := value row;
                type := type row; dateFormat := Some newValue;
                output := output row; formula := formula row;
                result := result row |}
  | EditName newValue =>
      Normal {| id := id row; name := newValue; value := value row;
                type := type row; dateFormat := dateFormat row;
                output := output row; formula := formula row;
                result := result row |}
  end.

(** The second [map] of [handleCellChange]. *)
Definition refreshRow (rowId : number) (newData : list DataRow) (row : DataRow)
  : completion DataRow :=
  if hasFormula row && negb (strictEquals (id row) rowId) then
    r <- calculateFormula (match formula row with Some f => f | None => [] end)
           newData None ;;
    Normal (withResult row (Some (RNum r)))
  else Normal row.

(** [handleCellChange]: the function given to [setData], on [prevData]. *)
Definition handleCellChange (rowId : number) (edit : Edit) (prevData : list DataRow)
  : completion (list DataRow) :=
  newData <- mapM (fun row =>
                     if strictEquals (id row) rowId then editRow edit prevData row
                     else Normal row) prevData ;;
  mapM (refreshRow rowId newData) newData.

(** [row.value.toString()]. *)
Definition Value_toString (v : Value) : jsstring :=
  match v with
  | VStr s => s
  | VNum n => toString n
  | VDate (Some t) => host_Date_toString t
  | VDate None => js "Invalid Date"
  end.

(** The callback of [data.map] in [handleSave]. *)
Definition formatRow (data : list DataRow) (row : DataRow) : completion DataRow :=
  let baseRow :=
    {| id := id row; name := name row; value := value row; type := type row;
       dateFormat := dateFormat row; output := orEmpty (output row);
       formula := orEmpty (formula row); result := result row |} in
  let formulaRow :=
    if hasFormula row then
      match calculateFormula (match formula row with Some f => f | None => [] end)
              data None with
      | Normal r => Normal (withResult baseRow (Some (RNum r)))
      | Throw _ => Normal baseRow
      end
    else Normal baseRow in
  match type row with
  | TDate =>
      match newDate (dashes (Value_toString (value row))) with
      | Some t => Normal (withValue baseRow (VDate (Some t)))
      | None => formulaRow
      end
  | _ => formulaRow
  end.

(** [handleSave]: the rows that are given to [onSave], if it is called. *)
Definition handleSave (data : list DataRow) : option (list DataRow) :=
  match data with
  | [] => None
  | _ =>
      match mapM (formatRow data) data with
      | Normal formattedData => Some formattedData
      | Throw _ => None
      end
  end.

(** The callback of [rows.map] in [parseData]. *)
Definition parseRow (index : nat) (row : jsstring) : completion DataRow :=
  let words := splitSpaces [] false (trim row) in
  let name := nth 0 words [] in
  match nth_error words 1 with
  | None => Throw TypeError
  | Some value =>
      let '(parsedValue, type, dateFormat) :=
        if isDateText value then
          (VDate (newDate (dashes value)), TDate, Some FDate)
        else if isDateTimeText value then
          (VDate (newDate (dashes value)), TDate, Some FDatetime)
        else if endsWithPercent value then
          (VNum (div (parseFloat value) (ofZ 100)), TPercentage, None)
        else if negb (isNaN (ofString value)) then
          (VNum (ofString value), TNumber, None)
        else (VStr value, TString, None) in
      Normal {| id := add (ofZ (Z.of_nat index)) (ofZ 1); name := name;
                value := parsedValue; type := type; dateFormat := dateFormat;
                output := Some []; formula := Some []; result := None |}
  end.

Fixpoint mapMi {A B} (f : nat -> A -> completion B) (index : nat) (l : list A)
  : completion (list B) :=
  match l with
  | [] => Normal []
  | a :: l' => b <- f index a ;; bs <- mapMi f (S index) l' ;; Normal (b :: bs)
  end.

(** [parsedData] of [parseData], from the text of the text area. *)
Definition parsedData (inputText : jsstring) : completion (list DataRow) :=
  mapMi parseRow 0 (splitLines [] (trim inputText)).

End Dialog.

(** A host for the closed examples, none of which writes a date, in the
    zone of universal time. *)
Definition strictDateHost : DateHost :=
  {| host_Date_toString := fun _ => []; LocalTZA := fun _ => 0%Z |}.

(* ================================================================== *)
(** ** What the statements below speak of *)
(* ================================================================== *)

(** What [addRow] reads of a row. *)
Definition entry (row : DataRow) : jsstring * number := (name row, rowValue row).

Definition addEntry (m : NameMap) (kv : jsstring * number) : NameMap :=
  if negb (JsString.truthy (fst kv)) then m
  else if negb (Map_has m (fst kv)) then Map_set m (fst kv) (snd kv)
  else m.

Definition byKeyLength (a b : jsstring * number) : bool :=
  (List.length (fst b) <=? List.length (fst a))%nat.

Definition hasName (row : DataRow) : bool := JsString.truthy (name row).

(** The entries of the map whose names occur in the expression. *)
Definition relevant (expression : jsstring) (m : NameMap) : NameMap :=
  filter (fun kv => includes expression (fst kv)) m.

Definition occursIn (expression : jsstring) (row : DataRow) : bool :=
  includes expression (name row).

(** The integer a number stands for. *)
Definition integerValue (n : number) : option Z :=
  match n with
  | S754_zero _ => Some 0%Z
  | S754_finite s m e =>
      let v := (if s then Z.neg m else Z.pos m) in
      if (0 <=? e)%Z then Some (v * 2 ^ e)%Z
      else if (Z.pos m mod 2 ^ (- e) =? 0)%Z then Some (v / 2 ^ (- e))%Z
      else None
  | _ => None
  end.

(** A number that JSON keeps as it is: finite, and not [-0]. *)
Definition plain (n : number) : bool :=
  match n with
  | S754_zero s => negb s
  | S754_finite _ _ _ => true
  | _ => false
  end.

(** What is read back for a number written as a result. *)
Definition revive (n : number) : Result :=
  match json_of_number n with
  | JNum m => RNum m
  | _ => RNull
  end.

Definition validDate (d : JsDate) : bool :=
  match d with
  | Some t => (Z.abs t <=? JsDateOps.maxTime)%Z
  | None => false
  end.

Definition storableResult (r : option Result) : bool :=
  match r with
  | None | Some RNull => true
  | Some (RNum n) => plain n
  | Some (RDate _) => false
  end.

(** A row that the stored document can hold at its declared types: its
    numbers are plain, a date is valid and is the value of a row of type
    ['date'], and such a row holds a date. *)
Definition storableRow (row : DataRow) : bool :=
  plain (id row) && storableResult (result row)
  && match value row with
     | VDate d => RowType_eqb (type row) TDate && validDate d
     | VNum n => plain n
     | VStr _ => negb (RowType_eqb (type row) TDate)
     end.

Definition storableTable (table : StateTable) : bool :=
  plain (x (position table)) && plain (y (position table))
  && forallb storableRow (data table).

Definition reviveResult (r : Result) : Result :=
  match r with
  | RNum n => revive n
  | _ => r
  end.

(** The row that is read back from what [JSON.stringify] writes. *)
Definition decodedRow (row : DataRow) : DataRow :=
  withResult row (option_map reviveResult (result row)).

(** A row that can be read back: what [storableRow] asks, but for the
    result, which may be any number, and the date, which has been made a
    string. *)
Definition writableRow (row : DataRow) : bool :=
  plain (id row)
  && match result row with Some (RDate _) => false | _ => true end
  && match value row with
     | VDate _ => false
     | VNum n => plain n
     | VStr _ => true
     end.

Definition entriesOf (tables : list StateTable) : list (jsstring * number) :=
  map entry (flat_map tableData tables).

(** To tell a row that is handed on from a row that is built afresh, and to
    see that nothing is written to the rows that exist, the rows are put in
    a store and an array holds their addresses: [{ ...row, result }] puts a
    new object at the end of the store, [return row] hands the address on. *)
Definition Store := list DataRow.

Definition rowsAt (store : Store) (refs : list nat) : option (list DataRow) :=
  traverse (nth_error store) refs.

(** The context after DELETE_TABLE in [idle]. *)
Definition afterDelete (context : Context) (eventTableId : jsstring) : Context :=
  {| stateTables :=
       filter (fun table => negb (JsString.eqb (tableId table) eventTableId))
         (stateTables context);
     stateTransitions := filter (keepsTransition eventTableId) (stateTransitions context);
     selectedTableId := selectedTableId context;
     isDialogOpen := isDialogOpen context |}.

Section Statements.

Context {host : Host}.

(** The value [calculateFormula] returns. *)
Definition formulaValue (formula : jsstring) (data : list DataRow)
    (tables : option (list StateTable)) : number :=
  match calculateFormula formula data tables with
  | Normal v => v
  | Throw _ => zero
  end.

(** The expression the validation sees. *)
Definition substituted (formula : jsstring) (data : list DataRow)
    (stateTables : option (list StateTable)) : completion jsstring :=
  let expression := trim formula in
  let nameValueMap := buildMap (allRows data stateTables) in
  substituteAll nameValueMap (unresolvedNames nameValueMap expression) expression.

Inductive failure (formula : jsstring) (data : list DataRow)
    (stateTables : option (list StateTable)) : Prop :=
| UnresolvedReference :
    existsb isLetter (trim formula) = true ->
    (forall row, In row (allRows data stateTables) ->
       name row <> [] -> includes (trim formula) (name row) = false) ->
    failure formula data stateTables
| ReplaceThrows e :
    substituted formula data stateTables = Throw e ->
    failure formula data stateTables
| InvalidExpression expression c :
    substituted formula data stateTables = Normal expression ->
    (expression = [] \/ In c expression /\ isExpressionChar c = false) ->
    failure formula data stateTables
| EvaluationThrows expression e :
    substituted formula data stateTables = Normal expression ->
    runFunction expression = Throw e ->
    failure formula data stateTables
| NotANumber expression v :
    substituted formula data stateTables = Normal expression ->
    runFunction expression = Normal v ->
    typeof_number v = false ->
    failure formula data stateTables.

(** The row [recalculateFormulas] puts in the place of [row]. *)
Definition recalculated (data : list DataRow) (stateTables : list StateTable)
    (row : DataRow) : DataRow :=
  if isFormulaRow row then
    withResult row
      (Some (RNum (formulaValue (match formula row with Some f => f | None => [] end)
                     data (Some stateTables))))
  else row.

Fixpoint recalculateRefs (data : list DataRow) (stateTables : list StateTable)
    (store : Store) (refs : list nat) : completion (Store * list nat) :=
  match refs with
  | [] => Normal (store, [])
  | r :: refs' =>
      match nth_error store r with
      | None => Throw TypeError
      | Some row =>
          if isFormulaRow row then
            v <- calculateFormula (match formula row with Some f => f | None => [] end)
                   data (Some stateTables) ;;
            ' (store', out) <- recalculateRefs data stateTables
                                 (store ++ [withResult row (Some (RNum v))]) refs' ;;
            Normal (store', List.length store :: out)
          else
            ' (store', out) <- recalculateRefs data stateTables store refs' ;;
            Normal (store', r :: out)
      end
  end.

(** [recalculateFormulas] on an array of references. *)
Definition recalculateFormulas_store (store : Store) (refs : list nat)
    (stateTables : list StateTable) : completion (Store * list nat) :=
  match rowsAt store refs with
  | Some data => recalculateRefs data stateTables store refs
  | None => Throw TypeError
  end.

(** The configurations the machine reaches from its initial one. *)
Inductive reachable : MachineState -> Context -> World -> Prop :=
| reachable_initial w : reachable idle initialContext w
| reachable_step state context w event state' context' w' :
    reachable state context w ->
    step state context event w = Normal (state', context', w') ->
    reachable state' context' w'.

(** The row that [loadState] returns for a row that [saveState] has
    written: a row of type ['date'] as it was; a row with a formula with
    the value of the formula as its result, [null] if that is not finite and
    the row is not of type ['formula']; any other row with its absent
    [output] and [formula] made empty strings. *)
Definition restoredRow (table : StateTable) (stateTables : list StateTable)
    (row : DataRow) : DataRow :=
  match type row, value row with
  | TDate, VDate _ => row
  | _, _ =>
      if hasFormula row then
        let r := formulaValue (match formula row with Some f => f | None => [] end)
                   (data table) (Some stateTables) in
        withResult row (Some (if isFormulaRow row then RNum r else revive r))
      else
        {| id := id row; name := name row; value := value row;
           type := type row; dateFormat := dateFormat row;
           output := orEmpty (output row); formula := orEmpty (formula row);
           result := result row |}
  end.

Definition restoredTable (stateTables : list StateTable) (table : StateTable)
  : StateTable :=
  withData table (map (restoredRow table stateTables) (data table)).

(** The row [saveState] writes. *)
Definition savedRow (table : StateTable) (stateTables : list StateTable)
    (row : DataRow) : DataRow :=
  match type row, value row with
  | TDate, VDate d =>
      withValue row (VStr (match JsDateOps.toISOString d with
                           | Normal s => s
                           | Throw _ => []
                           end))
  | _, _ =>
      if hasFormula row then
        withResult row
          (Some (RNum (formulaValue (match formula row with Some f => f | None => [] end)
                         (data table) (Some stateTables))))
      else
        {| id := id row; name := name row; value := value row;
           type := type row; dateFormat := dateFormat row;
           output := orEmpty (output row); formula := orEmpty (formula row);
           result := result row |}
  end.

Definition recalculatedTable (all : list StateTable) (table : StateTable) : StateTable :=
  withData table (map (recalculated (data table) all) (data table)).

Definition loadedRow (table : StateTable) (stateTables : list StateTable)
    (row : DataRow) : DataRow :=
  loadRow (decodedRow (savedRow table stateTables row)).

End Statements.

(** *** The grammar of the expressions *)

Module Grammar.

Import JsSyntax.

(** The expressions of the language, by the productions of its grammar:
    [*] and [/] bind tighter than [+] and [-], operators of the same
    precedence associate to the left, a sign binds tightest, and parentheses
    group. *)
Inductive Additive : list token -> expr -> Prop :=
| Additive_one ts e : Multiplicative ts e -> Additive ts e
| Additive_add ts1 a ts2 b :
    Additive ts1 a -> Multiplicative ts2 b ->
    Additive (ts1 ++ TPlus :: ts2) (Add a b)
| Additive_sub ts1 a ts2 b :
    Additive ts1 a -> Multiplicative ts2 b ->
    Additive (ts1 ++ TMinus :: ts2) (Sub a b)
with Multiplicative : list token -> expr -> Prop :=
| Multiplicative_one ts e : Unary ts e -> Multiplicative ts e
| Multiplicative_mul ts1 a ts2 b :
    Multiplicative ts1 a -> Unary ts2 b ->
    Multiplicative (ts1 ++ TStar :: ts2) (Mul a b)
| Multiplicative_div ts1 a ts2 b :
    Multiplicative ts1 a -> Unary ts2 b ->
    Multiplicative (ts1 ++ TSlash :: ts2) (Div a b)
with Unary : list token -> expr -> Prop :=
| Unary_literal n : Unary [TNum n] (Lit n)
| Unary_parenthesized ts e : Additive ts e -> Unary (TLParen :: ts ++ [TRParen]) e
| Unary_plus ts e : Unary ts e -> Unary (TPlus :: ts) (Plus e)
| Unary_minus ts e : Unary ts e -> Unary (TMinus :: ts) (Neg e).

Scheme Additive_mut := Minimality for Additive Sort Prop
  with Multiplicative_mut := Minimality for Multiplicative Sort Prop
  with Unary_mut := Minimality for Unary Sort Prop.
Combined Scheme grammar_ind from Additive_mut, Multiplicative_mut, Unary_mut.

(** The operator on top of the stack binds less tightly than [p]. *)
Definition below (p : nat) (ops : list operator) : Prop :=
  match ops with
  | [] => True
  | o :: _ => (precedence o < p)%nat
  end.

(** What is left to read, from a configuration of the two stacks. *)
Definition continues (ts rest : list token) (ops : list operator)
    (vals : list expr) (e : expr) (p : nat) : Prop :=
  exists ops' vals',
    shunt (ts ++ rest) ops vals true = shunt rest ops' vals' false
    /\ forall q, (q <= p)%nat -> reduce q ops' vals' = reduce q ops (e :: vals).

End Grammar.

(** *** The scenarios of the specification *)

Module Scenario.

(** A row of type ['number']. *)
Definition numberRow (n : jsstring) (v : number) : DataRow :=
  {| id := ofZ 1; name := n; value := VNum v; type := TNumber;
     dateFormat := None; output := None; formula := None; result := None |}.

(** A row of type ['formula']. *)
Definition formulaRow (n f : jsstring) (r : option Result) : DataRow :=
  {| id := ofZ 2; name := n; value := VStr []; type := TFormula;
     dateFormat := None; output := None; formula := Some f; result := r |}.

Definition tableAt (i : jsstring) (px py : Z) (rows : list DataRow) : StateTable :=
  {| tableId := i; position := {| x := ofZ px; y := ofZ py |}; data := rows |}.

Definition rate : DataRow := numberRow (js "rate") (ofZ 5).
Definition tax_rate : DataRow := numberRow (js "tax_rate") (ofZ 10).

Definition A : DataRow := numberRow (js "A") (ofZ 2).
Definition B : DataRow := numberRow (js "B") (ofZ 3).

(** Table A with the row [x], the dialog open on A, and the rows of the
    dialog: [x] and the new row [y] with the formula [x*2]. *)
Definition rowX : DataRow := numberRow (js "x") (ofZ 10).
Definition rowY : DataRow := formulaRow (js "y") (js "x*2") None.
Definition tableA : StateTable := tableAt (js "table-A") 100 100 [rowX].

Definition dialogOnA : Context :=
  {| stateTables := [tableA]; stateTransitions := [];
     selectedTableId := Some (js "table-A"); isDialogOpen := true |}.

(** A clock that is one millisecond further at each of its first readings. *)
Definition ticking : World :=
  {| storage := None;
     now := fun n => nth n [1700000000000; 1700000000001; 1700000000002]%Z
                       1700000000003%Z;
     ticks := 0 |}.

(** A clock that stands still. *)
Definition frozen : World :=
  {| storage := None; now := fun _ => 1700000000000%Z; ticks := 0 |}.

Definition tableB (i : jsstring) : StateTable :=
  {| tableId := i; position := {| x := ofZ 600; y := ofZ 100 |};
     data := [rowX; withResult rowY (Some (RNum (ofZ 20)))] |}.

(** A world with nothing stored. *)
Definition blank : World :=
  {| storage := None; now := fun _ => 1700000000000%Z; ticks := 0 |}.

Definition due : DataRow :=
  {| id := ofZ 3; name := js "due"; value := VDate (Some 1700000000123%Z);
     type := TDate; dateFormat := Some FDate; output := Some (js "soon");
     formula := None; result := None |}.

Definition stale : DataRow := formulaRow (js "y") (js "x*2") (Some (RNum (ofZ 5))).

Definition table1 : StateTable :=
  tableAt (js "table-1") 100 100 [numberRow (js "x") (ofZ 10); stale; due].

Definition arrow : StateTransition :=
  {| transitionId := js "transition-1"; fromId := js "table-1";
     toId := js "table-2"; text := Some (js "next") |}.

End Scenario.
Import Scenario.

(* ================================================================== *)
(** ** What the further statements speak of *)
(* ================================================================== *)

(** A row on which [saveState] does not throw: a row of type ['date'] that
    holds a Date holds a valid one. *)
Definition savableRow (row : DataRow) : bool :=
  match type row, value row with
  | TDate, VDate d => validDate d
  | _, _ => true
  end.

Definition savableTable (table : StateTable) : bool :=
  forallb savableRow (data table).

(** [tables.some(t => t.id === i)]. *)
Definition hasTable (tables : list StateTable) (i : jsstring) : bool :=
  existsb (fun t => JsString.eqb (tableId t) i) tables.

(** Every transition starts and ends at a table of the context. *)
Definition wellReferenced (context : Context) : Prop :=
  forall trans, In trans (stateTransitions context) ->
    hasTable (stateTables context) (fromId trans) = true
    /\ hasTable (stateTables context) (toId trans) = true.

(** The events that call [saveState], by the state that handles them. *)
Definition persists (state : MachineState) (event : Event) : bool :=
  match state, event with
  | idle, MOVE_TABLE _ _ | idle, DELETE_TABLE _ | dialogOpen, SAVE_STATE _ => true
  | _, _ => false
  end.

Definition isSave (event : Event) : bool :=
  match event with SAVE_STATE _ => true | _ => false end.

(** The result of a row of type ['formula'] is the value of its formula,
    read in its table among the tables. *)
Definition consistentRow {host : Host} (table : StateTable)
    (tables : list StateTable) (row : DataRow) : Prop :=
  isFormulaRow row = true ->
  result row
  = Some (RNum (formulaValue (match formula row with Some f => f | None => [] end)
                  (data table) (Some tables))).

Section FurtherStatements.

Context {host : Host}.

(** The table [saveState] writes. *)
Definition savedTable (stateTables : list StateTable) (table : StateTable)
  : StateTable :=
  withData table (map (savedRow table stateTables) (data table)).

End FurtherStatements.

(** The ids are made from readings of the clock: a table's id from one
    reading, a transition's id and the id it ends at from two readings in a
    row. *)
Definition clockMade (w : World) (context : Context) : Prop :=
  (forall table, In table (stateTables context) ->
     exists n, (n < ticks w)%nat
               /\ tableId table = freshId (js "table-") (now w n))
  /\ (forall trans, In trans (stateTransitions context) ->
        exists n, (S n < ticks w)%nat
                  /\ transitionId trans = freshId (js "transition-") (now w n)
                  /\ toId trans = freshId (js "table-") (now w (S n))).

(** MOVE_TABLE on one table. *)
Definition moved (eventTableId : jsstring) (eventPosition : Position)
    (table table' : StateTable) : Prop :=
  tableId table' = tableId table /\ data table' = data table
  /\ position table'
     = if JsString.eqb (tableId table) eventTableId then eventPosition
       else position table.

(** *** Further scenarios *)

Module MoreScenario.

(** The dialog open with no table selected. *)
Definition dialogOnNothing : Context :=
  {| stateTables := [tableA]; stateTransitions := [];
     selectedTableId := None; isDialogOpen := true |}.

(** The dialog open on a table that is not there. *)
Definition dialogOnGone : Context :=
  {| stateTables := [tableA]; stateTransitions := [];
     selectedTableId := Some (js "table-Z"); isDialogOpen := true |}.

(** A transition between two tables that are there. *)
Definition attached : Context :=
  {| stateTables := [tableA; tableB (js "table-B")];
     stateTransitions :=
       [{| transitionId := js "transition-1"; fromId := js "table-A";
           toId := js "table-B"; text := None |}];
     selectedTableId := None; isDialogOpen := false |}.

End MoreScenario.
Import MoreScenario.

(** *** Arrows *)

(** The centre of a table as [calculateArrowPoints] takes it. *)
Definition centre (table : StateTable) : Position :=
  {| x := add (x (position table)) (div (ofZ 700) (ofZ 2));
     y := add (y (position table))
            (div (mul (add (dataLength table) (ofZ 1)) (ofZ 40)) (ofZ 2)) |}.

(** The arrow that runs the other way. *)
Definition backwards (points : list number) : list number :=
  match points with
  | [x1; y1; x2; y2] => [x2; y2; x1; y1]
  | _ => points
  end.

(** *** The dialog *)

(** A row as the dialog makes them: its type is one of ['string'],
    ['number'], ['date'] and ['percentage']; a row of type ['number'] holds
    a number that is not [NaN], one of type ['percentage'] a number, and one
    of type ['string'] a string. *)
Definition dialogRow (row : DataRow) : bool :=
  match type row, value row with
  | TNumber, VNum n => negb (isNaN n)
  | TPercentage, VNum _ => true
  | TString, VStr _ => true
  | TDate, _ => true
  | _, _ => false
  end.

(** All but the result of a row. *)
Definition withoutResult (row : DataRow) : DataRow := withResult row None.

Section DialogStatements.

Context {host : Host} {dateHost : DateHost}.

(** The rows the dialog can hold: none at first, and then what its handlers
    make of the rows it holds. *)
Inductive dialogData : list DataRow -> Prop :=
| dialog_opened : dialogData []
| dialog_parsed inputText rows :
    parsedData inputText = Normal rows -> dialogData rows
| dialog_added data : dialogData data -> dialogData (handleAddRow data)
| dialog_deleted rowId data :
    dialogData data -> dialogData (handleDeleteRow rowId data)
| dialog_changed rowId edit data data' :
    dialogData data -> handleCellChange rowId edit data = Normal data' ->
    dialogData data'
| dialog_saved data rows :
    dialogData data -> handleSave data = Some rows -> dialogData rows.

(** The result of a row with a formula is the value of the formula, read in
    the rows of the dialog. *)
Definition upToDate (data : list DataRow) (row : DataRow) : Prop :=
  result row
  = Some (RNum (formulaValue (match formula row with Some f => f | None => [] end)
                  data None)).

(** What [handleCellChange] makes of a row. *)
Definition changed (rowId : number) (row row' : DataRow) : Prop :=
  id row' = id row /\ type row' = type row
  /\ (strictEquals (id row) rowId = false -> withoutResult row' = withoutResult row).

(** [editRow] and [refreshRow] with the values of the formulas. *)
Definition edited (edit : Edit) (prevData : list DataRow) (row : DataRow) : DataRow :=
  match editRow edit prevData row with
  | Normal row' => row'
  | Throw _ => row
  end.

Definition refreshed (rowId : number) (newData : list DataRow) (row : DataRow)
  : DataRow :=
  if hasFormula row && negb (strictEquals (id row) rowId) then
    withResult row
      (Some (RNum (formulaValue (match formula row with Some f => f | None => [] end)
                     newData None)))
  else row.

End DialogStatements.

(** *** Dates in the dialog *)

(** The text of a date: four digits of the year, two of the month and two
    of the day, with a separator between them. *)
Definition dateText (separator : codeunit) (y mo d : Z) : jsstring :=
  JsDateOps.pad 4 y ++ separator :: JsDateOps.pad 2 mo
  ++ separator :: JsDateOps.pad 2 d.

Arguments dateText separator%_N y%_Z mo%_Z d%_Z.

(** Midnight of a day in universal time. *)
Definition midnight (y mo d : Z) : Z :=
  JsDateOps.MakeDay y (mo - 1) d * JsDateOps.msPerDay.

(** A day of the calendar. *)
Definition calendarDay (y mo d : Z) : bool :=
  JsDateOps.validFields
    {| JsDateOps.year := y; JsDateOps.month := mo; JsDateOps.date := d;
       JsDateOps.hours := 0; JsDateOps.minutes := 0; JsDateOps.seconds := 0;
       JsDateOps.millis := 0 |}.

Module DialogScenario.

(** The row [x] of the dialog and a row [y] with the formula [x*2]. *)
Definition typedX : DataRow :=
  {| id := ofZ 1; name := js "x"; value := VNum (ofZ 10); type := TNumber;
     dateFormat := None; output := Some []; formula := Some []; result := None |}.

Definition typedY : DataRow :=
  {| id := ofZ 2; name := js "y"; value := VStr []; type := TString;
     dateFormat := None; output := Some []; formula := Some (js "x*2");
     result := Some (RNum (ofZ 20)) |}.

(** Two lines of text, the second with a date and a time. *)
Definition twoLines : jsstring :=
  js "rate 5%" ++ [10%N] ++ js "due 2024-01-15 10:00:00".

(** A host five hours behind universal time. *)
Definition behindHost : DateHost :=
  {| host_Date_toString := fun _ => []; LocalTZA := fun _ => (-18000000)%Z |}.

End DialogScenario.
Import DialogScenario.


(* ================================================================== *)
(** * Properties *)
(* ================================================================== *)

Module JsStringFacts.

Import JsString.
Local Open Scope N_scope.

Lemma eqb_eq s t : eqb s t = true <-> s = t.
Proof.
  revert t; induction s as [|a s IH]; intros [|b t]; simpl;
    try (split; congruence).
  rewrite andb_true_iff, N.eqb_eq, IH. split.
  - intros [-> ->]; reflexivity.
  - intros H; inversion H; auto.
Qed.

Lemma eqb_refl s : eqb s s = true.
Proof. now apply eqb_eq. Qed.

Lemma eqb_neq s t : eqb s t = false <-> s <> t.
Proof.
  rewrite <- eqb_eq. destruct (eqb s t); split; congruence.
Qed.

End JsStringFacts.

(** ** The stable sort *)

Section SortFacts.

Variable A : Type.
Variable before : A -> A -> bool.
Hypothesis before_total : forall a b, before a b = false -> before b a = true.
Hypothesis before_trans :
  forall a b c, before a b = true -> before b c = true -> before a c = true.

Let ordered (a b : A) : Prop := before a b = true.

Lemma insert_front a l :
  Forall (ordered a) l -> insert before a l = a :: l.
Proof.
  destruct l as [|b l]; simpl; [reflexivity|].
  intros H. inversion H as [|? ? Hb _]; subst. unfold ordered in Hb.
  now rewrite Hb.
Qed.

Lemma insert_In a b l : In b (insert before a l) <-> b = a \/ In b l.
Proof.
  induction l as [|c l IH]; simpl.
  - intuition congruence.
  - destruct (before a c); simpl; rewrite ?IH; intuition congruence.
Qed.

Lemma insert_sorted a l :
  StronglySorted ordered l -> StronglySorted ordered (insert before a l).
Proof.
  induction 1 as [|b l Hs IH Hb]; simpl.
  - constructor; constructor.
  - destruct (before a b) eqn:E.
    + constructor; [constructor; assumption|].
      constructor; [exact E|].
      rewrite Forall_forall in *. intros c Hc.
      eapply before_trans; [exact E | now apply Hb].
    + constructor; [exact IH|].
      rewrite Forall_forall in *. intros c Hc.
      apply insert_In in Hc. destruct Hc as [->|Hc].
      * now apply before_total.
      * now apply Hb.
Qed.

Lemma sort_sorted l : StronglySorted ordered (sort before l).
Proof.
  induction l; simpl; [constructor | now apply insert_sorted].
Qed.

Lemma sort_In a l : In a (sort before l) <-> In a l.
Proof.
  induction l as [|b l IH]; simpl; [tauto|].
  rewrite insert_In, IH. intuition congruence.
Qed.

Lemma filter_insert (p : A -> bool) a l :
  StronglySorted ordered l ->
  filter p (insert before a l)
  = if p a then insert before a (filter p l) else filter p l.
Proof.
  induction 1 as [|b l Hs IH Hb]; simpl.
  - destruct (p a); reflexivity.
  - destruct (before a b) eqn:E; simpl.
    + destruct (p a) eqn:Ea; [|reflexivity].
      symmetry. apply insert_front.
      assert (Hall : Forall (ordered a) (b :: l)).
      { constructor; [exact E|].
        rewrite Forall_forall in *. intros c Hc.
        eapply before_trans; [exact E | now apply Hb]. }
      rewrite Forall_forall in *. intros c Hc.
      apply Hall. change (In c (filter p (b :: l))) in Hc.
      now apply filter_In in Hc.
    + rewrite IH. destruct (p b), (p a); simpl; rewrite ?E; reflexivity.
Qed.

(** Dropping elements before or after sorting is the same: the sort keeps
    the elements that stay in their order. *)
Lemma filter_sort (p : A -> bool) l :
  filter p (sort before l) = sort before (filter p l).
Proof.
  induction l as [|a l IH]; simpl; [reflexivity|].
  rewrite filter_insert by apply sort_sorted.
  rewrite IH. destruct (p a); reflexivity.
Qed.

End SortFacts.

Lemma map_sort (A B : Type) (f : A -> B) (before : A -> A -> bool)
    (before' : B -> B -> bool) :
  (forall a b, before' (f a) (f b) = before a b) ->
  forall l, map f (sort before l) = sort before' (map f l).
Proof.
  intros Hf. induction l as [|a l IH]; simpl; [reflexivity|].
  rewrite <- IH. generalize (sort before l) as s.
  induction s as [|b s IHs]; simpl; [reflexivity|].
  rewrite Hf. destruct (before a b); simpl; [reflexivity|].
  now rewrite IHs.
Qed.

Lemma byNameLength_total a b : byNameLength a b = false -> byNameLength b a = true.
Proof.
  unfold byNameLength. rewrite Nat.leb_gt, Nat.leb_le. lia.
Qed.

Lemma byNameLength_trans a b c :
  byNameLength a b = true -> byNameLength b c = true -> byNameLength a c = true.
Proof.
  unfold byNameLength. rewrite !Nat.leb_le. lia.
Qed.

(** ** The map of names *)

Lemma addRow_entry m row : addRow m row = addEntry m (entry row).
Proof. reflexivity. Qed.

Lemma fold_addRow_entries l m :
  fold_left addRow l m = fold_left addEntry (map entry l) m.
Proof.
  revert m; induction l as [|r l IH]; intros m; simpl; [reflexivity|].
  now rewrite IH.
Qed.

(** The map is a function of the names and the values of the rows alone. *)
Lemma buildMap_entries allData :
  buildMap allData = fold_left addEntry (sort byKeyLength (map entry allData)) [].
Proof.
  unfold buildMap. rewrite fold_addRow_entries.
  now rewrite (map_sort entry byNameLength byKeyLength).
Qed.

Lemma fold_addRow_named l m :
  fold_left addRow (filter hasName l) m = fold_left addRow l m.
Proof.
  revert m; induction l as [|r l IH]; intros m; simpl; [reflexivity|].
  unfold hasName at 1. destruct (JsString.truthy (name r)) eqn:E; simpl.
  - apply IH.
  - rewrite IH. f_equal. unfold addRow. now rewrite E.
Qed.

(** Rows without a name leave the map as it is. *)
Lemma buildMap_named allData : buildMap (filter hasName allData) = buildMap allData.
Proof.
  unfold buildMap.
  rewrite <- (filter_sort byNameLength byNameLength_total byNameLength_trans hasName).
  apply fold_addRow_named.
Qed.

Lemma mapM_Normal {A B} (f : A -> completion B) (g : A -> B) l :
  (forall a, In a l -> f a = Normal (g a)) -> mapM f l = Normal (map g l).
Proof.
  induction l as [|a l IH]; simpl; intros H; [reflexivity|].
  rewrite (H a) by auto. simpl. rewrite IH by auto. reflexivity.
Qed.

Lemma tryCatch_Normal {A} (body : completion A) (handler : A) :
  exists v, tryCatch body handler = Normal v.
Proof. destruct body; simpl; eauto. Qed.

Lemma isLetter_not_expression c : isLetter c = true -> isExpressionChar c = false.
Proof.
  unfold isLetter, isExpressionChar, isDigit, isSpace, isWhiteSpace,
    isLineTerminator, isHan, between.
  rewrite !orb_true_iff, !andb_true_iff, !N.leb_le. intros H.
  repeat (apply orb_false_iff; split);
    rewrite ?andb_false_iff, ?N.leb_gt, ?N.eqb_neq; lia.
Qed.

Section Evaluator.

Context {host : Host}.

Lemma allRows_named data stateTables :
  allRows (filter hasName data)
    (option_map (map (fun t => withData t (filter hasName (tableData t)))) stateTables)
  = filter hasName (allRows data stateTables).
Proof.
  destruct stateTables as [tables|]; simpl; [|reflexivity].
  rewrite filter_app. f_equal.
  induction tables as [|t tables IH]; simpl; [reflexivity|].
  now rewrite filter_app, IH.
Qed.

(** The evaluator reads the rows through their names and values only. *)
Lemma calculateFormula_entries formula data tables data' tables' :
  map entry (allRows data tables) = map entry (allRows data' tables') ->
  calculateFormula formula data tables = calculateFormula formula data' tables'.
Proof.
  intros H. unfold calculateFormula, calculateFormula_body.
  now rewrite !buildMap_entries, H.
Qed.

Lemma calculateFormula_normal formula data tables :
  exists v, calculateFormula formula data tables = Normal v.
Proof. apply tryCatch_Normal. Qed.

Lemma calculateFormula_value formula data tables :
  calculateFormula formula data tables = Normal (formulaValue formula data tables).
Proof.
  unfold formulaValue.
  destruct (calculateFormula_normal formula data tables) as [v ->]. reflexivity.
Qed.

(** *** The failure conditions *)

Lemma Map_has_app m m' k : Map_has (m ++ m') k = Map_has m k || Map_has m' k.
Proof. unfold Map_has. apply existsb_app. Qed.

Lemma Map_set_new m k v : Map_has m k = false -> Map_set m k v = m ++ [(k, v)].
Proof. unfold Map_set. now intros ->. Qed.

Lemma addRow_keys m row k :
  In k (Map_keys (addRow m row)) -> In k (Map_keys m) \/ k = name row /\ name row <> [].
Proof.
  unfold addRow. destruct (name row) as [|c n] eqn:En; simpl; [auto|].
  destruct (Map_has m (c :: n)) eqn:Eh; simpl; [auto|].
  rewrite Map_set_new by exact Eh. unfold Map_keys. rewrite map_app, in_app_iff.
  simpl. intros [H|[H|[]]]; [auto|]. right. split; congruence.
Qed.

Lemma fold_addRow_keys l m k :
  In k (Map_keys (fold_left addRow l m)) ->
  In k (Map_keys m) \/ exists row, In row l /\ name row = k /\ k <> [].
Proof.
  revert m; induction l as [|r l IH]; intros m; simpl; [auto|].
  intros H. apply IH in H. destruct H as [H|[row [Hin Hrow]]].
  - apply addRow_keys in H. destruct H as [H|[-> Hne]]; [auto|].
    right. exists r. auto.
  - right. exists row. auto.
Qed.

(** A name of the map is the name of a row. *)
Lemma buildMap_keys allData k :
  In k (Map_keys (buildMap allData)) ->
  exists row, In row allData /\ name row = k /\ k <> [].
Proof.
  unfold buildMap. intros H. apply fold_addRow_keys in H.
  destruct H as [[]|[row [Hin Hrow]]].
  exists row. split; [|exact Hrow]. now apply sort_In in Hin.
Qed.

Lemma validExpression_false expression c :
  expression = [] \/ In c expression /\ isExpressionChar c = false ->
  validExpression expression = false.
Proof.
  unfold validExpression. intros [->|[Hin Hc]]; [reflexivity|].
  apply andb_false_iff. right.
  destruct (forallb isExpressionChar expression) eqn:E; [|reflexivity].
  rewrite forallb_forall in E. rewrite (E c Hin) in Hc. discriminate.
Qed.

(** C3: [calculateFormula] never throws, and on every failure condition it
    returns 0: a formula with letters in which no name of a known row
    occurs, a [RegExp] or a [replace] that throws, an expression that holds
    a character outside digits, white space, [+ - * / ( )] and the point
    after the substitution (or nothing at all), an evaluation that throws,
    and a value that is no number. *)
Theorem calculateFormula_never_throws_and_fails_to_zero
    formula data stateTables :
  (exists v, calculateFormula formula data stateTables = Normal v)
  /\ (failure formula data stateTables ->
      calculateFormula formula data stateTables = Normal zero).
Proof.
  split; [apply calculateFormula_normal|].
  intros F. unfold calculateFormula, calculateFormula_body.
  fold (substituted formula data stateTables).
  destruct F as [Hl Hn | e He | expression c He Hc | expression e He Hr
                | expression v He Hr Hv].
  - assert (Hu : unresolvedNames (buildMap (allRows data stateTables)) (trim formula) = []).
    { unfold unresolvedNames.
      destruct (filter _ _) as [|k ks] eqn:E; [reflexivity|].
      assert (Hk : In k (k :: ks)) by (left; reflexivity).
      rewrite <- E in Hk. apply filter_In in Hk. destruct Hk as [Hk Hi].
      apply buildMap_keys in Hk. destruct Hk as [row [Hin [Hname Hne]]].
      subst k. rewrite Hn in Hi by assumption. discriminate. }
    rewrite Hu, Hl. reflexivity.
  - rewrite He. destruct (_ && _); reflexivity.
  - rewrite He. destruct (_ && _); [reflexivity|]. simpl.
    now rewrite (validExpression_false c Hc).
  - rewrite He. destruct (_ && _); [reflexivity|]. simpl.
    destruct (validExpression expression); [|reflexivity]. simpl.
    now rewrite Hr.
  - rewrite He. destruct (_ && _); [reflexivity|]. simpl.
    destruct (validExpression expression); [|reflexivity]. simpl.
    rewrite Hr. destruct v; try reflexivity. discriminate.
Qed.

End Evaluator.

Section EvaluatorResults.

Context {host : Host}.

Lemma existsb_letter_invalid expression :
  existsb isLetter expression = true -> validExpression expression = false.
Proof.
  intros H. apply existsb_exists in H. destruct H as [c [Hin Hc]].
  apply (validExpression_false c). right. split; [exact Hin|].
  now apply isLetter_not_expression.
Qed.

(** What is returned once the expression has been evaluated. *)
Lemma calculateFormula_evaluated formula data stateTables expression v :
  substituted formula data stateTables = Normal expression ->
  validExpression expression = true ->
  runFunction expression = Normal v ->
  calculateFormula formula data stateTables
  = Normal (match v with VNumber r => r | _ => zero end).
Proof.
  intros He Hv Hr. unfold calculateFormula, calculateFormula_body.
  fold (substituted formula data stateTables).
  destruct (_ && _) eqn:G.
  - exfalso. apply andb_true_iff in G. destruct G as [G1 G2].
    unfold substituted in He.
    destruct (unresolvedNames _ _) as [|k ks]; [|discriminate].
    unfold substituteAll in He. simpl in He. inversion He; subst expression.
    rewrite (existsb_letter_invalid _ G2) in Hv. discriminate.
  - rewrite He. simpl. rewrite Hv. simpl. rewrite Hr. reflexivity.
Qed.

(** C4, as amended: when the substituted expression validates and
    evaluates, [calculateFormula] returns the evaluated value as it is
    whenever its type is number, [Infinity] and [NaN] included, and 0 only
    when it is not a number. *)
Theorem calculateFormula_returns_numbers_as_they_are
    formula data stateTables expression v :
  substituted formula data stateTables = Normal expression ->
  validExpression expression = true ->
  runFunction expression = Normal v ->
  calculateFormula formula data stateTables
  = Normal (if typeof_number v
            then match v with VNumber r => r | _ => zero end
            else zero).
Proof.
  intros He Hv Hr. rewrite (calculateFormula_evaluated _ _ _ He Hv Hr).
  destruct v; reflexivity.
Qed.

(** C10: rows whose name is the empty string take no part in the
    resolution: [calculateFormula] returns the same with them removed from
    the local rows and from every table. *)
Theorem calculateFormula_ignores_unnamed_rows formula data stateTables :
  calculateFormula formula (filter hasName data)
    (option_map (map (fun t => withData t (filter hasName (tableData t)))) stateTables)
  = calculateFormula formula data stateTables.
Proof.
  unfold calculateFormula, calculateFormula_body.
  now rewrite allRows_named, buildMap_named.
Qed.

End EvaluatorResults.

(** ** Recalculation *)

Section Recalculation.

Context {host : Host}.

Lemma recalculateRow_recalculated data stateTables row :
  recalculateRow data stateTables row = Normal (recalculated data stateTables row).
Proof.
  unfold recalculateRow, recalculated. destruct (isFormulaRow row); [|reflexivity].
  now rewrite calculateFormula_value.
Qed.

Lemma recalculateFormulas_map data stateTables :
  recalculateFormulas data stateTables
  = Normal (map (recalculated data stateTables) data).
Proof.
  apply mapM_Normal. intros. apply recalculateRow_recalculated.
Qed.

Lemma entry_withResult row r : entry (withResult row r) = entry row.
Proof. reflexivity. Qed.

Lemma entry_recalculated data stateTables row :
  entry (recalculated data stateTables row) = entry row.
Proof. unfold recalculated. destruct (isFormulaRow row); reflexivity. Qed.

Lemma map_entry_recalculated data stateTables rows :
  map entry (map (recalculated data stateTables) rows) = map entry rows.
Proof.
  rewrite map_map. apply map_ext. intros. apply entry_recalculated.
Qed.

Lemma recalculated_again data data' stateTables row :
  map entry data' = map entry data ->
  recalculated data' stateTables (recalculated data stateTables row)
  = recalculated data stateTables row.
Proof.
  intros H. unfold recalculated.
  destruct (isFormulaRow row) eqn:E; [|now rewrite E].
  replace (isFormulaRow (withResult row _)) with true by (symmetry; exact E).
  unfold withResult at 1. cbn [formula]. unfold formulaValue.
  rewrite (@calculateFormula_entries host _ data' (Some stateTables) data (Some stateTables)).
  - reflexivity.
  - unfold allRows. now rewrite !map_app, H.
Qed.

(** C8: [recalculateFormulas] is idempotent: applied to its own result, with
    the same tables, it returns that result again, every [result] value
    included; the evaluator reads name, type and value of the rows and never
    a [result]. *)
Theorem recalculateFormulas_idempotent rows tables :
  exists once,
    recalculateFormulas rows tables = Normal once
    /\ recalculateFormulas once tables = Normal once.
Proof.
  exists (map (recalculated rows tables) rows). split.
  - apply recalculateFormulas_map.
  - rewrite recalculateFormulas_map. f_equal.
    rewrite map_map. apply map_ext. intros row.
    apply recalculated_again. apply map_entry_recalculated.
Qed.

End Recalculation.

(** *** Row objects and references *)

Section RecalculationInStore.

Context {host : Host}.

Lemma rowsAt_app store fresh refs rows :
  rowsAt store refs = Some rows -> rowsAt (store ++ fresh) refs = Some rows.
Proof.
  unfold rowsAt. revert rows; induction refs as [|r refs IH]; intros rows; simpl;
    [auto|].
  destruct (nth_error store r) as [row|] eqn:E; [|discriminate].
  destruct (traverse (nth_error store) refs) as [rs|] eqn:Ers; [|discriminate].
  intros H; inversion H; subst.
  rewrite nth_error_app1 by (apply nth_error_Some; congruence).
  rewrite E. now rewrite (IH rs).
Qed.

Lemma recalculateRefs_spec data stateTables base refs :
  forall extra rows,
    rowsAt base refs = Some rows ->
    exists fresh out,
      recalculateRefs data stateTables (base ++ extra) refs
      = Normal (base ++ extra ++ fresh, out)
      /\ rowsAt (base ++ extra ++ fresh) out
         = Some (map (recalculated data stateTables) rows)
      /\ Forall2 (fun r r' =>
                    exists row, nth_error base r = Some row
                                /\ if isFormulaRow row
                                   then (List.length base <= r')%nat else r' = r)
           refs out.
Proof.
  induction refs as [|r refs IH]; intros extra rows; unfold rowsAt;
    cbn [traverse recalculateRefs].
  - intros H; inversion H; subst. exists [], []. rewrite app_nil_r.
    repeat split; constructor.
  - destruct (nth_error base r) as [row|] eqn:E; [|discriminate].
    destruct (traverse (nth_error base) refs) as [rs|] eqn:Ers; [|discriminate].
    intros H; inversion H; subst; clear H.
    assert (Er : nth_error (base ++ extra) r = Some row).
    { rewrite nth_error_app1 by (apply nth_error_Some; congruence). exact E. }
    rewrite Er. cbn [map].
    assert (Hrow : recalculated data stateTables row
                   = if isFormulaRow row
                     then withResult row
                            (Some (RNum (formulaValue
                                           match formula row with
                                           | Some f => f
                                           | None => []
                                           end data (Some stateTables))))
                     else row) by reflexivity.
    destruct (isFormulaRow row) eqn:Ef.
    + rewrite calculateFormula_value. cbn [bind].
      set (row' := withResult row _) in *.
      destruct (IH (extra ++ [row']) rs Ers) as [fresh [out [H1 [H2 H3]]]].
      rewrite <- (app_assoc base extra [row']). rewrite H1. cbn [bind].
      assert (Hs : base ++ (extra ++ [row']) ++ fresh = base ++ extra ++ row' :: fresh).
      { now rewrite <- app_assoc. }
      rewrite Hs in *.
      exists (row' :: fresh), (List.length (base ++ extra) :: out).
      split; [reflexivity|]. split.
      * unfold rowsAt in *. cbn [traverse]. rewrite H2.
        rewrite (app_assoc base extra (row' :: fresh)).
        rewrite nth_error_app2 by lia. rewrite Nat.sub_diag. cbn [nth_error].
        now rewrite Hrow.
      * constructor; [|exact H3].
        exists row. rewrite Ef. split; [exact E|]. rewrite length_app. lia.
    + destruct (IH extra rs Ers) as [fresh [out [H1 [H2 H3]]]].
      rewrite H1. cbn [bind]. exists fresh, (r :: out).
      split; [reflexivity|]. split.
      * unfold rowsAt in *. cbn [traverse]. rewrite H2.
        rewrite nth_error_app1 by (apply nth_error_Some; congruence).
        now rewrite E, Hrow.
      * constructor; [|exact H3]. exists row. rewrite Ef. auto.
Qed.

(** C7: [recalculateFormulas] returns a sequence of the same length and
    order; exactly the rows of type ['formula'] with a formula that is not
    empty are new objects that differ from the old ones in [result] only,
    which is what the evaluator returns; every other row is handed on as it
    is; and the store is only extended, so that the input still reads as
    before. *)
Theorem recalculateFormulas_recomputes_formula_rows_only
    store refs stateTables data :
  rowsAt store refs = Some data ->
  exists fresh out data',
    recalculateFormulas_store store refs stateTables = Normal (store ++ fresh, out)
    /\ rowsAt (store ++ fresh) refs = Some data
    /\ rowsAt (store ++ fresh) out = Some data'
    /\ recalculateFormulas data stateTables = Normal data'
    /\ Forall2 (fun r r' =>
                  exists row, nth_error store r = Some row
                              /\ if isFormulaRow row
                                 then (List.length store <= r')%nat else r' = r)
         refs out
    /\ Forall2 (fun row row' =>
                  id row' = id row /\ name row' = name row
                  /\ value row' = value row /\ type row' = type row
                  /\ dateFormat row' = dateFormat row /\ output row' = output row
                  /\ formula row' = formula row
                  /\ if isFormulaRow row
                     then exists f v,
                         formula row = Some f
                         /\ calculateFormula f data (Some stateTables) = Normal v
                         /\ result row' = Some (RNum v)
                     else row' = row)
         data data'.
Proof.
  intros Hd. unfold recalculateFormulas_store. rewrite Hd.
  destruct (recalculateRefs_spec data stateTables store refs [] Hd)
    as [fresh [out [H1 [H2 H3]]]].
  rewrite app_nil_r in H1. simpl in H1, H2.
  exists fresh, out, (map (recalculated data stateTables) data).
  repeat split; try assumption.
  - now apply rowsAt_app.
  - apply recalculateFormulas_map.
  - clear. generalize data at 1 3 as pool. intros pool.
    induction data as [|row rows IH]; simpl; constructor; [|exact IH].
    unfold recalculated. destruct (isFormulaRow row) eqn:E.
    + repeat split. unfold isFormulaRow, hasFormula in E.
      destruct (formula row) as [f|] eqn:Ef;
        [|now rewrite andb_false_r in E].
      exists f, (formulaValue f pool (Some stateTables)).
      repeat split. apply calculateFormula_value.
    + repeat split.
Qed.

End RecalculationInStore.

(** ** The machine *)

Section MachineFacts.

Context {host : Host}.

Lemma step_delete_table context eventTableId w :
  step idle context (DELETE_TABLE eventTableId) w
  = Normal (idle, afterDelete context eventTableId,
            saveState (stateTables (afterDelete context eventTableId))
              (stateTransitions (afterDelete context eventTableId)) w).
Proof. reflexivity. Qed.

Lemma afterDelete_tables context eventTableId table :
  In table (stateTables (afterDelete context eventTableId)) ->
  tableId table <> eventTableId.
Proof.
  cbn [afterDelete stateTables]. intros H. apply filter_In in H.
  destruct H as [_ H]. apply negb_true_iff in H. now apply JsStringFacts.eqb_neq in H.
Qed.

Lemma afterDelete_transitions context eventTableId trans :
  In trans (stateTransitions (afterDelete context eventTableId)) ->
  fromId trans <> eventTableId /\ toId trans <> eventTableId.
Proof.
  cbn [afterDelete stateTransitions]. intros H. apply filter_In in H.
  destruct H as [_ H]. unfold keepsTransition in H.
  apply andb_true_iff in H. destruct H as [H1 H2].
  apply negb_true_iff in H1, H2. split; now apply JsStringFacts.eqb_neq.
Qed.

(** In [dialogOpen] the machine has no handler for DELETE_TABLE. *)
Lemma delete_table_not_handled_in_dialog context eventTableId w :
  step dialogOpen context (DELETE_TABLE eventTableId) w
  = Normal (dialogOpen, context, w).
Proof. reflexivity. Qed.

(** C6, as amended: for every context and every table id, after
    DELETE_TABLE in [idle], the one state that handles the event, the
    context holds no table with that id and no transition that starts or
    ends at it, and the machine stays in [idle]; in [dialogOpen] the event
    is dropped, and the context, its tables and transitions with that id
    among them, and the world are as they were. *)
Theorem delete_table_removes_in_idle_and_is_dropped_in_dialog
    context eventTableId w :
  (exists context' w',
     step idle context (DELETE_TABLE eventTableId) w = Normal (idle, context', w')
     /\ (forall table, In table (stateTables context') ->
           tableId table <> eventTableId)
     /\ (forall trans, In trans (stateTransitions context') ->
           fromId trans <> eventTableId /\ toId trans <> eventTableId))
  /\ step dialogOpen context (DELETE_TABLE eventTableId) w
     = Normal (dialogOpen, context, w).
Proof.
  split; [|apply delete_table_not_handled_in_dialog].
  eexists. eexists. split; [apply step_delete_table|]. split.
  - apply afterDelete_tables.
  - apply afterDelete_transitions.
Qed.

(** Along every run, a DELETE_TABLE taken in [idle] leaves no reference to
    the table. *)
Corollary delete_table_invariant state context w eventTableId state' context' w' :
  reachable state context w ->
  state = idle ->
  step state context (DELETE_TABLE eventTableId) w = Normal (state', context', w') ->
  reachable state' context' w'
  /\ Forall (fun table => tableId table <> eventTableId) (stateTables context')
  /\ Forall (fun trans => fromId trans <> eventTableId /\ toId trans <> eventTableId)
       (stateTransitions context').
Proof.
  intros Hr -> Hs. split; [eapply reachable_step; eassumption|].
  rewrite step_delete_table in Hs. inversion Hs; subst.
  split; apply Forall_forall; intros a Ha.
  - now apply afterDelete_tables in Ha.
  - now apply afterDelete_transitions in Ha.
Qed.

End MachineFacts.

(** *** A table that is deleted while the dialog is open *)

Module DeleteScenario.

(** C6: a counterexample.  The machine opens the dialog, saves the row [x]
    as a table, and opens the dialog on that table; it is in [dialogOpen]
    when DELETE_TABLE comes for the table, and the table is there after the
    event as it was before. *)
Lemma delete_table_dropped_while_the_dialog_is_open :
  exists context w,
    @reachable strictHost dialogOpen context w
    /\ map tableId (stateTables context) = [js "table-1700000000000"]
    /\ @step strictHost dialogOpen context
         (DELETE_TABLE (js "table-1700000000000")) w
       = Normal (dialogOpen, context, w)
    /\ ~ (forall table, In table (stateTables context) ->
           tableId table <> js "table-1700000000000").
Proof.
  eexists. eexists. split; [|split; [|split]].
  - eapply (@reachable_step strictHost idle _ _
              (OPEN_DIALOG (Some (js "table-1700000000000")))).
    + eapply (@reachable_step strictHost dialogOpen _ _ (SAVE_STATE [rowX])).
      * eapply (@reachable_step strictHost idle initialContext frozen
                  (OPEN_DIALOG None)); [apply reachable_initial | reflexivity].
      * vm_compute. reflexivity.
    + reflexivity.
  - reflexivity.
  - reflexivity.
  - intros H. apply (H _ (or_introl eq_refl)). reflexivity.
Qed.

End DeleteScenario.

(** ** Which rows a formula depends on *)

Lemma relevant_app e m m' : relevant e (m ++ m') = relevant e m ++ relevant e m'.
Proof. apply filter_app. Qed.

Lemma Map_has_relevant e m k :
  includes e k = true -> Map_has (relevant e m) k = Map_has m k.
Proof.
  intros Hk. unfold Map_has, relevant.
  induction m as [|[k' v] m IH]; simpl; [reflexivity|].
  destruct (JsString.eqb k' k) eqn:E; simpl.
  - apply JsStringFacts.eqb_eq in E. subst k'. rewrite Hk. simpl.
    now rewrite JsStringFacts.eqb_refl.
  - destruct (includes e k'); simpl; rewrite ?E; exact IH.
Qed.

Lemma Map_get_relevant e m k :
  includes e k = true -> Map_get (relevant e m) k = Map_get m k.
Proof.
  intros Hk. unfold relevant.
  induction m as [|[k' v] m IH]; simpl; [reflexivity|].
  destruct (JsString.eqb k' k) eqn:E; simpl.
  - apply JsStringFacts.eqb_eq in E. subst k'. rewrite Hk. simpl.
    now rewrite JsStringFacts.eqb_refl.
  - destruct (includes e k'); simpl; rewrite ?E; exact IH.
Qed.

Lemma relevant_addRow e m row :
  relevant e (addRow m row)
  = if occursIn e row then addRow (relevant e m) row else relevant e m.
Proof.
  unfold addRow, occursIn. destruct (JsString.truthy (name row)); simpl.
  - destruct (includes e (name row)) eqn:Ei.
    + rewrite (Map_has_relevant _ m _ Ei).
      destruct (Map_has m (name row)) eqn:Eh; simpl; [reflexivity|].
      rewrite !Map_set_new by (rewrite ?(Map_has_relevant _ m _ Ei); exact Eh).
      rewrite relevant_app. simpl. now rewrite Ei.
    + destruct (Map_has m (name row)) eqn:Eh; simpl; [reflexivity|].
      rewrite Map_set_new by exact Eh. rewrite relevant_app. simpl.
      rewrite Ei. apply app_nil_r.
  - destruct (includes e (name row)); reflexivity.
Qed.

Lemma relevant_fold e l m :
  relevant e (fold_left addRow l m)
  = fold_left addRow (filter (occursIn e) l) (relevant e m).
Proof.
  revert m; induction l as [|r l IH]; intros m; simpl; [reflexivity|].
  rewrite IH, relevant_addRow. destruct (occursIn e r); reflexivity.
Qed.

(** The relevant part of the map is the map of the relevant rows. *)
Lemma relevant_buildMap e allData :
  relevant e (buildMap allData) = buildMap (filter (occursIn e) allData).
Proof.
  unfold buildMap. rewrite relevant_fold. simpl.
  now rewrite (filter_sort byNameLength byNameLength_total byNameLength_trans).
Qed.

Section Relevance.

Context {host : Host}.

Lemma unresolvedNames_relevant m e :
  unresolvedNames m e = Map_keys (relevant e m).
Proof.
  unfold unresolvedNames, Map_keys, relevant.
  induction m as [|[k v] m IH]; simpl; [reflexivity|].
  destruct (includes e k); simpl; now rewrite IH.
Qed.

Lemma substituteAll_ext m m' names e :
  (forall k, In k names -> Map_get m k = Map_get m' k) ->
  substituteAll m names e = substituteAll m' names e.
Proof.
  unfold substituteAll. generalize (Normal e) as acc.
  induction names as [|k names IH]; intros acc H; simpl; [reflexivity|].
  rewrite IH by (intros; apply H; now right).
  f_equal. unfold substitute. rewrite (H k) by now left. reflexivity.
Qed.

(** [calculateFormula] depends on the rows whose names occur in the formula,
    and on no other. *)
Lemma calculateFormula_relevant formula data tables data' tables' :
  relevant (trim formula) (buildMap (allRows data tables))
  = relevant (trim formula) (buildMap (allRows data' tables')) ->
  calculateFormula formula data tables = calculateFormula formula data' tables'.
Proof.
  intros H. unfold calculateFormula, calculateFormula_body.
  rewrite !unresolvedNames_relevant, <- H.
  set (m := buildMap (allRows data tables)) in *.
  set (m' := buildMap (allRows data' tables')) in *.
  set (e := trim formula) in *.
  assert (Hs : substituteAll m (Map_keys (relevant e m)) e
               = substituteAll m' (Map_keys (relevant e m)) e).
  { apply substituteAll_ext. intros k Hk.
    assert (Hi : includes e k = true).
    { unfold Map_keys in Hk. apply in_map_iff in Hk.
      destruct Hk as [[k' v] [<- Hin]]. unfold relevant in Hin.
      apply filter_In in Hin. apply Hin. }
    rewrite <- (Map_get_relevant _ m _ Hi), <- (Map_get_relevant _ m' _ Hi).
    now rewrite H. }
  now rewrite Hs.
Qed.

End Relevance.

(** ** Names of different lengths *)

Lemma fold_addRow_same k l m :
  k <> [] ->
  (forall r, In r l -> name r = k) ->
  fold_left addRow l m
  = if Map_has m k then m
    else match l with
         | [] => m
         | r :: _ => m ++ [(k, rowValue r)]
         end.
Proof.
  intros Hk. revert m; induction l as [|r l IH]; intros m H; simpl.
  - destruct (Map_has m k); reflexivity.
  - assert (Hr : name r = k) by (apply H; now left).
    assert (Ht : JsString.truthy (name r) = true).
    { rewrite Hr. destruct k; [congruence | reflexivity]. }
    rewrite IH by (intros; apply H; now right).
    unfold addRow. rewrite Ht, Hr. simpl.
    destruct (Map_has m k) eqn:Eh; simpl; [now rewrite Eh|].
    rewrite Map_set_new by exact Eh.
    rewrite Map_has_app, Eh. simpl. unfold Map_has. simpl.
    now rewrite JsStringFacts.eqb_refl.
Qed.

(** In the sorted rows the longer of two names comes first. *)
Lemma sorted_two_names (a b : jsstring) l :
  (List.length b < List.length a)%nat ->
  StronglySorted (fun r s => byNameLength r s = true) l ->
  (forall r, In r l -> name r = a \/ name r = b) ->
  exists la lb,
    l = la ++ lb
    /\ (forall r, In r la -> name r = a)
    /\ (forall r, In r lb -> name r = b).
Proof.
  intros Hlen Hs. induction Hs as [|r l Hs IH Hr]; intros H.
  - exists [], []. repeat split; simpl; tauto.
  - destruct (H r (or_introl eq_refl)) as [Ha|Hb].
    + destruct IH as [la [lb [-> [Hla Hlb]]]].
      { intros; apply H; now right. }
      exists (r :: la), lb. repeat split; [|exact Hlb].
      intros s [<-|Hin]; auto.
    + exists [], (r :: l). repeat split; [simpl; tauto|].
      intros s [<-|Hin]; [exact Hb|].
      destruct (H s (or_intror Hin)) as [Hsa|Hsb]; [|exact Hsb].
      rewrite Forall_forall in Hr. specialize (Hr s Hin).
      unfold byNameLength in Hr. apply Nat.leb_le in Hr.
      rewrite Hsa, Hb in Hr. lia.
Qed.

(** ** The longest name first *)

Section LongestName.

Context {host : Host}.

Lemma tax_rate_alone :
  calculateFormula (js "tax_rate + 1") [tax_rate] None = Normal (ofZ 11).
Proof. vm_compute. reflexivity. Qed.

Lemma tax_rate_with_rate v :
  calculateFormula (js "tax_rate + 1") [tax_rate; numberRow (js "rate") v] None
  = Normal (ofZ 11).
Proof. vm_compute. reflexivity. Qed.

(** C1, as amended: for every pool that holds a row named [tax_rate], in
    which every row of that name stands for 10 and no named row other than
    [tax_rate] and [rate] has a name that occurs in the formula,
    [calculateFormula("tax_rate + 1")] returns 11, whatever the rows named
    [rate] hold: the names are sorted by length, the longer name is replaced
    first, and the shorter name matches at a boundary only. *)
Theorem longest_name_is_resolved_first data stateTables :
  (exists row, In row (allRows data stateTables) /\ name row = js "tax_rate") ->
  (forall row, In row (allRows data stateTables) ->
     name row = js "tax_rate" -> rowValue row = ofZ 10) ->
  (forall row, In row (allRows data stateTables) ->
     name row = js "tax_rate" \/ name row = js "rate" \/ name row = []
     \/ includes (js "tax_rate + 1") (name row) = false) ->
  calculateFormula (js "tax_rate + 1") data stateTables = Normal (ofZ 11).
Proof.
  intros [row0 [Hin0 Hname0]] Hten Hnames.
  set (e := js "tax_rate + 1").
  set (pool := allRows data stateTables) in *.
  set (l := filter hasName (filter (occursIn e) pool)).
  assert (Hl : forall r, In r l -> In r pool /\ (name r = js "tax_rate" \/ name r = js "rate")).
  { intros r Hr. unfold l in Hr. apply filter_In in Hr. destruct Hr as [Hr Hn].
    apply filter_In in Hr. destruct Hr as [Hr Ho]. split; [exact Hr|].
    destruct (Hnames r Hr) as [H|[H|[H|H]]]; auto.
    - unfold hasName in Hn. rewrite H in Hn. discriminate.
    - unfold occursIn in Ho. fold e in H. congruence. }
  assert (Hrel : relevant (trim e) (buildMap pool) = buildMap l).
  { change (trim e) with e. rewrite relevant_buildMap. unfold l.
    now rewrite buildMap_named. }
  destruct (@sorted_two_names (js "tax_rate") (js "rate") (sort byNameLength l))
    as [la [lb [Hsplit [Hla Hlb]]]].
  - simpl. lia.
  - apply sort_sorted; [apply byNameLength_total | apply byNameLength_trans].
  - intros r Hr. apply sort_In in Hr. now apply Hl.
  - assert (Hsub : forall r, In r la \/ In r lb -> In r pool).
    { intros r Hr. apply Hl. apply (sort_In byNameLength).
      rewrite Hsplit. apply in_app_iff. exact Hr. }
    assert (Hmap : buildMap l
                   = match lb with
                     | [] => [(js "tax_rate", ofZ 10)]
                     | r :: _ => [(js "tax_rate", ofZ 10); (js "rate", rowValue r)]
                     end).
    { unfold buildMap. rewrite Hsplit, fold_left_app.
      rewrite (@fold_addRow_same (js "tax_rate") la []) by (auto; discriminate).
      destruct la as [|r la].
      - exfalso. simpl in Hsplit.
        assert (Hin : In row0 (sort byNameLength l)).
        { apply sort_In. unfold l. apply filter_In. split.
          - apply filter_In. split; [exact Hin0|].
            unfold occursIn. rewrite Hname0. reflexivity.
          - unfold hasName. rewrite Hname0. reflexivity. }
        rewrite Hsplit in Hin. apply Hlb in Hin. rewrite Hname0 in Hin.
        discriminate.
      - cbn [Map_has existsb app].
        assert (Hr10 : rowValue r = ofZ 10).
        { apply Hten; [apply Hsub | apply Hla]; repeat left; reflexivity. }
        rewrite Hr10.
        rewrite (@fold_addRow_same (js "rate") lb) by (auto; discriminate).
        destruct lb; reflexivity. }
    destruct lb as [|r lb].
    + rewrite <- tax_rate_alone. apply calculateFormula_relevant.
      change (relevant (trim e) (buildMap pool)
              = relevant (trim e) (buildMap [tax_rate])).
      rewrite Hrel, Hmap. reflexivity.
    + rewrite <- (tax_rate_with_rate (rowValue r)).
      apply calculateFormula_relevant.
      change (relevant (trim e) (buildMap pool)
              = relevant (trim e)
                  (buildMap [tax_rate; numberRow (js "rate") (rowValue r)])).
      rewrite Hrel, Hmap. reflexivity.
Qed.

End LongestName.

(** ** Operator precedence *)

Module GrammarFacts.

Import JsSyntax Grammar.

Lemma reduce_below p ops vals : below p ops -> reduce p ops vals = Some (ops, vals).
Proof.
  destruct ops as [|o ops]; simpl; [reflexivity|].
  intros H. apply Nat.leb_gt in H. rewrite H. destruct o; reflexivity.
Qed.

Lemma continues_weaken ts rest ops vals e p q :
  (q <= p)%nat -> continues ts rest ops vals e p -> continues ts rest ops vals e q.
Proof.
  intros Hq [ops' [vals' [H1 H2]]]. exists ops', vals'. split; [exact H1|].
  intros r Hr. apply H2. lia.
Qed.

Lemma below_weaken p q ops : (p <= q)%nat -> below p ops -> below q ops.
Proof. destruct ops; simpl; [auto | lia]. Qed.

(** A binary operator: the left operand is on the stack, the operator is
    pushed, the right operand is read, and then both are reduced. *)
Lemma continues_binary (t : token) (o : operator) (mk : expr -> expr -> expr)
    (p : nat) ts1 a ts2 b rest ops vals :
  (forall rest' ops' vals',
      shunt (t :: rest') ops' vals' false
      = match pushBinary o ops' vals' with
        | Some (ops'', vals'') => shunt rest' ops'' vals'' true
        | None => None
        end) ->
  precedence o = p ->
  (forall vs, applyOp o (b :: a :: vs) = Some (mk a b :: vs)) ->
  o <> OParen ->
  below p ops ->
  continues ts1 (t :: ts2 ++ rest) ops vals a p ->
  continues ts2 rest (o :: ops) (a :: vals) b (S p) ->
  continues (ts1 ++ t :: ts2) rest ops vals (mk a b) p.
Proof.
  intros Ht Hp Happ Hparen Hb [ops1 [vals1 [H1 R1]]] [ops2 [vals2 [H2 R2]]].
  exists ops2, vals2. split.
  - rewrite <- app_assoc. cbn [app]. rewrite H1, Ht. unfold pushBinary.
    rewrite Hp, R1 by lia. rewrite (reduce_below p ops (a :: vals) Hb). exact H2.
  - intros q Hq. rewrite R2 by lia.
    destruct o; try congruence; cbn [reduce precedence];
      cbn [precedence] in Hp; subst p;
      (replace (q <=? _)%nat with true by (symmetry; apply Nat.leb_le; lia));
      now rewrite Happ.
Qed.

Lemma grammar_shunt :
  (forall ts e, Additive ts e ->
     forall rest ops vals, below 1 ops -> continues ts rest ops vals e 1)
  /\ (forall ts e, Multiplicative ts e ->
        forall rest ops vals, below 2 ops -> continues ts rest ops vals e 2)
  /\ (forall ts e, Unary ts e ->
        forall rest ops vals, continues ts rest ops vals e 3).
Proof.
  apply grammar_ind.
  - intros ts e _ IH rest ops vals Hb.
    apply (@continues_weaken ts rest ops vals e 2 1); [lia|].
    apply IH. apply (@below_weaken 1 2 ops); [lia | exact Hb].
  - intros ts1 a ts2 b _ IH1 _ IH2 rest ops vals Hb.
    apply (@continues_binary TPlus OAdd Add 1);
      try reflexivity; try discriminate; auto.
    apply IH2. simpl. lia.
  - intros ts1 a ts2 b _ IH1 _ IH2 rest ops vals Hb.
    apply (@continues_binary TMinus OSub Sub 1);
      try reflexivity; try discriminate; auto.
    apply IH2. simpl. lia.
  - intros ts e _ IH rest ops vals Hb.
    apply (@continues_weaken ts rest ops vals e 3 2); [lia|]. apply IH.
  - intros ts1 a ts2 b _ IH1 _ IH2 rest ops vals Hb.
    apply (@continues_binary TStar OMul Mul 2);
      try reflexivity; try discriminate; auto.
  - intros ts1 a ts2 b _ IH1 _ IH2 rest ops vals Hb.
    apply (@continues_binary TSlash ODiv Div 2);
      try reflexivity; try discriminate; auto.
  - intros n rest ops vals. exists ops, (Lit n :: vals). split; reflexivity.
  - intros ts e _ IH rest ops vals.
    destruct (IH (TRParen :: rest) (OParen :: ops) vals) as [ops1 [vals1 [H1 R1]]].
    { simpl. lia. }
    exists ops, (e :: vals). split; [|reflexivity].
    cbn [app shunt]. rewrite <- app_assoc. cbn [app]. rewrite H1.
    cbn [shunt]. rewrite R1 by lia. reflexivity.
  - intros ts e _ IH rest ops vals.
    destruct (IH rest (OPlus :: ops) vals) as [ops1 [vals1 [H1 R1]]].
    exists ops1, vals1. split; [exact H1|].
    intros q Hq. rewrite R1 by exact Hq. cbn [reduce precedence].
    replace (q <=? 3)%nat with true by (symmetry; apply Nat.leb_le; lia).
    reflexivity.
  - intros ts e _ IH rest ops vals.
    destruct (IH rest (ONeg :: ops) vals) as [ops1 [vals1 [H1 R1]]].
    exists ops1, vals1. split; [exact H1|].
    intros q Hq. rewrite R1 by exact Hq. cbn [reduce precedence].
    replace (q <=? 3)%nat with true by (symmetry; apply Nat.leb_le; lia).
    reflexivity.
Qed.

(** The parser builds the tree the grammar gives to the tokens. *)
Lemma parse_grammar ts e : Additive ts e -> parse ts = Some e.
Proof.
  intros H. destruct grammar_shunt as [HA _].
  destruct (HA ts e H [] [] [] I) as [ops [vals [H1 R1]]].
  unfold parse. rewrite app_nil_r in H1. rewrite H1. cbn [shunt].
  rewrite R1 by lia. reflexivity.
Qed.

Lemma grammar_nonempty :
  (forall ts e, Additive ts e -> ts <> [])
  /\ (forall ts e, Multiplicative ts e -> ts <> [])
  /\ (forall ts e, Unary ts e -> ts <> []).
Proof.
  apply grammar_ind; intros; try assumption; try discriminate;
    destruct ts1; discriminate.
Qed.

Lemma run_grammar body ts e :
  lex LBetween false body = Tokens ts ->
  Additive ts e ->
  run body = Some (Normal (VNumber (eval e))).
Proof.
  intros Hl Hg. unfold run. rewrite Hl.
  destruct ts as [|t ts]; [now apply grammar_nonempty in Hg|].
  now rewrite (parse_grammar Hg).
Qed.

End GrammarFacts.

Section Precedence.

Context {host : Host}.

(** Once the names are replaced: when the text [calculateFormula] has made
    of the formula is valid and its tokens are an expression of the grammar,
    what is returned is the value of that expression under standard
    precedence, every operation computed on IEEE 754 doubles.  How a formula
    becomes that text is another matter: see [Examples]. *)
Lemma calculateFormula_follows_precedence
    formula data stateTables expression ts e :
  substituted formula data stateTables = Normal expression ->
  validExpression expression = true ->
  JsSyntax.lex JsSyntax.LBetween false expression = JsSyntax.Tokens ts ->
  Grammar.Additive ts e ->
  calculateFormula formula data stateTables = Normal (JsSyntax.eval e).
Proof.
  intros Hs Hv Hl Hg.
  apply (calculateFormula_evaluated _ _ _ Hs Hv (v := VNumber (JsSyntax.eval e))).
  unfold validExpression in Hv. apply andb_true_iff in Hv as [_ Hc].
  unfold runFunction. now rewrite Hc, (GrammarFacts.run_grammar _ Hl Hg).
Qed.

End Precedence.

(** ** The evaluator on concrete formulas *)

Module Examples.

Import JsSyntax Grammar.

(** C1: a counterexample.  The local rows hold a second row named
    [tax_rate]; it comes first among the names of its length and its value
    is the one that is substituted. *)
Lemma tax_rate_defined_twice :
  let data := [numberRow (js "tax_rate") (ofZ 99)] in
  let tables := Some [tableAt (js "table-1") 100 100 [rate; tax_rate]] in
  In rate (allRows data tables) /\ In tax_rate (allRows data tables)
  /\ @calculateFormula strictHost (js "tax_rate + 1") data tables = Normal (ofZ 100)
  /\ @calculateFormula strictHost (js "tax_rate + 1") data tables <> Normal (ofZ 11).
Proof.
  cbv zeta. split; [|split; [|split]].
  - right; left; reflexivity.
  - right; right; left; reflexivity.
  - vm_compute. reflexivity.
  - vm_compute. discriminate.
Qed.

(** C1, on the rows of the specification: with one row for each name the
    formula gives 11. *)
Lemma rate_and_tax_rate_give_eleven :
  @calculateFormula strictHost (js "tax_rate + 1") [rate; tax_rate] None
  = Normal (ofZ 11).
Proof.
  apply (@longest_name_is_resolved_first strictHost [rate; tax_rate] None).
  - exists tax_rate. split; [right; left; reflexivity | reflexivity].
  - intros row [<-|[<-|[]]]; [discriminate | reflexivity].
  - intros row [<-|[<-|[]]]; [right; left | left]; reflexivity.
Defined.

(** [A] holds 2^53; the sum of [A] and 1 is not a double and what is
    returned is 2^53 again. *)
Lemma sum_is_rounded :
  let big := numberRow (js "A") (ofZ 9007199254740992) in
  exists r,
    @calculateFormula strictHost (js "A + 1") [big] None = Normal r
    /\ integerValue (Number (value big)) = Some 9007199254740992%Z
    /\ integerValue r = Some 9007199254740992%Z
    /\ (9007199254740992 <> 9007199254740992 + 1)%Z.
Proof.
  cbv zeta. eexists. split; [vm_compute; reflexivity|].
  split; [vm_compute; reflexivity|]. split; [vm_compute; reflexivity|]. lia.
Qed.

(** C2: the rows [A] = 2 and [B] = -3 are known and of type ['number'], and
    the formula [A-B] holds their names and one operator; its value is 5.
    The names are replaced in the text, which becomes [2--3]; the text
    passes the check of its characters, but [--] is the decrement operator,
    the function cannot be built, the [SyntaxError] is caught and
    [calculateFormula] returns 0, on every host.  With spaces around the
    operator the text is [2 - -3] and the result is 5. *)
Theorem difference_with_a_negative_value_is_zero :
  forall host : Host,
  let minusThree := numberRow (js "B") (ofZ (-3)) in
  integerValue (Number (value A)) = Some 2%Z
  /\ integerValue (Number (value minusThree)) = Some (-3)%Z
  /\ @substituted host (js "A-B") [A; minusThree] None = Normal (js "2--3")
  /\ validExpression (js "2--3") = true
  /\ @runFunction host (js "2--3") = Throw SyntaxError
  /\ @calculateFormula host (js "A-B") [A; minusThree] None = Normal zero
  /\ integerValue zero = Some 0%Z
  /\ (0 <> 2 - (-3))%Z
  /\ @calculateFormula host (js "A - B") [A; minusThree] None = Normal (ofZ 5).
Proof.
  intros host. cbv zeta. repeat split; try (vm_compute; reflexivity). lia.
Qed.

(** On the rows of the specification: the product is taken before the
    sum. *)
Lemma two_plus_three_times_two :
  @calculateFormula strictHost (js "A + B * 2") [A; B] None = Normal (ofZ 8).
Proof.
  apply (@calculateFormula_follows_precedence strictHost (js "A + B * 2") [A; B] None
           (js "2 + 3 * 2")
           [TNum (ofZ 2); TPlus; TNum (ofZ 3); TStar; TNum (ofZ 2)]
           (Add (Lit (ofZ 2)) (Mul (Lit (ofZ 3)) (Lit (ofZ 2))))).
  - vm_compute. reflexivity.
  - vm_compute. reflexivity.
  - vm_compute. reflexivity.
  - apply (Additive_add (ts1 := [TNum (ofZ 2)]) (ts2 := [TNum (ofZ 3); TStar; TNum (ofZ 2)])).
    + apply Additive_one, Multiplicative_one, Unary_literal.
    + apply (Multiplicative_mul (ts1 := [TNum (ofZ 3)]) (ts2 := [TNum (ofZ 2)])).
      * apply Multiplicative_one, Unary_literal.
      * apply Unary_literal.
Defined.

(** C3: the three failures the specification names. *)
Lemma failures_return_zero :
  @calculateFormula strictHost (js "unknownVar + 1") [] None = Normal zero
  /\ @calculateFormula strictHost (js "A; B") [A; B] None = Normal zero
  /\ @calculateFormula strictHost (js "(A + B") [A; B] None = Normal zero.
Proof.
  split; [|split].
  - apply (@calculateFormula_never_throws_and_fails_to_zero strictHost).
    apply UnresolvedReference; [reflexivity | intros row []].
  - apply (@calculateFormula_never_throws_and_fails_to_zero strictHost).
    apply (InvalidExpression (js "A; B") [A; B] None (expression := js "2; 3") 59%N).
    + vm_compute. reflexivity.
    + right. split; [vm_compute; tauto | reflexivity].
  - apply (@calculateFormula_never_throws_and_fails_to_zero strictHost).
    apply (EvaluationThrows (js "(A + B") [A; B] None (expression := js "(2 + 3")
             (e := SyntaxError)).
    + vm_compute. reflexivity.
    + vm_compute. reflexivity.
Defined.

(** C4: a counterexample.  The expression validates and evaluates, the
    value is not finite, and it is returned. *)
Lemma division_by_zero_returns_infinity :
  @substituted strictHost (js "1/0") [] None = Normal (js "1/0")
  /\ validExpression (js "1/0") = true
  /\ @runFunction strictHost (js "1/0") = Normal (VNumber Infinity)
  /\ isFinite Infinity = false
  /\ @calculateFormula strictHost (js "1/0") [] None = Normal Infinity
  /\ @calculateFormula strictHost (js "1/0") [] None <> Normal zero.
Proof.
  repeat split; try (vm_compute; reflexivity). vm_compute. discriminate.
Qed.

(** C4, on a division by zero and on a difference of two of them. *)
Lemma infinity_and_nan_are_returned :
  @calculateFormula strictHost (js "1/0") [] None = Normal Infinity
  /\ @calculateFormula strictHost (js "A/B - A/B") [A; numberRow (js "B") zero] None
     = Normal NaN.
Proof.
  split.
  - apply (@calculateFormula_returns_numbers_as_they_are strictHost (js "1/0") [] None
             (js "1/0") (VNumber Infinity)); vm_compute; reflexivity.
  - apply (@calculateFormula_returns_numbers_as_they_are strictHost (js "A/B - A/B")
             [A; numberRow (js "B") zero] None (js "2/0 - 2/0") (VNumber NaN));
      vm_compute; reflexivity.
Defined.

End Examples.

(** ** Saving a table that follows another *)

Module SaveScenario.

(** C5: on SAVE_STATE the new table B stands 500 to the right of A and its
    row [y] has the result 20, and the new transition starts at A; but it
    ends at an id made from a later reading of the clock, which is not the id
    of B once the clock has moved on. *)
Theorem save_state_transition_misses_new_table :
  exists context' w',
    @step strictHost dialogOpen dialogOnA (SAVE_STATE [rowX; rowY]) ticking
    = Normal (idle, context', w')
    /\ stateTables context' = [tableA; tableB (js "table-1700000000000")]
    /\ stateTransitions context'
       = [{| transitionId := js "transition-1700000000001";
             fromId := js "table-A"; toId := js "table-1700000000002";
             text := None |}]
    /\ js "table-1700000000002" <> js "table-1700000000000".
Proof.
  eexists. eexists. split; [vm_compute; reflexivity|].
  split; [reflexivity|]. split; [reflexivity|]. discriminate.
Qed.

(** When the clock does not move during the event, the transition ends at
    the new table. *)
Lemma save_state_within_one_instant :
  exists context' w',
    @step strictHost dialogOpen dialogOnA (SAVE_STATE [rowX; rowY]) frozen
    = Normal (idle, context', w')
    /\ stateTables context' = [tableA; tableB (js "table-1700000000000")]
    /\ stateTransitions context'
       = [{| transitionId := js "transition-1700000000000";
             fromId := js "table-A"; toId := js "table-1700000000000";
             text := None |}].
Proof.
  eexists. eexists. split; [vm_compute; reflexivity|].
  split; reflexivity.
Qed.

(** What is stored after the event is the old tables with the new
    transition: the second [saveState] writes over the first. *)
Lemma save_state_stores_old_tables :
  exists context' w',
    @step strictHost dialogOpen dialogOnA (SAVE_STATE [rowX; rowY]) frozen
    = Normal (idle, context', w')
    /\ option_map fst (@loadState strictHost w')
       = Some [withData tableA
                 [{| id := ofZ 1; name := js "x"; value := VNum (ofZ 10);
                     type := TNumber; dateFormat := None; output := Some [];
                     formula := Some []; result := None |}]].
Proof.
  eexists. eexists. split; [vm_compute; reflexivity|].
  vm_compute. reflexivity.
Qed.

(** C7, on the rows of the scenario: [x] is handed on, [y] is a new
    object. *)
Lemma recalculate_x_and_y :
  exists fresh out data',
    @recalculateFormulas_store strictHost [rowX; rowY] [0; 1]%nat [tableA]
    = Normal ([rowX; rowY] ++ fresh, out)
    /\ rowsAt ([rowX; rowY] ++ fresh) [0; 1]%nat = Some [rowX; rowY]
    /\ rowsAt ([rowX; rowY] ++ fresh) out = Some data'
    /\ @recalculateFormulas strictHost [rowX; rowY] [tableA] = Normal data'.
Proof.
  destruct (@recalculateFormulas_recomputes_formula_rows_only strictHost
              [rowX; rowY] [0; 1]%nat [tableA] [rowX; rowY] eq_refl)
    as [fresh [out [data' [H1 [H2 [H3 [H4 _]]]]]]].
  exists fresh, out, data'. auto.
Defined.

End SaveScenario.

(** ** Dates survive [toISOString] and [Date.parse] *)

Module DateFacts.

Import JsDateOps.
Local Open Scope Z_scope.

Ltac Zify.zify_post_hook ::= Z.to_euclidean_division_equations.

Lemma DayFromYear_succ y : DayFromYear (y + 1) - DayFromYear y = 365 + InLeapYear y.
Proof.
  unfold DayFromYear, InLeapYear.
  destruct (y mod 4 =? 0) eqn:E4; destruct (y mod 100 =? 0) eqn:E100;
    destruct (y mod 400 =? 0) eqn:E400; cbn [andb orb negb];
    rewrite ?Z.eqb_eq, ?Z.eqb_neq in *; lia.
Qed.

Lemma InLeapYear_range y : InLeapYear y = 0 \/ InLeapYear y = 1.
Proof. unfold InLeapYear. destruct (_ && _); auto. Qed.

(** The year of a day is the one whose first day is the last not after it. *)
Lemma YearFromDay_spec day :
  DayFromYear (YearFromDay day) <= day < DayFromYear (YearFromDay day + 1).
Proof.
  unfold YearFromDay.
  destruct (day <? DayFromYear (1970 + day * 400 / 146097)) eqn:E1.
  - apply Z.ltb_lt in E1. unfold DayFromYear in *. lia.
  - apply Z.ltb_ge in E1.
    destruct (DayFromYear (1970 + day * 400 / 146097 + 1) <=? day) eqn:E2.
    + apply Z.leb_le in E2. unfold DayFromYear in *. lia.
    + apply Z.leb_gt in E2. lia.
Qed.

Lemma YearFromDay_range day :
  -100000000 <= day <= 100000000 -> -271821 <= YearFromDay day <= 275760.
Proof.
  intros H. pose proof (YearFromDay_spec day) as Hy.
  unfold DayFromYear in Hy. lia.
Qed.

Lemma MonthFromDay_spec leap d :
  (leap = 0 \/ leap = 1) -> 0 <= d < 365 + leap ->
  let m := MonthFromDay leap d in
  0 <= m <= 11
  /\ DaysBeforeMonth leap m <= d
  /\ d - DaysBeforeMonth leap m + 1
     <= (if m + 1 =? 12 then 31
         else DaysBeforeMonth leap (m + 1) - DaysBeforeMonth leap (m + 1 - 1)).
Proof.
  intros Hl Hd. unfold MonthFromDay.
  destruct Hl as [-> | ->];
    repeat match goal with
           | |- context [if ?a <? ?b then _ else _] =>
               destruct (Z.ltb_spec a b)
           end;
    cbv zeta; simpl in *; lia.
Qed.

(** *** Digits *)

Lemma digits_pad w : forall acc n rest,
  0 <= n ->
  digits w acc (pad w n ++ rest)
  = Some (acc * 10 ^ Z.of_nat w + n mod 10 ^ Z.of_nat w, rest).
Proof.
  induction w as [|w IH]; intros acc n rest Hn.
  - cbn [digits pad app]. f_equal. f_equal.
    change (10 ^ Z.of_nat 0) with 1. rewrite Z.mod_1_r. lia.
  - cbn [digits pad app].
    set (d := n / 10 ^ Z.of_nat w mod 10).
    assert (Hd : 0 <= d < 10) by (apply Z.mod_pos_bound; lia).
    assert (Hc : Z.of_N (Z.to_N (48 + d)) = 48 + d) by (rewrite Z2N.id; lia).
    assert (Hdig : isDigit (Z.to_N (48 + d)) = true).
    { unfold isDigit, between. apply andb_true_iff.
      rewrite !N.leb_le. lia. }
    rewrite Hdig, Hc, IH by exact Hn. f_equal. f_equal.
    rewrite Nat2Z.inj_succ, Z.pow_succ_r by lia.
    rewrite (Z.mul_comm 10), Z.rem_mul_r by lia.
    fold d. ring.
Qed.

Lemma digits_pad_small w acc n rest :
  0 <= n < 10 ^ Z.of_nat w ->
  digits w acc (pad w n ++ rest) = Some (acc * 10 ^ Z.of_nat w + n, rest).
Proof.
  intros H. rewrite digits_pad by lia. now rewrite Z.mod_small.
Qed.

Lemma digits_pad_exact w n rest :
  0 <= n < 10 ^ Z.of_nat w -> digits w 0 (pad w n ++ rest) = Some (n, rest).
Proof.
  intros H. rewrite digits_pad_small by exact H. reflexivity.
Qed.

Lemma parseYear_formatYear y rest :
  -999999 <= y <= 999999 ->
  parseYear (formatYear y ++ rest) = Some (y, rest).
Proof.
  intros Hy. unfold formatYear.
  destruct ((0 <=? y) && (y <=? 9999)) eqn:E.
  - apply andb_true_iff in E. rewrite Z.leb_le, Z.leb_le in E.
    rewrite <- (@digits_pad_exact 4 y rest) by (simpl; lia).
    cbn [pad app parseYear].
    set (d := y / 10 ^ Z.of_nat 3 mod 10).
    assert (Hd : 0 <= d < 10) by (apply Z.mod_pos_bound; lia).
    replace (Z.to_N (48 + d) =? 43)%N with false
      by (symmetry; apply N.eqb_neq; lia).
    replace (Z.to_N (48 + d) =? 45)%N with false
      by (symmetry; apply N.eqb_neq; lia).
    reflexivity.
  - apply andb_false_iff in E. rewrite Z.leb_gt, Z.leb_gt in E.
    destruct (y <? 0) eqn:En.
    + apply Z.ltb_lt in En. cbn [app parseYear N.eqb Pos.eqb].
      rewrite digits_pad_exact by (simpl; lia).
      replace (Z.abs y =? 0) with false by (symmetry; apply Z.eqb_neq; lia).
      f_equal. f_equal. lia.
    + apply Z.ltb_ge in En. cbn [app parseYear N.eqb Pos.eqb].
      rewrite digits_pad_exact by (simpl; lia).
      f_equal. f_equal. lia.
Qed.

(** The fields of an instant are legal and make up the instant. *)
Lemma fieldsOf_spec t :
  Z.abs t <= maxTime ->
  let f := fieldsOf t in
  -271821 <= year f <= 275760
  /\ 1 <= month f <= 12 /\ 1 <= date f <= 31
  /\ 0 <= hours f <= 23 /\ 0 <= minutes f <= 59 /\ 0 <= seconds f <= 59
  /\ 0 <= millis f <= 999
  /\ validFields f = true
  /\ timeOf f = t.
Proof.
  intros Ht. unfold maxTime in Ht. cbv zeta.
  unfold fieldsOf, validFields, timeOf, MakeDay, MakeTime,
    year, month, date, hours, minutes, seconds, millis.
  set (day := t / msPerDay). set (ms := t mod msPerDay).
  set (y := YearFromDay day). set (leap := InLeapYear y).
  set (d := day - DayFromYear y).
  assert (Hday : -100000000 <= day <= 100000000) by (unfold day, msPerDay; lia).
  assert (Hms : 0 <= ms < 86400000) by (unfold ms, msPerDay; lia).
  assert (Hy := @YearFromDay_range day Hday). fold y in Hy.
  assert (Hspec := YearFromDay_spec day). fold y in Hspec.
  assert (Hsucc := DayFromYear_succ y). fold leap in Hsucc.
  assert (Hleap := InLeapYear_range y). fold leap in Hleap.
  assert (Hd : 0 <= d < 365 + leap) by (unfold d; lia).
  destruct (@MonthFromDay_spec leap d Hleap Hd) as [Hm [Hb Hlast]].
  clearbody leap.
  remember (MonthFromDay leap d) as m eqn:Em. clear Em.
  replace (m + 1 - 1) with m in * by lia.
  assert (Hdate : d - DaysBeforeMonth leap m + 1 <= 31).
  { clear - Hlast Hm Hleap.
    destruct (m + 1 =? 12) eqn:E; [exact Hlast|].
    assert (Hc : m = 0 \/ m = 1 \/ m = 2 \/ m = 3 \/ m = 4 \/ m = 5 \/ m = 6
                 \/ m = 7 \/ m = 8 \/ m = 9 \/ m = 10 \/ m = 11) by lia.
    destruct Hleap as [Hl | Hl]; rewrite Hl in *;
      repeat (destruct Hc as [Hc | Hc]; [subst m; simpl in *; lia|]);
      subst m; simpl in *; lia. }
  repeat split; lia.
Qed.

Lemma parseFields_formatFields f :
  -999999 <= year f <= 999999 ->
  0 <= month f <= 99 -> 0 <= date f <= 99 -> 0 <= hours f <= 99 ->
  0 <= minutes f <= 99 -> 0 <= seconds f <= 99 -> 0 <= millis f <= 999 ->
  parseFields (formatFields f) = Some f.
Proof.
  destruct f as [y mo d h mi se ms]. cbn [year month date hours minutes seconds millis].
  intros. unfold parseFields, formatFields.
  cbn [year month date hours minutes seconds millis].
  rewrite parseYear_formatYear by assumption. cbn [bindO expect N.eqb Pos.eqb].
  repeat (rewrite digits_pad_exact by (simpl; lia); cbn [bindO expect N.eqb Pos.eqb app]).
  reflexivity.
Qed.

(** What [toISOString] writes, [Date.parse] reads as the same instant. *)
Lemma parseISO_toISOString t s :
  toISOString (Some t) = Normal s -> parseISO s = Some (Some t).
Proof.
  unfold toISOString. destruct (Z.abs t <=? maxTime) eqn:E; [|discriminate].
  apply Z.leb_le in E. intros H; inversion H; subst s; clear H.
  destruct (@fieldsOf_spec t E) as [Hy [Hmo [Hd [Hh [Hmi [Hse [Hms [Hv Ht]]]]]]]].
  unfold parseISO. rewrite parseFields_formatFields by lia.
  rewrite Hv, Ht. unfold TimeClip.
  now replace (Z.abs t <=? maxTime) with true by (symmetry; apply Z.leb_le; exact E).
Qed.

End DateFacts.

(** ** Saving and loading *)

Section RoundTrip.

Context {host : Host}.

(** *** Writing *)

Lemma toISOString_valid d :
  validDate d = true -> exists s, JsDateOps.toISOString d = Normal s.
Proof.
  destruct d as [t|]; simpl; [|discriminate]. intros ->. eauto.
Qed.

Lemma saveRow_savedRow table stateTables row :
  storableRow row = true ->
  saveRow table stateTables row = Normal (savedRow table stateTables row).
Proof.
  unfold storableRow, saveRow, savedRow. intros H.
  apply andb_true_iff in H. destruct H as [_ H].
  destruct (value row) as [s|n|d] eqn:Ev.
  - destruct (type row); destruct (hasFormula row);
      rewrite ?calculateFormula_value; reflexivity.
  - destruct (type row); destruct (hasFormula row);
      rewrite ?calculateFormula_value; reflexivity.
  - apply andb_true_iff in H. destruct H as [Ht Hd].
    destruct (type row); try discriminate.
    destruct (toISOString_valid d Hd) as [s ->]. reflexivity.
Qed.

Lemma saveState_storable stateTables stateTransitions w :
  forallb storableTable stateTables = true ->
  saveState stateTables stateTransitions w
  = localStorage_setItem
      (json_of_state
         (map (fun table => withData table
                              (map (savedRow table stateTables) (data table)))
            stateTables)
         stateTransitions) w.
Proof.
  intros H. unfold saveState.
  rewrite (@mapM_Normal _ _ _
             (fun table => withData table
                             (map (savedRow table stateTables) (data table)))).
  - reflexivity.
  - intros table Hin. rewrite forallb_forall in H. specialize (H table Hin).
    unfold storableTable in H. apply andb_true_iff in H. destruct H as [_ H].
    rewrite (@mapM_Normal _ _ _ (savedRow table stateTables)); [reflexivity|].
    intros row Hrow. apply saveRow_savedRow.
    rewrite forallb_forall in H. now apply H.
Qed.

(** *** Reading *)

Lemma json_of_number_plain n : plain n = true -> json_of_number n = JNum n.
Proof. destruct n as [[|]| | |]; simpl; intros; try discriminate; reflexivity. Qed.

Lemma typeOfName_typeName t : typeOfName (typeName t) = Some t.
Proof. destruct t; reflexivity. Qed.

Lemma formatOfName_formatName f : formatOfName (formatName f) = Some f.
Proof. destruct f; reflexivity. Qed.

Lemma row_of_json_of_row row :
  writableRow row = true -> row_of_json (json_of_row row) = Some (decodedRow row).
Proof.
  destruct row as [i n v t df o f r]. unfold writableRow, decodedRow, withResult.
  cbn [id name value type dateFormat output formula result].
  intros H. apply andb_true_iff in H. destruct H as [H Hv].
  apply andb_true_iff in H. destruct H as [Hi Hr].
  unfold json_of_row. cbn [id name value type dateFormat output formula result].
  rewrite (json_of_number_plain _ Hi).
  assert (Hval : exists j, json_of_value v = j
                           /\ match j with
                              | JStr s => Some (VStr s)
                              | JNum x => Some (VNum x)
                              | _ => None
                              end = Some v).
  { destruct v as [s|x|d]; [| |discriminate]; simpl.
    - eauto.
    - rewrite (json_of_number_plain _ Hv). eauto. }
  destruct Hval as [j [-> Hj]].
  assert (Hres : match option_map json_of_result r with
                 | None => Some None
                 | Some (JNum x) => Some (Some (RNum x))
                 | Some JNull => Some (Some RNull)
                 | _ => None
                 end = Some (option_map reviveResult r)).
  { destruct r as [[x|d|]|]; try discriminate; try reflexivity.
    simpl. unfold revive. destruct (json_of_number x) eqn:E; try reflexivity;
      destruct x as [[|]| | |]; discriminate. }
  destruct df as [df|], o as [o|], f as [f|];
    destruct (option_map json_of_result r) as [jr|] eqn:Ejr;
    cbn -[typeOfName formatOfName typeName formatName];
    rewrite ?typeOfName_typeName, ?formatOfName_formatName;
    cbn -[typeOfName formatOfName typeName formatName];
    rewrite Hj; cbn [option_map] in Hres;
    first [ rewrite Hres; reflexivity
          | injection Hres as <-; reflexivity ].
Qed.

Lemma traverse_map {A B C} (f : B -> option C) (g : A -> B) (h : A -> C) l :
  (forall a, In a l -> f (g a) = Some (h a)) ->
  traverse f (map g l) = Some (map h l).
Proof.
  induction l as [|a l IH]; intros H; [reflexivity|].
  cbn [map traverse]. rewrite (H a) by now left.
  rewrite IH by (intros; apply H; now right).
  reflexivity.
Qed.

Lemma table_of_json_of_table table :
  plain (x (position table)) = true -> plain (y (position table)) = true ->
  forallb writableRow (data table) = true ->
  table_of_json (json_of_table table)
  = Some (withData table (map decodedRow (data table))).
Proof.
  destruct table as [i [px py] rows]. unfold withData.
  cbn [tableId position data x y]. intros Hx Hy Hrows.
  unfold json_of_table. cbn [tableId position data x y].
  rewrite (json_of_number_plain _ Hx), (json_of_number_plain _ Hy).
  cbn -[row_of_json json_of_row traverse].
  rewrite (traverse_map row_of_json json_of_row decodedRow); [reflexivity|].
  intros row Hin. apply row_of_json_of_row.
  rewrite forallb_forall in Hrows. now apply Hrows.
Qed.

Lemma transition_of_json_of_transition t :
  transition_of_json (json_of_transition t) = Some t.
Proof. destruct t as [i f o [tx|]]; reflexivity. Qed.

Lemma state_of_json_of_state tables transitions :
  (forall table, In table tables ->
     plain (x (position table)) = true /\ plain (y (position table)) = true
     /\ forallb writableRow (data table) = true) ->
  state_of_json (json_of_state tables transitions)
  = Some (map (fun table => withData table (map decodedRow (data table))) tables,
          transitions).
Proof.
  intros H. unfold json_of_state.
  cbn -[table_of_json json_of_table transition_of_json json_of_transition traverse].
  rewrite (traverse_map table_of_json json_of_table
             (fun table => withData table (map decodedRow (data table)))).
  - rewrite (traverse_map transition_of_json json_of_transition (fun t => t)).
    + now rewrite map_id.
    + intros; apply transition_of_json_of_transition.
  - intros table Hin. destruct (H table Hin) as [Hx [Hy Hr]].
    now apply table_of_json_of_table.
Qed.

(** *** Recalculating what was read *)

Lemma entriesOf_app ts ts' : entriesOf (ts ++ ts') = entriesOf ts ++ entriesOf ts'.
Proof. unfold entriesOf. now rewrite flat_map_app, map_app. Qed.

Lemma recalculated_entries data tables data' tables' row :
  map entry data = map entry data' ->
  entriesOf tables = entriesOf tables' ->
  recalculated data tables row = recalculated data' tables' row.
Proof.
  intros Hd Ht. unfold recalculated. destruct (isFormulaRow row); [|reflexivity].
  unfold formulaValue.
  rewrite (@calculateFormula_entries host _ data (Some tables) data' (Some tables')).
  - reflexivity.
  - unfold allRows. rewrite !map_app, Hd. f_equal. exact Ht.
Qed.

Lemma entriesOf_recalculated all tables :
  entriesOf (map (recalculatedTable all) tables) = entriesOf tables.
Proof.
  unfold entriesOf. induction tables as [|t ts IH]; [reflexivity|].
  cbn [map flat_map]. rewrite !map_app, IH. f_equal.
  unfold recalculatedTable, tableData, withData. cbn [data].
  apply map_entry_recalculated.
Qed.

Lemma recalculateTables_spec all todo : forall done,
  entriesOf (done ++ todo) = entriesOf all ->
  recalculateTables done todo
  = Normal (done ++ map (recalculatedTable all) todo).
Proof.
  induction todo as [|t rest IH]; intros done H; cbn [recalculateTables map].
  - now rewrite app_nil_r.
  - rewrite recalculateFormulas_map. cbn [bind].
    rewrite (map_ext _ _ (fun row => @recalculated_entries (data t) (done ++ t :: rest)
                                       (data t) all row eq_refl H)).
    fold (recalculatedTable all t).
    rewrite IH.
    + now rewrite <- app_assoc.
    + rewrite <- H. change (t :: rest) with ([t] ++ rest).
      rewrite !entriesOf_app. rewrite <- app_assoc. f_equal. f_equal.
      apply (entriesOf_recalculated all [t]).
Qed.

(** *** From the row that is saved to the row that is loaded *)

Lemma reviveResult_storable r :
  storableResult r = true -> option_map reviveResult r = r.
Proof.
  destruct r as [[n|d|]|]; simpl; try reflexivity; try discriminate.
  intros H. unfold revive. now rewrite (json_of_number_plain _ H).
Qed.

Lemma savedRow_writable table stateTables row :
  storableRow row = true -> writableRow (savedRow table stateTables row) = true.
Proof.
  unfold storableRow, writableRow, savedRow. intros H.
  apply andb_true_iff in H. destruct H as [H Hv].
  apply andb_true_iff in H. destruct H as [Hi Hr].
  assert (Hr' : match result row with Some (RDate _) => false | _ => true end = true).
  { destruct (result row) as [[| |]|]; try reflexivity. discriminate. }
  destruct (value row) as [s|n|d] eqn:Ev.
  - destruct (type row); destruct (hasFormula row);
      cbn [id result value withResult]; rewrite ?Ev, ?Hi, ?Hr'; reflexivity.
  - destruct (type row); destruct (hasFormula row);
      cbn [id result value withResult]; rewrite ?Ev, ?Hi, ?Hr', ?Hv; reflexivity.
  - apply andb_true_iff in Hv. destruct Hv as [Ht _].
    destruct (type row); try discriminate.
    cbn [id result value withValue]. now rewrite Hi, Hr'.
Qed.

Lemma Date_parse_toISOString d s :
  JsDateOps.toISOString d = Normal s -> Date_parse s = d.
Proof.
  destruct d as [t|]; [|discriminate]. intros H. unfold Date_parse.
  now rewrite (DateFacts.parseISO_toISOString _ H).
Qed.

(** What [loadState] makes of a row before it recalculates. *)
Lemma loadedRow_spec table stateTables row :
  storableRow row = true ->
  loadedRow table stateTables row
  = match type row, value row with
    | TDate, VDate _ => row
    | _, _ =>
        if hasFormula row then
          withResult row
            (Some (revive (formulaValue
                             (match formula row with Some f => f | None => [] end)
                             (data table) (Some stateTables))))
        else
          {| id := id row; name := name row; value := value row;
             type := type row; dateFormat := dateFormat row;
             output := orEmpty (output row); formula := orEmpty (formula row);
             result := result row |}
    end.
Proof.
  unfold storableRow, loadedRow, savedRow. intros H.
  apply andb_true_iff in H. destruct H as [H Hv].
  apply andb_true_iff in H. destruct H as [_ Hr].
  apply reviveResult_storable in Hr.
  destruct row as [i n v t df o f r].
  cbn [id name value type dateFormat output formula result] in *.
  destruct v as [s|x|d].
  - destruct t; try discriminate;
      (destruct (hasFormula _) eqn:Ef;
       unfold decodedRow, loadRow, withResult;
       cbn [id name value type dateFormat output formula result option_map reviveResult];
       rewrite ?Hr; reflexivity).
  - destruct t;
      (destruct (hasFormula _) eqn:Ef;
       unfold decodedRow, loadRow, withResult;
       cbn [id name value type dateFormat output formula result option_map reviveResult];
       rewrite ?Hr; reflexivity).
  - apply andb_true_iff in Hv. destruct Hv as [Ht Hd].
    destruct t; try discriminate.
    destruct (toISOString_valid d Hd) as [s Hs]. rewrite Hs.
    unfold decodedRow, loadRow, withResult, withValue.
    cbn [id name value type dateFormat output formula result].
    now rewrite Hr, (Date_parse_toISOString _ Hs).
Qed.

Lemma entry_loadedRow table stateTables row :
  storableRow row = true -> entry (loadedRow table stateTables row) = entry row.
Proof.
  intros H. rewrite (loadedRow_spec table stateTables row H).
  destruct (type row) eqn:Et, (value row) eqn:Ev, (hasFormula row);
    unfold entry, rowValue; cbn [name type value withResult];
    rewrite ?Et, ?Ev; reflexivity.
Qed.

Lemma recalculated_loadedRow table stateTables row :
  storableRow row = true ->
  recalculated (data table) stateTables (loadedRow table stateTables row)
  = restoredRow table stateTables row.
Proof.
  intros H. rewrite (loadedRow_spec table stateTables row H). clear H.
  unfold restoredRow, recalculated, isFormulaRow, hasFormula, withResult.
  destruct row as [i n v t df o f r].
  cbn [id name value type dateFormat output formula result].
  destruct t, v, f as [[|c fs]|]; reflexivity.
Qed.

(** C9, as amended: when every number of the tables is finite and not
    [-0], every date is valid and is the value of a row of type ['date'],
    every such row holds a date and no result is a date, [loadState] after
    [saveState] returns the transitions as they were and the tables with
    their ids, positions and rows in order, where a row of type ['date'] is
    as it was, with an instant equal to the one that was written as its ISO
    string; a row with a formula has the value of the formula as its result
    and is otherwise as it was; and any other row is as it was but for an
    [output] and a [formula] that were absent, which are empty strings. *)
Theorem load_after_save tables transitions w :
  forallb storableTable tables = true ->
  loadState (saveState tables transitions w)
  = Some (map (restoredTable tables) tables, transitions).
Proof.
  intros H. rewrite (saveState_storable _ _ _ H).
  unfold loadState, localStorage_setItem. cbn [storage].
  rewrite forallb_forall in H.
  rewrite state_of_json_of_state.
  - rewrite !map_map.
    set (processed := map _ tables).
    assert (Hp : processed
                 = map (fun table =>
                          withData table (map (loadedRow table tables) (data table)))
                     tables).
    { unfold processed. apply map_ext. intros table. unfold withData.
      cbn [tableId position data]. now rewrite !map_map. }
    assert (He : entriesOf processed = entriesOf tables).
    { rewrite Hp. unfold entriesOf. clear processed Hp.
      assert (Hall : forall ts, (forall t, In t ts -> storableTable t = true) ->
                map entry (flat_map tableData
                             (map (fun table =>
                                     withData table
                                       (map (loadedRow table tables) (data table))) ts))
                = map entry (flat_map tableData ts)).
      { induction ts as [|t ts IH]; intros Hs; [reflexivity|].
        cbn [map flat_map]. rewrite !map_app, IH by (intros; apply Hs; now right).
        f_equal. unfold tableData, withData. cbn [data].
        rewrite map_map. apply map_ext_in. intros row Hrow.
        apply entry_loadedRow.
        specialize (Hs t (or_introl eq_refl)). unfold storableTable in Hs.
        apply andb_true_iff in Hs. destruct Hs as [_ Hs].
        rewrite forallb_forall in Hs. now apply Hs. }
      now apply Hall. }
    rewrite (recalculateTables_spec processed processed []) by reflexivity.
    cbn [app]. f_equal. f_equal. rewrite Hp at 2. rewrite map_map.
    apply map_ext_in. intros table Hin.
    unfold recalculatedTable, restoredTable, withData. cbn [tableId position data].
    f_equal. rewrite map_map. apply map_ext_in. intros row Hrow.
    assert (Hs : storableRow row = true).
    { specialize (H table Hin). unfold storableTable in H.
      apply andb_true_iff in H. destruct H as [_ H].
      rewrite forallb_forall in H. now apply H. }
    rewrite <- (recalculated_loadedRow table tables row Hs).
    apply recalculated_entries; [|exact He].
    rewrite map_map. apply map_ext_in. intros r Hr.
    apply entry_loadedRow.
    specialize (H table Hin). unfold storableTable in H.
    apply andb_true_iff in H. destruct H as [_ H].
    rewrite forallb_forall in H. now apply H.
  - intros table Hin. apply in_map_iff in Hin. destruct Hin as [t [<- Hin]].
    specialize (H t Hin). unfold storableTable in H.
    apply andb_true_iff in H. destruct H as [H Hrows].
    apply andb_true_iff in H. destruct H as [Hx Hy].
    unfold withData. cbn [position data]. repeat split; try assumption.
    apply forallb_forall. intros row Hrow. apply in_map_iff in Hrow.
    destruct Hrow as [r [<- Hr]]. apply savedRow_writable.
    rewrite forallb_forall in Hrows. now apply Hrows.
Qed.

End RoundTrip.

(** *** A table that is saved and loaded *)

Module PersistenceScenario.

(** C9: a counterexample.  The row [x] had neither [output] nor [formula]
    and has empty ones after the round trip, and the row [y] had the result
    5 and has the value of its formula, 20; the date row is as it was. *)
Lemma round_trip_changes_rows :
  exists loaded,
    @loadState strictHost (@saveState strictHost [table1] [arrow] blank)
    = Some ([loaded], [arrow])
    /\ map output (data table1) = [None; None; Some (js "soon")]
    /\ map output (data loaded) = [Some []; None; Some (js "soon")]
    /\ map result (data table1) = [None; Some (RNum (ofZ 5)); None]
    /\ map result (data loaded) = [None; Some (RNum (ofZ 20)); None]
    /\ map value (data loaded) = map value (data table1)
    /\ loaded <> table1.
Proof.
  eexists. split; [vm_compute; reflexivity|].
  repeat split; try reflexivity. discriminate.
Qed.

(** C9, on a table of three rows: what is loaded is the table restored. *)
Lemma round_trip_of_table1 :
  @loadState strictHost (@saveState strictHost [table1] [arrow] blank)
  = Some (map (@restoredTable strictHost [table1]) [table1], [arrow]).
Proof.
  apply (@load_after_save strictHost [table1] [arrow] blank).
  vm_compute. reflexivity.
Defined.

End PersistenceScenario.

(* ================================================================== *)
(** * Further properties *)
(* ================================================================== *)

(** ** Rows of the same name *)

Lemma insert_split (a : DataRow) s :
  exists s1 s2,
    insert byNameLength a s = s1 ++ a :: s2 /\ s = s1 ++ s2
    /\ (forall x, In x s1 -> byNameLength a x = false).
Proof.
  induction s as [|b s IH]; simpl.
  - exists [], []. repeat split; simpl; tauto.
  - destruct (byNameLength a b) eqn:E.
    + exists [], (b :: s). repeat split; simpl; tauto.
    + destruct IH as [s1 [s2 [H1 [H2 H3]]]].
      exists (b :: s1), s2. simpl. rewrite H1, <- H2. repeat split.
      intros x [<-|Hx]; auto.
Qed.

Lemma insert_app_after (a : DataRow) s1 t :
  (forall x, In x s1 -> byNameLength a x = false) ->
  insert byNameLength a (s1 ++ t) = s1 ++ insert byNameLength a t.
Proof.
  induction s1 as [|b s1 IH]; simpl; intros H; [reflexivity|].
  rewrite (H b) by auto. now rewrite IH by auto.
Qed.

Lemma insert_app_before (a : DataRow) s1 t :
  (exists x, In x s1 /\ byNameLength a x = true) ->
  insert byNameLength a (s1 ++ t) = insert byNameLength a s1 ++ t.
Proof.
  induction s1 as [|b s1 IH]; simpl; intros [x [Hx Hb]]; [destruct Hx|].
  destruct (byNameLength a b) eqn:E; [reflexivity|].
  simpl. rewrite IH; [reflexivity|].
  destruct Hx as [<-|Hx]; [congruence|]. eauto.
Qed.

(** Taking a row out of the rows takes it out of the sorted rows, and the
    rows with a name of its length that stood before it stay before it. *)
Lemma sort_without (r : DataRow) l2 l1 :
  exists s1 s2,
    sort byNameLength (l1 ++ r :: l2) = s1 ++ r :: s2
    /\ sort byNameLength (l1 ++ l2) = s1 ++ s2
    /\ (forall x, In x l1 -> List.length (name x) = List.length (name r) -> In x s1).
Proof.
  induction l1 as [|a l1 IH].
  - simpl. destruct (insert_split r (sort byNameLength l2)) as [s1 [s2 [H1 [H2 _]]]].
    exists s1, s2. repeat split; [exact H1 | exact H2 | intros x []].
  - destruct IH as [s1 [s2 [H1 [H2 H3]]]]. simpl. rewrite H1, H2.
    destruct (existsb (byNameLength a) s1) eqn:Ex.
    + apply existsb_exists in Ex.
      exists (insert byNameLength a s1), s2.
      rewrite !insert_app_before by exact Ex. repeat split.
      intros x [<-|Hx] Hl; apply insert_In; auto.
    + assert (Hs1 : forall x, In x s1 -> byNameLength a x = false).
      { intros x Hx. destruct (byNameLength a x) eqn:E; [|reflexivity].
        assert (existsb (byNameLength a) s1 = true)
          by (apply existsb_exists; eauto). congruence. }
      rewrite !insert_app_after by exact Hs1. simpl.
      destruct (byNameLength a r) eqn:Er.
      * exists (s1 ++ [a]), s2. rewrite <- !app_assoc. simpl. repeat split.
        -- f_equal. apply insert_front.
           assert (Hs : StronglySorted (fun x y => byNameLength x y = true)
                          (s1 ++ r :: s2)).
           { rewrite <- H1. apply sort_sorted;
               [apply byNameLength_total | apply byNameLength_trans]. }
           clear - Hs Er. induction s1 as [|b s1 IH]; simpl in Hs.
           ++ inversion Hs as [|? ? _ Hall]; subst.
              rewrite Forall_forall in *. intros c Hc.
              eapply byNameLength_trans; [exact Er | now apply Hall].
           ++ inversion Hs; subst. auto.
        -- intros x [<-|Hx] Hl; apply in_app_iff; [right; now left | left; auto].
      * exists s1, (insert byNameLength a s2). repeat split.
        intros x [<-|Hx] Hl; [|auto].
        unfold byNameLength in Er. apply Nat.leb_gt in Er. lia.
Qed.

Lemma addRow_known m row :
  Map_has m (name row) = true -> addRow m row = m.
Proof.
  intros H. unfold addRow. rewrite H. destruct (JsString.truthy (name row)); reflexivity.
Qed.

Lemma Map_has_addRow m row k :
  Map_has m k = true -> Map_has (addRow m row) k = true.
Proof.
  intros H. unfold addRow. destruct (negb (JsString.truthy (name row))); [exact H|].
  destruct (negb (Map_has m (name row))) eqn:E; [|exact H].
  apply negb_true_iff in E. rewrite Map_set_new by exact E.
  rewrite Map_has_app, H. reflexivity.
Qed.

Lemma Map_has_fold l : forall m k,
  Map_has m k = true -> Map_has (fold_left addRow l m) k = true.
Proof.
  induction l as [|r l IH]; intros m k H; simpl; [exact H|].
  apply IH. now apply Map_has_addRow.
Qed.

Lemma Map_has_added l : forall m row,
  In row l -> name row <> [] -> Map_has (fold_left addRow l m) (name row) = true.
Proof.
  induction l as [|r l IH]; intros m row Hin Hne; simpl; [destruct Hin|].
  destruct Hin as [<-|Hin].
  - apply Map_has_fold. unfold addRow.
    destruct (name r) as [|c n] eqn:En; [congruence|]. simpl.
    destruct (Map_has m (c :: n)) eqn:Eh; simpl; [exact Eh|].
    rewrite Map_set_new by exact Eh. rewrite Map_has_app, Eh.
    unfold Map_has. cbn [existsb fst orb]. now rewrite JsStringFacts.eqb_refl.
  - now apply IH.
Qed.

(** A row whose name is the name of a row before it adds nothing. *)
Lemma buildMap_without l1 r l2 r' :
  In r' l1 -> name r' = name r -> buildMap (l1 ++ r :: l2) = buildMap (l1 ++ l2).
Proof.
  intros Hin Hname. unfold buildMap.
  destruct (sort_without r l2 l1) as [s1 [s2 [H1 [H2 H3]]]].
  rewrite H1, H2, !fold_left_app. simpl. f_equal.
  destruct (JsString.truthy (name r)) eqn:Et.
  - apply addRow_known. rewrite <- Hname. apply Map_has_added.
    + apply H3; [exact Hin | now rewrite Hname].
    + rewrite Hname. intros E. rewrite E in Et. discriminate.
  - unfold addRow. now rewrite Et.
Qed.

Lemma buildMap_shadowed l l' :
  (forall r, In r l' -> exists r', In r' l /\ name r' = name r) ->
  buildMap (l ++ l') = buildMap l.
Proof.
  induction l' as [|r l' IH]; intros H; [now rewrite app_nil_r|].
  destruct (H r (or_introl eq_refl)) as [r' [Hin Hname]].
  rewrite (buildMap_without l r l' r' Hin Hname).
  apply IH. intros; apply H; now right.
Qed.

Section EvaluatorOnPools.
Context {host : Host}.

Lemma buildMap_same_entries l l' :
  map entry l = map entry l' -> buildMap l = buildMap l'.
Proof. intros H. now rewrite !buildMap_entries, H. Qed.

(** X1: among the rows of one name the first one of the pool, local rows
    before the rows of the tables, is the one that counts: a row whose name
    is the name of a row before it can be taken out of the pool, and
    [calculateFormula] returns the same. *)
Theorem calculateFormula_reads_the_first_row_of_a_name
    formula data tables data' tables' before row after first :
  allRows data tables = before ++ row :: after ->
  allRows data' tables' = before ++ after ->
  In first before -> name first = name row ->
  calculateFormula formula data tables = calculateFormula formula data' tables'.
Proof.
  intros H H' Hin Hname. unfold calculateFormula, calculateFormula_body.
  now rewrite H, H', (buildMap_without before row after first Hin Hname).
Qed.

Lemma trim_blank s : forallb isSpace s = true -> trim s = [].
Proof.
  intros H. unfold trim.
  assert (Hd : dropWhile isSpace s = []).
  { induction s as [|c s IH]; [reflexivity|]. simpl in *.
    apply andb_true_iff in H. destruct H as [-> H]. auto. }
  now rewrite Hd.
Qed.

Lemma includes_nil sub : includes [] sub = true -> sub = [].
Proof. destruct sub; simpl; [reflexivity | discriminate]. Qed.

(** X2: a formula that is empty or made of white space gives 0, whatever
    the rows are. *)
Theorem calculateFormula_of_a_blank_formula formula data tables :
  forallb isSpace formula = true ->
  calculateFormula formula data tables = Normal zero.
Proof.
  intros H. unfold calculateFormula, calculateFormula_body.
  rewrite (trim_blank _ H).
  assert (Hu : unresolvedNames (buildMap (allRows data tables)) [] = []).
  { unfold unresolvedNames.
    destruct (filter _ _) as [|k ks] eqn:E; [reflexivity|].
    assert (Hk : In k (k :: ks)) by (left; reflexivity).
    rewrite <- E in Hk. apply filter_In in Hk. destruct Hk as [Hk Hi].
    apply buildMap_keys in Hk. destruct Hk as [r [_ [_ Hne]]].
    apply includes_nil in Hi. congruence. }
  rewrite Hu. reflexivity.
Qed.

Lemma allRows_filter (keep : DataRow -> bool) data stateTables :
  allRows (filter keep data)
    (option_map (map (fun t => withData t (filter keep (tableData t)))) stateTables)
  = filter keep (allRows data stateTables).
Proof.
  destruct stateTables as [tables|]; simpl; [|reflexivity].
  rewrite filter_app. f_equal.
  induction tables as [|t tables IH]; simpl; [reflexivity|].
  now rewrite filter_app, IH.
Qed.

Lemma filter_twice {A} (keep : A -> bool) l :
  filter keep (filter keep l) = filter keep l.
Proof.
  induction l as [|a l IH]; simpl; [reflexivity|].
  destruct (keep a) eqn:E; simpl; now rewrite ?E, IH.
Qed.

(** X22: [calculateFormula] depends on the rows whose names occur in the
    trimmed formula and on no other: it returns the same with all the other
    rows removed from the local rows and from every table. *)
Theorem calculateFormula_ignores_rows_not_in_the_formula formula data stateTables :
  calculateFormula formula
    (filter (occursIn (trim formula)) data)
    (option_map
       (map (fun t => withData t (filter (occursIn (trim formula)) (tableData t))))
       stateTables)
  = calculateFormula formula data stateTables.
Proof.
  apply calculateFormula_relevant.
  now rewrite !relevant_buildMap, allRows_filter, filter_twice.
Qed.

End EvaluatorOnPools.

(** ** What [saveState] stores *)

Section Storing.

Context {host : Host}.

Lemma saveRow_savable table stateTables row :
  savableRow row = true ->
  saveRow table stateTables row = Normal (savedRow table stateTables row).
Proof.
  unfold savableRow, saveRow, savedRow. intros H.
  destruct (type row), (value row) as [s|n|d];
    try (destruct (hasFormula row); rewrite ?calculateFormula_value; reflexivity).
  destruct d as [t|]; [|discriminate]. simpl in *. now rewrite H.
Qed.

Lemma saveRow_unsavable table stateTables row :
  savableRow row = false -> exists e, saveRow table stateTables row = Throw e.
Proof.
  unfold savableRow, saveRow. intros H.
  destruct (type row), (value row) as [s|n|d]; try discriminate.
  destruct d as [t|]; simpl in *; [rewrite H|]; simpl; eauto.
Qed.

Lemma mapM_Throw {A B} (f : A -> completion B) l a e :
  In a l -> f a = Throw e -> exists e', mapM f l = Throw e'.
Proof.
  induction l as [|b l IH]; intros Hin Ha; [destruct Hin|]. simpl.
  destruct (f b) as [v|e'] eqn:Eb; [|simpl; eauto]. simpl.
  destruct Hin as [->|Hin]; [congruence|].
  destruct (IH Hin Ha) as [e'' ->]. simpl. eauto.
Qed.

Lemma saveState_spec stateTables stateTransitions w :
  saveState stateTables stateTransitions w
  = if forallb savableTable stateTables
    then localStorage_setItem
           (json_of_state (map (savedTable stateTables) stateTables) stateTransitions) w
    else w.
Proof.
  unfold saveState. destruct (forallb savableTable stateTables) eqn:E.
  - rewrite (@mapM_Normal _ _ _ (savedTable stateTables)); [reflexivity|].
    intros table Hin. rewrite forallb_forall in E. specialize (E table Hin).
    unfold savableTable in E. rewrite forallb_forall in E.
    rewrite (@mapM_Normal _ _ _ (savedRow table stateTables)); [reflexivity|].
    intros row Hrow. apply saveRow_savable. now apply E.
  - assert (H : exists table, In table stateTables /\ savableTable table = false).
    { clear - E. induction stateTables as [|t ts IH]; [discriminate|]. simpl in E.
      destruct (savableTable t) eqn:Et; [|exists t; simpl; auto].
      destruct (IH E) as [t' [Hin Ht']]. exists t'. simpl; auto. }
    destruct H as [table [Hin Ht]].
    assert (Hr : exists row, In row (data table) /\ savableRow row = false).
    { unfold savableTable in Ht. clear - Ht.
      induction (data table) as [|r rs IH]; [discriminate|]. simpl in Ht.
      destruct (savableRow r) eqn:Er; [|exists r; simpl; auto].
      destruct (IH Ht) as [r' [Hin Hr']]. exists r'. simpl; auto. }
    destruct Hr as [row [Hrow Hs]].
    destruct (saveRow_unsavable table stateTables row Hs) as [e He].
    destruct (mapM_Throw (saveRow table stateTables) (data table) row Hrow He) as [e' He'].
    destruct (mapM_Throw
                (fun table => rows <- mapM (saveRow table stateTables) (data table) ;;
                              Normal (withData table rows))
                stateTables table (e := e') Hin) as [e'' ->]; [|reflexivity].
    now rewrite He'.
Qed.

(** X3: [saveState] stores the tables it is given, each row as [saveState]
    makes it, with the transitions; when a row of type ['date'] holds an
    invalid Date, [toISOString] throws, the error is caught and what was
    stored before stays. *)
Theorem saveState_stores_unless_a_date_is_invalid stateTables stateTransitions w :
  storage (saveState stateTables stateTransitions w)
  = if forallb savableTable stateTables
    then Some (json_of_state (map (savedTable stateTables) stateTables) stateTransitions)
    else storage w.
Proof.
  rewrite saveState_spec. now destruct (forallb savableTable stateTables).
Qed.

Lemma saveState_clock stateTables stateTransitions w :
  now (saveState stateTables stateTransitions w) = now w
  /\ ticks (saveState stateTables stateTransitions w) = ticks w.
Proof.
  rewrite saveState_spec. destruct (forallb _ _); split; reflexivity.
Qed.

Lemma saveState_now stateTables stateTransitions w :
  now (saveState stateTables stateTransitions w) = now w.
Proof. apply saveState_clock. Qed.

Lemma saveState_ticks stateTables stateTransitions w :
  ticks (saveState stateTables stateTransitions w) = ticks w.
Proof. apply saveState_clock. Qed.

Lemma storage_saveState stateTables stateTransitions w w0 :
  forallb savableTable stateTables = true ->
  storage (saveState stateTables stateTransitions w)
  = storage (saveState stateTables stateTransitions w0).
Proof. intros H. rewrite !saveState_spec, H. reflexivity. Qed.

Lemma savableTable_app ts ts' :
  forallb savableTable (ts ++ ts') = forallb savableTable ts && forallb savableTable ts'.
Proof. apply forallb_app. Qed.

End Storing.

(** ** SAVE_STATE *)

Section SaveState.

Context {host : Host}.

Lemma find_hasTable tables i :
  hasTable tables i = false ->
  find (fun t => JsString.eqb (tableId t) i) tables = None.
Proof.
  unfold hasTable. induction tables as [|t ts IH]; simpl; [reflexivity|].
  destruct (JsString.eqb (tableId t) i); [discriminate|]. exact IH.
Qed.

Lemma step_save_without_selection context rows w :
  selected context = None ->
  let newTable :=
    {| tableId := freshId (js "table-") (now w (ticks w));
       position := {| x := ofZ 100; y := ofZ 100 |};
       data := map (recalculated rows (stateTables context)) rows |} in
  step dialogOpen context (SAVE_STATE rows) w
  = Normal (idle,
            {| stateTables := stateTables context ++ [newTable];
               stateTransitions := stateTransitions context;
               selectedTableId := selectedTableId context;
               isDialogOpen := isDialogOpen context |},
            saveState (stateTables context ++ [newTable]) (stateTransitions context)
              {| storage := storage w; now := now w; ticks := S (ticks w) |}).
Proof.
  intros Hsel newTable.
  unfold step, saveTables, saveTransitions. rewrite Hsel, recalculateFormulas_map.
  cbv beta iota delta [bind Date_now]. reflexivity.
Qed.

(** X4: SAVE_STATE with no table selected never fails: it appends one table
    at (100, 100), whose id is made from one reading of the clock and whose
    rows are the rows of the event recalculated against the tables before
    the event; it adds no transition, and it stores what [saveState] makes
    of the new tables. *)
Theorem save_state_without_selection context rows w :
  selected context = None ->
  exists data' w',
    recalculateFormulas rows (stateTables context) = Normal data'
    /\ step dialogOpen context (SAVE_STATE rows) w
       = Normal (idle,
                 {| stateTables :=
                      stateTables context
                      ++ [{| tableId := freshId (js "table-") (now w (ticks w));
                             position := {| x := ofZ 100; y := ofZ 100 |};
                             data := data' |}];
                    stateTransitions := stateTransitions context;
                    selectedTableId := selectedTableId context;
                    isDialogOpen := isDialogOpen context |}, w')
    /\ storage w'
       = storage (saveState
                    (stateTables context
                     ++ [{| tableId := freshId (js "table-") (now w (ticks w));
                            position := {| x := ofZ 100; y := ofZ 100 |};
                            data := data' |}])
                    (stateTransitions context) w)
    /\ ticks w' = S (ticks w) /\ now w' = now w.
Proof.
  intros Hsel. rewrite (step_save_without_selection context rows w Hsel).
  eexists. eexists. split; [apply recalculateFormulas_map|].
  split; [reflexivity|].
  rewrite saveState_now, saveState_ticks.
  split; [|split; reflexivity].
  rewrite !saveState_spec. destruct (forallb _ _); reflexivity.
Qed.

(** SAVE_STATE with a table selected that is among the tables: the clock is
    read three times, for the id of the table, for the id of the transition
    and for the end of the transition. *)
Lemma step_save_with_source context rows w sel source :
  selected context = Some sel ->
  find (fun t => JsString.eqb (tableId t) sel) (stateTables context) = Some source ->
  let newTable :=
    {| tableId := freshId (js "table-") (now w (ticks w));
       position := {| x := add (x (position source)) (ofZ 500);
                      y := y (position source) |};
       data := map (recalculated rows (stateTables context)) rows |} in
  let newTransition :=
    {| transitionId := freshId (js "transition-") (now w (S (ticks w)));
       fromId := sel;
       toId := freshId (js "table-") (now w (S (S (ticks w))));
       text := None |} in
  let w1 := saveState (stateTables context ++ [newTable]) (stateTransitions context)
              {| storage := storage w; now := now w; ticks := S (ticks w) |} in
  step dialogOpen context (SAVE_STATE rows) w
  = Normal (idle,
            {| stateTables := stateTables context ++ [newTable];
               stateTransitions := stateTransitions context ++ [newTransition];
               selectedTableId := selectedTableId context;
               isDialogOpen := isDialogOpen context |},
            saveState (stateTables context) (stateTransitions context ++ [newTransition])
              {| storage := storage w1; now := now w;
                 ticks := S (S (S (ticks w))) |}).
Proof.
  intros Hsel Hfind newTable newTransition w1.
  unfold step, saveTables, saveTransitions. rewrite Hsel, recalculateFormulas_map.
  cbv beta iota delta [bind]. rewrite Hfind.
  cbv beta iota delta [Date_now bind].
  fold newTable. fold w1.
  assert (Hn : now w1 = now w) by (unfold w1; now rewrite saveState_now).
  assert (Ht : ticks w1 = S (ticks w)) by (unfold w1; now rewrite saveState_ticks).
  cbv beta iota delta [now ticks storage]. fold (now w1) (ticks w1) (storage w1).
  rewrite Hn, Ht. reflexivity.
Qed.

Lemma step_save_with_missing_source context rows w sel :
  selected context = Some sel ->
  hasTable (stateTables context) sel = false ->
  let newTransition :=
    {| transitionId := freshId (js "transition-") (now w (ticks w));
       fromId := sel;
       toId := freshId (js "table-") (now w (S (ticks w)));
       text := None |} in
  step dialogOpen context (SAVE_STATE rows) w
  = Normal (idle,
            {| stateTables := stateTables context;
               stateTransitions := stateTransitions context ++ [newTransition];
               selectedTableId := selectedTableId context;
               isDialogOpen := isDialogOpen context |},
            saveState (stateTables context) (stateTransitions context ++ [newTransition])
              {| storage := storage w; now := now w; ticks := S (S (ticks w)) |}).
Proof.
  intros Hsel Hfind newTransition.
  unfold step, saveTables, saveTransitions. rewrite Hsel, recalculateFormulas_map.
  cbv beta iota delta [bind]. rewrite (find_hasTable _ _ Hfind).
  cbv beta iota delta [Date_now bind now ticks storage]. reflexivity.
Qed.

Lemma hasTable_find tables i :
  find (fun t => JsString.eqb (tableId t) i) tables = None ->
  hasTable tables i = false.
Proof.
  unfold hasTable. induction tables as [|t ts IH]; simpl; [reflexivity|].
  destruct (JsString.eqb (tableId t) i); [discriminate | exact IH].
Qed.

(** What SAVE_STATE makes of the tables, the transitions and the clock. *)
Lemma step_save_state context rows w :
  exists tables' transitions' w',
    step dialogOpen context (SAVE_STATE rows) w
    = Normal (idle,
              {| stateTables := tables'; stateTransitions := transitions';
                 selectedTableId := selectedTableId context;
                 isDialogOpen := isDialogOpen context |}, w')
    /\ now w' = now w /\ (ticks w <= ticks w')%nat
    /\ (tables' = stateTables context
        \/ exists newTable,
             tables' = stateTables context ++ [newTable]
             /\ tableId newTable = freshId (js "table-") (now w (ticks w))
             /\ data newTable = map (recalculated rows (stateTables context)) rows
             /\ (ticks w < ticks w')%nat)
    /\ (transitions' = stateTransitions context
        \/ exists n newTransition,
             transitions' = stateTransitions context ++ [newTransition]
             /\ transitionId newTransition = freshId (js "transition-") (now w n)
             /\ toId newTransition = freshId (js "table-") (now w (S n))
             /\ (S n < ticks w')%nat).
Proof.
  destruct (selected context) as [sel|] eqn:Hsel.
  - destruct (find (fun t => JsString.eqb (tableId t) sel) (stateTables context))
      as [source|] eqn:Hfind.
    + rewrite (step_save_with_source context rows w Hsel Hfind).
      eexists. eexists. eexists. split; [reflexivity|].
      rewrite saveState_now, saveState_ticks. cbn [now ticks].
      split; [reflexivity|]. split; [lia|]. split.
      * right. eexists. split; [reflexivity|]. split; [reflexivity|].
        split; [reflexivity | lia].
      * right. exists (S (ticks w)). eexists. split; [reflexivity|].
        split; [reflexivity|]. split; [reflexivity | lia].
    + rewrite (step_save_with_missing_source context rows w Hsel
                 (hasTable_find _ _ Hfind)).
      eexists. eexists. eexists. split; [reflexivity|].
      rewrite saveState_now, saveState_ticks. cbn [now ticks].
      split; [reflexivity|]. split; [lia|]. split; [now left|].
      right. exists (ticks w). eexists. split; [reflexivity|].
      split; [reflexivity|]. split; [reflexivity | lia].
  - rewrite (step_save_without_selection context rows w Hsel).
    eexists. eexists. eexists. split; [reflexivity|].
    rewrite saveState_now, saveState_ticks. cbn [now ticks].
    split; [reflexivity|]. split; [lia|]. split; [|now left].
    right. eexists. split; [reflexivity|]. split; [reflexivity|].
    split; [reflexivity | lia].
Qed.

(** X5: SAVE_STATE with a table selected that is among the tables appends
    one table, 500 to the right of the first table with the selected id, and
    one transition from the selected id.  The clock is read three times:
    the id of the table is made from the first reading, the id of the
    transition from the second and the end of the transition from the
    third. *)
Theorem save_state_with_source context rows w sel source :
  selected context = Some sel ->
  find (fun t => JsString.eqb (tableId t) sel) (stateTables context) = Some source ->
  exists data' w',
    recalculateFormulas rows (stateTables context) = Normal data'
    /\ step dialogOpen context (SAVE_STATE rows) w
       = Normal (idle,
                 {| stateTables :=
                      stateTables context
                      ++ [{| tableId := freshId (js "table-") (now w (ticks w));
                             position := {| x := add (x (position source)) (ofZ 500);
                                            y := y (position source) |};
                             data := data' |}];
                    stateTransitions :=
                      stateTransitions context
                      ++ [{| transitionId :=
                               freshId (js "transition-") (now w (S (ticks w)));
                             fromId := sel;
                             toId := freshId (js "table-") (now w (S (S (ticks w))));
                             text := None |}];
                    selectedTableId := selectedTableId context;
                    isDialogOpen := isDialogOpen context |}, w')
    /\ ticks w' = S (S (S (ticks w))) /\ now w' = now w.
Proof.
  intros Hsel Hfind. rewrite (step_save_with_source context rows w Hsel Hfind).
  eexists. eexists. split; [apply recalculateFormulas_map|].
  split; [reflexivity|]. now rewrite saveState_now, saveState_ticks.
Qed.

(** X6: SAVE_STATE with a table selected that is not among the tables: the
    rows of the event are dropped and no table is added, and a transition
    from the selected id is added all the same. *)
Theorem save_state_with_missing_source context rows w sel :
  selected context = Some sel ->
  hasTable (stateTables context) sel = false ->
  exists w',
    step dialogOpen context (SAVE_STATE rows) w
    = Normal (idle,
              {| stateTables := stateTables context;
                 stateTransitions :=
                   stateTransitions context
                   ++ [{| transitionId := freshId (js "transition-") (now w (ticks w));
                          fromId := sel;
                          toId := freshId (js "table-") (now w (S (ticks w)));
                          text := None |}];
                 selectedTableId := selectedTableId context;
                 isDialogOpen := isDialogOpen context |}, w')
    /\ ticks w' = S (S (ticks w)) /\ now w' = now w.
Proof.
  intros Hsel Hfind. rewrite (step_save_with_missing_source context rows w Hsel Hfind).
  eexists. split; [reflexivity|]. now rewrite saveState_now, saveState_ticks.
Qed.

(** X7: after SAVE_STATE with a table selected, what is stored is the tables
    as they were before the event, with the transitions after it: the second
    [saveState] of the event writes over the first, so the table the event
    appends is not stored.  When a date of the old tables is invalid nothing
    is stored. *)
Theorem save_state_stores_the_tables_before_the_event
    context rows w sel state' context' w' :
  selected context = Some sel ->
  step dialogOpen context (SAVE_STATE rows) w = Normal (state', context', w') ->
  storage w'
  = if forallb savableTable (stateTables context)
    then Some (json_of_state
                 (map (savedTable (stateTables context)) (stateTables context))
                 (stateTransitions context'))
    else storage w.
Proof.
  intros Hsel.
  destruct (find (fun t => JsString.eqb (tableId t) sel) (stateTables context))
    as [source|] eqn:Hfind.
  - rewrite (step_save_with_source context rows w Hsel Hfind).
    intros H; injection H as <- <- <-. cbv beta iota delta [stateTransitions].
    rewrite !saveState_spec, savableTable_app.
    destruct (forallb savableTable (stateTables context)); reflexivity.
  - rewrite (step_save_with_missing_source context rows w Hsel
               (hasTable_find _ _ Hfind)).
    intros H; injection H as <- <- <-. cbv beta iota delta [stateTransitions].
    rewrite !saveState_spec.
    destruct (forallb savableTable (stateTables context)); reflexivity.
Qed.

Lemma isFormulaRow_recalculated data tables row :
  isFormulaRow (recalculated data tables row) = isFormulaRow row.
Proof. unfold recalculated. destruct (isFormulaRow row) eqn:E; [exact E | exact E]. Qed.

Lemma formula_recalculated data tables row :
  formula (recalculated data tables row) = formula row.
Proof. unfold recalculated. destruct (isFormulaRow row); reflexivity. Qed.

Lemma consistent_appended rows tables i p row :
  In row (map (recalculated rows tables) rows) ->
  consistentRow {| tableId := i; position := p;
                   data := map (recalculated rows tables) rows |}
    (tables ++ [{| tableId := i; position := p;
                   data := map (recalculated rows tables) rows |}]) row.
Proof.
  intros Hin Hf. apply in_map_iff in Hin. destruct Hin as [r [<- Hr]].
  rewrite isFormulaRow_recalculated in Hf. rewrite formula_recalculated.
  unfold recalculated at 1. rewrite Hf. cbn [withResult result data].
  do 2 f_equal. unfold formulaValue, calculateFormula, calculateFormula_body.
  assert (Hm : buildMap (allRows (map (recalculated rows tables) rows)
                           (Some (tables ++ [{| tableId := i; position := p;
                                    data := map (recalculated rows tables) rows |}])))
               = buildMap (allRows rows (Some tables))).
  { unfold allRows. rewrite flat_map_app. cbn [flat_map tableData data].
    rewrite app_nil_r, app_assoc.
    rewrite (buildMap_same_entries
               ((map (recalculated rows tables) rows ++ flat_map tableData tables)
                ++ map (recalculated rows tables) rows)
               ((rows ++ flat_map tableData tables) ++ rows))
      by now rewrite !map_app, !map_entry_recalculated.
    apply buildMap_shadowed. intros x Hx. exists x. split; [|reflexivity].
    apply in_app_iff. now left. }
  now rewrite Hm.
Qed.

(** X8: the table SAVE_STATE appends is consistent with the tables it is
    appended to, itself included: every row of type ['formula'] has the
    value of its formula as its result. *)
Theorem save_state_appends_a_consistent_table
    context rows w state' context' w' new row :
  step dialogOpen context (SAVE_STATE rows) w = Normal (state', context', w') ->
  stateTables context' = stateTables context ++ [new] ->
  In row (data new) ->
  consistentRow new (stateTables context') row.
Proof.
  destruct (step_save_state context rows w)
    as [tables' [transitions' [w0 [-> [_ [_ [Ht _]]]]]]].
  intros H; injection H as <- <- <-. cbv beta iota delta [stateTables].
  intros Hnew. destruct Ht as [->|[newTable [-> [_ [Hd _]]]]].
  - exfalso. rewrite <- (app_nil_r (stateTables context)) in Hnew at 1.
    apply app_inv_head in Hnew. discriminate.
  - apply app_inv_head in Hnew. injection Hnew as <-.
    destruct newTable as [i p d]. cbv beta iota delta [data] in Hd. subst d.
    cbv beta iota delta [data]. apply consistent_appended.
Qed.

End SaveState.

(** ** What [loadState] returns, and what the events keep *)

Section MachineInvariants.

Context {host : Host}.

Lemma consistent_recalculated processed table row :
  In row (data (recalculatedTable processed table)) ->
  consistentRow (recalculatedTable processed table)
    (map (recalculatedTable processed) processed) row.
Proof.
  unfold recalculatedTable at 1, withData. cbn [data].
  intros Hin Hf. apply in_map_iff in Hin. destruct Hin as [r [<- Hr]].
  rewrite isFormulaRow_recalculated in Hf. rewrite formula_recalculated.
  unfold recalculated at 1. rewrite Hf. cbn [withResult result].
  do 2 f_equal. unfold formulaValue.
  rewrite (@calculateFormula_entries host _ (data table) (Some processed)
             (data (recalculatedTable processed table))
             (Some (map (recalculatedTable processed) processed))); [reflexivity|].
  unfold allRows. rewrite !map_app. f_equal.
  - unfold recalculatedTable, withData. cbn [data].
    now rewrite map_entry_recalculated.
  - symmetry. apply (entriesOf_recalculated processed processed).
Qed.

(** The tables read from a document of the declared types. *)
Lemma loadState_consistent w tables transitions table row :
  loadState w = Some (tables, transitions) ->
  In table tables -> In row (data table) ->
  consistentRow table tables row.
Proof.
  unfold loadState. destruct (storage w) as [doc|].
  - destruct (state_of_json doc) as [[ts trs]|]; [|discriminate].
    rewrite (recalculateTables_spec _ _ []) by reflexivity. cbn [app].
    intros H; injection H as <- <-. intros Ht Hr.
    apply in_map_iff in Ht. destruct Ht as [t [<- Ht]].
    now apply consistent_recalculated.
  - intros H; injection H as <- <-. intros [].
Qed.

(** What [saveState] has written of storable tables, [loadState] reads. *)
Lemma loadState_reads_what_is_saved tables transitions w :
  forallb storableTable tables = true ->
  exists tables',
    loadState (saveState tables transitions w) = Some (tables', transitions).
Proof.
  intros H. rewrite (saveState_storable _ _ _ H).
  unfold loadState, localStorage_setItem. cbn [storage].
  rewrite forallb_forall in H.
  rewrite state_of_json_of_state.
  - rewrite (recalculateTables_spec _ _ []) by reflexivity. eauto.
  - intros table Hin. apply in_map_iff in Hin. destruct Hin as [t [<- Hin]].
    specialize (H t Hin). unfold storableTable in H.
    apply andb_true_iff in H. destruct H as [H Hrows].
    apply andb_true_iff in H. destruct H as [Hx Hy].
    unfold withData. cbn [position data]. repeat split; try assumption.
    apply forallb_forall. intros row Hrow. apply in_map_iff in Hrow.
    destruct Hrow as [r [<- Hr]]. apply savedRow_writable.
    rewrite forallb_forall in Hrows. now apply Hrows.
Qed.

(** X9: after [saveState] has stored tables whose numbers are finite and
    not [-0], whose dates are valid and are the values of the rows of type
    ['date'], and whose results are no dates, [loadState] returns tables,
    with the transitions that were stored, in which every row of type
    ['formula'] has the value of its formula, read in its table among the
    tables returned, as its result, whatever result was stored. *)
Theorem loadState_after_saveState_returns_consistent_tables tables transitions w :
  forallb storableTable tables = true ->
  exists tables',
    loadState (saveState tables transitions w) = Some (tables', transitions)
    /\ forall table row, In table tables' -> In row (data table) ->
         consistentRow table tables' row.
Proof.
  intros H. destruct (loadState_reads_what_is_saved tables transitions w H)
    as [tables' E].
  exists tables'. split; [exact E|]. intros table row Ht Hr.
  eapply loadState_consistent; eassumption.
Qed.

Lemma step_outcome state context event w :
  exists context' w',
    step state context event w
    = Normal (match state, event with
              | idle, OPEN_DIALOG _ => dialogOpen
              | _, CLOSE_DIALOG | dialogOpen, SAVE_STATE _ => idle
              | _, _ => state
              end, context', w')
    /\ (isDialogOpen context', selectedTableId context')
       = match state, event with
         | idle, OPEN_DIALOG i => (true, i)
         | _, CLOSE_DIALOG => (false, None)
         | _, _ => (isDialogOpen context, selectedTableId context)
         end
    /\ now w' = now w /\ (ticks w <= ticks w')%nat
    /\ (persists state event = false -> w' = w).
Proof.
  destruct state, event as [i| |rows|i p|i|i l];
    try (eexists; eexists; split; [reflexivity|];
         repeat split; try reflexivity; try discriminate;
         rewrite ?saveState_now, ?saveState_ticks; auto).
  destruct (step_save_state context rows w)
    as [tables' [transitions' [w' [-> [Hn [Ht _]]]]]].
  eexists; eexists; split; [reflexivity|].
  repeat split; try discriminate; auto.
Qed.

(** X10: in every configuration the machine reaches, the dialog flag of the
    context is set while the machine is in [dialogOpen], and a table is
    selected only while the flag is set.  (The flag stays set after
    SAVE_STATE, which leaves [dialogOpen] without touching it.) *)
Theorem reachable_dialog_flags state context w :
  reachable state context w ->
  (state = dialogOpen -> isDialogOpen context = true)
  /\ (isDialogOpen context = false -> selectedTableId context = None).
Proof.
  induction 1 as [w|state context w event state' context' w' Hr [IH1 IH2] Hs].
  - split; [discriminate | reflexivity].
  - destruct (step_outcome state context event w)
      as [c [w0 [Hstep [Hflags _]]]].
    rewrite Hstep in Hs. injection Hs as <- <- <-.
    destruct state, event; injection Hflags as -> ->;
      split; auto; try discriminate.
Qed.

(** X11: an event that does not call [saveState] leaves the world as it is:
    OPEN_DIALOG, CLOSE_DIALOG and UPDATE_TRANSITION store nothing, and an
    event the state does not handle does nothing at all. *)
Theorem only_move_delete_and_save_touch_the_storage
    state context event w state' context' w' :
  persists state event = false ->
  step state context event w = Normal (state', context', w') ->
  w' = w.
Proof.
  intros Hp Hs.
  destruct (step_outcome state context event w) as [c [w0 [Hstep [_ [_ [_ Hw]]]]]].
  rewrite Hstep in Hs. injection Hs as <- <- <-. auto.
Qed.

Lemma hasTable_In tables i :
  hasTable tables i = true <-> exists t, In t tables /\ tableId t = i.
Proof.
  unfold hasTable. rewrite existsb_exists. split; intros [t [Hin H]]; exists t;
    (split; [exact Hin|]); now apply JsStringFacts.eqb_eq.
Qed.

Lemma hasTable_ids tables tables' i :
  map tableId tables' = map tableId tables ->
  hasTable tables' i = hasTable tables i.
Proof.
  unfold hasTable. revert tables'.
  induction tables as [|t ts IH]; intros [|t' ts'] H; try discriminate; [reflexivity|].
  simpl in *. injection H as -> H. now rewrite (IH ts').
Qed.

(** X12: an event other than SAVE_STATE keeps the transitions between tables
    of the context: when every transition starts and ends at a table before
    the event, every transition does after it. *)
Theorem events_but_save_state_keep_transitions_attached
    state context event w state' context' w' :
  wellReferenced context ->
  isSave event = false ->
  step state context event w = Normal (state', context', w') ->
  wellReferenced context'.
Proof.
  intros Hw He Hs.
  destruct state, event as [i| |rows|i p|i|i l]; try discriminate;
    simpl in Hs; injection Hs as <- <- <-; try exact Hw.
  - (* MOVE_TABLE *)
    intros trans Hin. cbn [stateTables stateTransitions] in *.
    assert (Hids : forall j,
              hasTable (map (fun table =>
                               if JsString.eqb (tableId table) i
                               then {| tableId := tableId table; position := p;
                                       data := data table |}
                               else table) (stateTables context)) j
              = hasTable (stateTables context) j).
    { intros j. apply hasTable_ids. rewrite map_map. apply map_ext. intros t.
      now destruct (JsString.eqb (tableId t) i). }
    rewrite !Hids. now apply Hw.
  - (* DELETE_TABLE *)
    intros trans Hin. cbn [stateTables stateTransitions] in *.
    apply filter_In in Hin. destruct Hin as [Hin Hk].
    unfold keepsTransition in Hk. apply andb_true_iff in Hk.
    destruct Hk as [Hf Ht]. apply negb_true_iff in Hf, Ht.
    destruct (Hw trans Hin) as [H1 H2].
    split; apply hasTable_In.
    + apply hasTable_In in H1. destruct H1 as [t [Hin1 Hid]]. exists t.
      split; [|exact Hid]. apply filter_In. split; [exact Hin1|].
      now rewrite Hid, Hf.
    + apply hasTable_In in H2. destruct H2 as [t [Hin2 Hid]]. exists t.
      split; [|exact Hid]. apply filter_In. split; [exact Hin2|].
      now rewrite Hid, Ht.
  - (* UPDATE_TRANSITION *)
    intros trans Hin. cbn [stateTables stateTransitions] in *.
    apply in_map_iff in Hin. destruct Hin as [t [<- Hin]].
    destruct (JsString.eqb (transitionId t) i); cbn [fromId toId]; now apply Hw.
Qed.

(** X13: MOVE_TABLE gives every table with the id of the event the position
    of the event and leaves every other table where it is; the tables keep
    their ids, their rows and their order, nothing else of the context
    changes, and the tables are stored. *)
Theorem move_table_moves_the_tables_of_that_id context eventTableId eventPosition w :
  exists tables',
    step idle context (MOVE_TABLE eventTableId eventPosition) w
    = Normal (idle,
              {| stateTables := tables';
                 stateTransitions := stateTransitions context;
                 selectedTableId := selectedTableId context;
                 isDialogOpen := isDialogOpen context |},
              saveState tables' (stateTransitions context) w)
    /\ Forall2 (moved eventTableId eventPosition) (stateTables context) tables'.
Proof.
  eexists. split; [reflexivity|].
  induction (stateTables context) as [|t ts IH]; simpl; constructor; [|exact IH].
  unfold moved. destruct (JsString.eqb (tableId t) eventTableId); repeat split.
Qed.

Lemma clockMade_later w w' context :
  now w' = now w -> (ticks w <= ticks w')%nat ->
  clockMade w context -> clockMade w' context.
Proof.
  intros Hn Ht [H1 H2]. split.
  - intros table Hin. destruct (H1 table Hin) as [n [Hlt Hid]].
    exists n. rewrite Hn. split; [lia | exact Hid].
  - intros trans Hin. destruct (H2 trans Hin) as [n [Hlt Hid]].
    exists n. rewrite Hn. split; [lia | exact Hid].
Qed.

(** X14: in every configuration the machine reaches, the id of each table is
    [table-] followed by a reading of the clock, and each transition has an
    id made from one reading and ends at the id made from the next reading:
    the end of a transition is never the id of a table copied, it is made
    anew. *)
Theorem reachable_ids_are_made_from_the_clock state context w :
  reachable state context w -> clockMade w context.
Proof.
  induction 1 as [w|state context w event state' context' w' Hr IH Hs].
  - split; intros ? [].
  - destruct (step_outcome state context event w)
      as [c [w0 [Hstep [_ [Hn [Ht _]]]]]].
    rewrite Hstep in Hs. injection Hs as <- <- <-.
    assert (IH' := @clockMade_later w w0 context Hn Ht IH). clear IH.
    destruct IH' as [H1 H2].
    destruct state, event as [i| |rows|i p|i|i l];
      try (simpl in Hstep; injection Hstep as <- <-; split; assumption).
    + (* MOVE_TABLE *)
      simpl in Hstep. injection Hstep as <- <-. split; [|exact H2].
      cbn [stateTables]. intros table Hin. apply in_map_iff in Hin.
      destruct Hin as [t [<- Hin]].
      destruct (JsString.eqb (tableId t) i); cbn [tableId]; now apply H1.
    + (* DELETE_TABLE *)
      simpl in Hstep. injection Hstep as <- <-. split.
      * intros table Hin. apply filter_In in Hin. now apply H1.
      * intros trans Hin. apply filter_In in Hin. now apply H2.
    + (* UPDATE_TRANSITION *)
      simpl in Hstep. injection Hstep as <- <-. split; [exact H1|].
      cbn [stateTransitions]. intros trans Hin. apply in_map_iff in Hin.
      destruct Hin as [t [<- Hin]].
      destruct (JsString.eqb (transitionId t) i); cbn [transitionId toId];
        now apply H2.
    + (* SAVE_STATE *)
      destruct (step_save_state context rows w)
        as [tables' [transitions' [w1 [Hstep' [_ [_ [Htab Htr]]]]]]].
      rewrite Hstep' in Hstep. injection Hstep as <- <-.
      split; cbv beta iota delta [stateTables stateTransitions].
      * destruct Htab as [->|[newTable [-> [Hid [_ Hlt]]]]]; [exact H1|].
        intros a Hin. apply in_app_iff in Hin. destruct Hin as [Hin|[<-|[]]]; auto.
        exists (ticks w). rewrite Hn. split; [lia | exact Hid].
      * destruct Htr as [->|[n [newTransition [-> [Hid [Hto Hlt]]]]]]; [exact H2|].
        intros a Hin. apply in_app_iff in Hin. destruct Hin as [Hin|[<-|[]]]; auto.
        exists n. rewrite Hn. split; [lia | split; assumption].
Qed.

End MachineInvariants.

(** ** The further scenarios *)

Module MoreExamples.

(** A local row [tax_rate] hides the row [tax_rate] of a table. *)
Lemma tax_rate_of_the_table_is_hidden :
  @calculateFormula strictHost (js "tax_rate + 1")
    [numberRow (js "tax_rate") (ofZ 99)]
    (Some [tableAt (js "table-1") 100 100 [rate; tax_rate]])
  = @calculateFormula strictHost (js "tax_rate + 1")
      [numberRow (js "tax_rate") (ofZ 99)]
      (Some [tableAt (js "table-1") 100 100 [rate]]).
Proof.
  apply (@calculateFormula_reads_the_first_row_of_a_name strictHost
           (js "tax_rate + 1") _ _ _ _
           [numberRow (js "tax_rate") (ofZ 99); rate] tax_rate []
           (numberRow (js "tax_rate") (ofZ 99)));
    [reflexivity | reflexivity | now left | reflexivity].
Defined.

(** A formula of three spaces. *)
Lemma formula_of_spaces_gives_zero :
  @calculateFormula strictHost (js "   ") [rate] None = Normal zero.
Proof.
  apply (@calculateFormula_of_a_blank_formula strictHost). reflexivity.
Defined.

(** Rows [x] and [y] saved with nothing selected, beside table A. *)
Lemma save_with_nothing_selected :
  exists data' w',
    @recalculateFormulas strictHost [rowX; rowY] [tableA] = Normal data'
    /\ @step strictHost dialogOpen dialogOnNothing (SAVE_STATE [rowX; rowY]) frozen
       = Normal (idle,
                 {| stateTables :=
                      [tableA;
                       {| tableId := js "table-1700000000000";
                          position := {| x := ofZ 100; y := ofZ 100 |};
                          data := data' |}];
                    stateTransitions := [];
                    selectedTableId := None; isDialogOpen := true |}, w').
Proof.
  destruct (@save_state_without_selection strictHost dialogOnNothing
              [rowX; rowY] frozen eq_refl) as [data' [w' [H1 [H2 _]]]].
  exists data', w'. split; [exact H1 | exact H2].
Defined.

(** Rows [x] and [y] saved with table A selected, on a clock that moves. *)
Lemma save_with_table_A_selected :
  exists data' w',
    @step strictHost dialogOpen dialogOnA (SAVE_STATE [rowX; rowY]) ticking
    = Normal (idle,
              {| stateTables :=
                   [tableA;
                    {| tableId := js "table-1700000000000";
                       position := {| x := ofZ 600; y := ofZ 100 |};
                       data := data' |}];
                 stateTransitions :=
                   [{| transitionId := js "transition-1700000000001";
                       fromId := js "table-A"; toId := js "table-1700000000002";
                       text := None |}];
                 selectedTableId := Some (js "table-A"); isDialogOpen := true |}, w').
Proof.
  destruct (@save_state_with_source strictHost dialogOnA [rowX; rowY] ticking
              (js "table-A") tableA eq_refl eq_refl) as [data' [w' [_ [H _]]]].
  exists data', w'. exact H.
Defined.

(** Rows [x] and [y] saved with a table selected that is not there. *)
Lemma save_with_a_table_selected_that_is_gone :
  exists w',
    @step strictHost dialogOpen dialogOnGone (SAVE_STATE [rowX; rowY]) ticking
    = Normal (idle,
              {| stateTables := [tableA];
                 stateTransitions :=
                   [{| transitionId := js "transition-1700000000000";
                       fromId := js "table-Z"; toId := js "table-1700000000001";
                       text := None |}];
                 selectedTableId := Some (js "table-Z"); isDialogOpen := true |}, w').
Proof.
  destruct (@save_state_with_missing_source strictHost dialogOnGone [rowX; rowY]
              ticking (js "table-Z") eq_refl eq_refl) as [w' [H _]].
  exists w'. exact H.
Defined.

(** The context has two tables after the event, and table A alone is
    stored. *)
Lemma table_B_is_not_stored :
  exists state' context' w',
    @step strictHost dialogOpen dialogOnA (SAVE_STATE [rowX; rowY]) ticking
    = Normal (state', context', w')
    /\ List.length (stateTables context') = 2%nat
    /\ storage w'
       = Some (json_of_state (map (@savedTable strictHost [tableA]) [tableA])
                 (stateTransitions context')).
Proof.
  destruct (@step strictHost dialogOpen dialogOnA (SAVE_STATE [rowX; rowY]) ticking)
    as [[[state' context'] w']|e] eqn:E; [|vm_compute in E; discriminate].
  exists state', context', w'. split; [reflexivity|]. split.
  - vm_compute in E. injection E as _ <- _. reflexivity.
  - apply (@save_state_stores_the_tables_before_the_event strictHost dialogOnA
             [rowX; rowY] ticking (js "table-A") state' context' w' eq_refl E).
Defined.

(** The row [y] of the table that is appended has the result 20. *)
Lemma row_y_of_table_B_is_consistent :
  exists state' context' w',
    @step strictHost dialogOpen dialogOnA (SAVE_STATE [rowX; rowY]) frozen
    = Normal (state', context', w')
    /\ @consistentRow strictHost (tableB (js "table-1700000000000"))
         (stateTables context') (withResult rowY (Some (RNum (ofZ 20)))).
Proof.
  destruct (@step strictHost dialogOpen dialogOnA (SAVE_STATE [rowX; rowY]) frozen)
    as [[[state' context'] w']|e] eqn:E; [|vm_compute in E; discriminate].
  exists state', context', w'. split; [reflexivity|].
  apply (@save_state_appends_a_consistent_table strictHost dialogOnA
           [rowX; rowY] frozen state' context' w' _ _ E).
  - vm_compute in E. injection E as _ <- _. reflexivity.
  - right. left. reflexivity.
Defined.

(** The table that is saved with a stale result and loaded. *)
Lemma table1_is_loaded_consistent :
  exists tables,
    @loadState strictHost (@saveState strictHost [table1] [arrow] blank)
    = Some (tables, [arrow])
    /\ forall table row, In table tables -> In row (data table) ->
         @consistentRow strictHost table tables row.
Proof.
  apply (@loadState_after_saveState_returns_consistent_tables strictHost
           [table1] [arrow] blank).
  vm_compute. reflexivity.
Defined.

(** The flag is set when the dialog is opened from the first
    configuration. *)
Lemma dialog_flag_after_open_dialog :
  exists context w,
    @step strictHost idle initialContext (OPEN_DIALOG (Some (js "table-A"))) frozen
    = Normal (dialogOpen, context, w)
    /\ isDialogOpen context = true.
Proof.
  eexists. eexists. split; [reflexivity|].
  apply (@reachable_dialog_flags strictHost dialogOpen _ frozen); [|reflexivity].
  apply (@reachable_step strictHost idle initialContext frozen
           (OPEN_DIALOG (Some (js "table-A")))); [apply reachable_initial | reflexivity].
Defined.

(** UPDATE_TRANSITION leaves the world as it is. *)
Lemma update_transition_stores_nothing :
  exists context',
    @step strictHost idle attached
      (UPDATE_TRANSITION (js "transition-1") (js "next")) frozen
    = Normal (idle, context', frozen).
Proof.
  destruct (@step strictHost idle attached
              (UPDATE_TRANSITION (js "transition-1") (js "next")) frozen)
    as [[[state' context'] w']|e] eqn:E; [|discriminate].
  assert (Hw := @only_move_delete_and_save_touch_the_storage strictHost idle attached
                  (UPDATE_TRANSITION (js "transition-1") (js "next")) frozen
                  state' context' w' eq_refl E).
  subst w'. exists context'. simpl in E. injection E as <- _. reflexivity.
Defined.

(** The transition of the scenario runs between its two tables. *)
Lemma attached_is_wellReferenced : wellReferenced attached.
Proof.
  intros trans [<-|[]]. split; reflexivity.
Qed.

(** Table B is deleted, and its transition with it. *)
Lemma delete_table_keeps_attached :
  exists context' w',
    @step strictHost idle attached (DELETE_TABLE (js "table-B")) frozen
    = Normal (idle, context', w')
    /\ wellReferenced context'.
Proof.
  eexists. eexists. split; [reflexivity|].
  apply (@events_but_save_state_keep_transitions_attached strictHost idle attached
           (DELETE_TABLE (js "table-B")) frozen idle _ _
           attached_is_wellReferenced eq_refl eq_refl).
Defined.

(** The dialog is opened and rows are saved, from the first
    configuration. *)
Lemma ids_after_one_save :
  exists state context w,
    @step strictHost dialogOpen
      {| stateTables := []; stateTransitions := [];
         selectedTableId := None; isDialogOpen := true |}
      (SAVE_STATE [rowX; rowY]) ticking
    = Normal (state, context, w)
    /\ map tableId (stateTables context) = [js "table-1700000000000"]
    /\ clockMade w context.
Proof.
  destruct (@step strictHost dialogOpen
              {| stateTables := []; stateTransitions := [];
                 selectedTableId := None; isDialogOpen := true |}
              (SAVE_STATE [rowX; rowY]) ticking)
    as [[[state context] w]|e] eqn:E; [|vm_compute in E; discriminate].
  exists state, context, w. split; [reflexivity|]. split.
  - vm_compute in E. injection E as _ <- _. reflexivity.
  - apply (@reachable_ids_are_made_from_the_clock strictHost state context w).
    apply (@reachable_step strictHost dialogOpen
             {| stateTables := []; stateTransitions := [];
                selectedTableId := None; isDialogOpen := true |}
             ticking (SAVE_STATE [rowX; rowY]) state context w); [|exact E].
    apply (@reachable_step strictHost idle initialContext ticking (OPEN_DIALOG None));
      [apply reachable_initial | reflexivity].
Defined.

End MoreExamples.

(** ** Arrows *)

Lemma binary_round_aux_opp s mx ex lx :
  binary_round_aux prec emax (negb s) mx ex lx
  = SFopp (binary_round_aux prec emax s mx ex lx).
Proof.
  unfold binary_round_aux.
  destruct (shr_fexp prec emax mx ex lx) as [mrs' e'].
  destruct (shr_fexp prec emax _ e' loc_Exact) as [mrs'' e''].
  destruct (shr_m mrs''); try reflexivity.
  destruct (e'' <=? emax - prec)%Z; reflexivity.
Qed.

Lemma binary_round_opp m e :
  binary_round prec emax true m e = SFopp (binary_round prec emax false m e).
Proof.
  unfold binary_round. destruct (shl_align m e _) as [mz ez].
  apply (binary_round_aux_opp false).
Qed.

Lemma binary_normalize_opp z e :
  z <> 0%Z ->
  binary_normalize prec emax (- z) e false
  = SFopp (binary_normalize prec emax z e false).
Proof.
  destruct z as [|m|m]; intros H; [congruence| |]; simpl.
  - apply binary_round_opp.
  - rewrite binary_round_opp. now destruct (binary_round prec emax false m e) as [[|]|[|]| |[|] ? ?].
Qed.

(** [a - b] and [b - a] are opposite, or both [+0]. *)
Lemma sub_swap a b :
  sub a b = neg (sub b a) \/ (sub a b = zero /\ sub b a = zero).
Proof.
  unfold sub, neg, zero.
  destruct a as [sa|sa| |sa ma ea], b as [sb|sb| |sb mb eb];
    try (left; reflexivity);
    try (destruct sa, sb; simpl; auto; fail);
    try (left; simpl; now rewrite negb_involutive).
  unfold SFsub. rewrite (Z.min_comm eb ea).
  set (A := cond_Zopp sa _). set (B := cond_Zopp sb _).
  destruct (Z.eq_dec (B - A) 0) as [E|E].
  - right. replace (A - B)%Z with 0%Z by lia. rewrite E. auto.
  - left. replace (A - B)%Z with (- (B - A))%Z by lia.
    now apply binary_normalize_opp.
Qed.

Lemma abs_sub_swap a b : Math_abs (sub a b) = Math_abs (sub b a).
Proof.
  destruct (sub_swap a b) as [->|[-> ->]]; [|reflexivity].
  now destruct (sub b a).
Qed.

Lemma gt_sub_swap a b : gt (sub a b) zero = lt (sub b a) zero.
Proof.
  destruct (sub_swap a b) as [->|[-> ->]]; [|reflexivity].
  now destruct (sub b a) as [[|]|[|]| |[|] ? ?].
Qed.

Lemma lt_sub_swap a b : lt (sub a b) zero = gt (sub b a) zero.
Proof.
  destruct (sub_swap a b) as [->|[-> ->]]; [|reflexivity].
  now destruct (sub b a) as [[|]|[|]| |[|] ? ?].
Qed.

Lemma gt_lt_zero a : gt a zero = true -> lt a zero = false.
Proof. now destruct a as [[|]|[|]| |[|] ? ?]. Qed.

Lemma gt_abs_sign a b :
  gt (Math_abs a) (Math_abs b) = true -> gt a zero = true \/ lt a zero = true.
Proof.
  destruct a as [[|]|[|]| |[|] ? ?]; auto;
    destruct b as [[|]|[|]| |[|] ? ?]; discriminate.
Qed.

(** X15: the arrow from one table to another and the arrow back run along
    the same segment, when the one centre lies more to the side of the other
    than above or below it, or when the centres are not at one height. *)
Theorem calculateArrowPoints_there_and_back fromTable toTable :
  let dx := sub (x (centre toTable)) (x (centre fromTable)) in
  let dy := sub (y (centre toTable)) (y (centre fromTable)) in
  gt (Math_abs dx) (Math_abs dy) = true \/ gt dy zero = true \/ lt dy zero = true ->
  calculateArrowPoints toTable fromTable
  = backwards (calculateArrowPoints fromTable toTable).
Proof.
  unfold calculateArrowPoints, centre. cbv zeta. cbn [x y].
  set (ax := add (x (position fromTable)) _).
  set (ay := add (y (position fromTable)) (div _ _)).
  set (bx := add (x (position toTable)) _).
  set (bY := add (y (position toTable)) (div _ _)).
  rewrite (abs_sub_swap ax bx), (abs_sub_swap ay bY).
  rewrite (gt_sub_swap ax bx), (gt_sub_swap ay bY).
  rewrite (lt_sub_swap ax bx), (lt_sub_swap ay bY).
  intros H.
  assert (Hx := @gt_abs_sign (sub bx ax) (sub bY ay)).
  assert (Hgx := @gt_lt_zero (sub bx ax)).
  assert (Hgy := @gt_lt_zero (sub bY ay)).
  destruct (gt (Math_abs (sub bx ax)) (Math_abs (sub bY ay)));
    destruct (gt (sub bx ax) zero); destruct (lt (sub bx ax) zero);
    destruct (gt (sub bY ay) zero); destruct (lt (sub bY ay) zero);
    try reflexivity;
    try (specialize (Hgx eq_refl); discriminate);
    try (specialize (Hgy eq_refl); discriminate);
    try (destruct (Hx eq_refl); discriminate);
    destruct H as [H|[H|H]]; discriminate.
Qed.

(** ** The dialog *)

Lemma mapMi_Normal {A B} (f : nat -> A -> completion B) l : forall index bs,
  mapMi f index l = Normal bs ->
  forall b, In b bs -> exists i a, In a l /\ f i a = Normal b.
Proof.
  induction l as [|a l IH]; intros index bs H b Hb; simpl in H.
  - injection H as <-. destruct Hb.
  - destruct (f index a) as [b0|e] eqn:Ea; [|discriminate]. simpl in H.
    destruct (mapMi f (S index) l) as [bs0|e] eqn:El; [|discriminate].
    simpl in H. injection H as <-. destruct Hb as [<-|Hb].
    + exists index, a. split; [now left | exact Ea].
    + destruct (IH _ _ El b Hb) as [i [a' [Hin Ha]]]. exists i, a'.
      split; [now right | exact Ha].
Qed.

Lemma mapMi_Throw {A B} (f : nat -> A -> completion B) l : forall index e,
  mapMi f index l = Throw e -> exists i a, In a l /\ f i a = Throw e.
Proof.
  induction l as [|a l IH]; intros index e H; simpl in H; [discriminate|].
  destruct (f index a) as [b0|e0] eqn:Ea; simpl in H.
  - destruct (mapMi f (S index) l) as [bs0|e1] eqn:El; simpl in H; [discriminate|].
    injection H as ->. destruct (IH _ _ El) as [i [a' [Hin Ha]]].
    exists i, a'. split; [now right | exact Ha].
  - injection H as ->. exists index, a. split; [now left | exact Ea].
Qed.

Lemma mapMi_throws {A B} (f : nat -> A -> completion B) l a e :
  In a l -> (forall i, f i a = Throw e) ->
  (forall i b e', f i b = Throw e' -> e' = e) ->
  forall index, mapMi f index l = Throw e.
Proof.
  intros Hin Ha He. induction l as [|b l IH]; intros index; [destruct Hin|]. simpl.
  destruct (f index b) as [v|e'] eqn:Eb.
  - destruct Hin as [->|Hin]; [rewrite Ha in Eb; discriminate|].
    simpl. now rewrite IH.
  - simpl. f_equal. eapply He. exact Eb.
Qed.

Section DialogFacts.

Context {host : Host} {dateHost : DateHost}.

Lemma parseRow_throws index row e :
  parseRow index row = Throw e ->
  e = TypeError /\ (List.length (splitSpaces [] false (trim row)) < 2)%nat.
Proof.
  unfold parseRow. destruct (nth_error _ 1) as [value|] eqn:E.
  - destruct (isDateText value); [discriminate|].
    destruct (isDateTimeText value); [discriminate|].
    destruct (endsWithPercent value); [discriminate|].
    destruct (negb (isNaN (ofString value))); discriminate.
  - intros H; injection H as <-. split; [reflexivity|].
    apply nth_error_None in E. lia.
Qed.

Lemma parseRow_one_word index row :
  (List.length (splitSpaces [] false (trim row)) < 2)%nat ->
  parseRow index row = Throw TypeError.
Proof.
  intros H. unfold parseRow.
  destruct (nth_error _ 1) as [value|] eqn:E; [|reflexivity].
  assert (Hn : nth_error (splitSpaces [] false (trim row)) 1 <> None) by congruence.
  apply nth_error_Some in Hn. lia.
Qed.

(** X16: [parseData] throws, a TypeError out of [value.endsWith], exactly
    when a line of the text holds less than two words: the text area left
    empty is such a text. *)
Theorem parsedData_throws_on_a_line_of_one_word inputText :
  parsedData inputText = Throw TypeError
  <-> exists line, In line (splitLines [] (trim inputText))
                   /\ (List.length (splitSpaces [] false (trim line)) < 2)%nat.
Proof.
  unfold parsedData. split.
  - intros H. apply mapMi_Throw in H. destruct H as [i [line [Hin Hl]]].
    exists line. split; [exact Hin|]. now apply parseRow_throws in Hl.
  - intros [line [Hin Hl]].
    apply (mapMi_throws parseRow _ line Hin).
    + intros i. now apply parseRow_one_word.
    + intros i b e' H. now apply parseRow_throws in H.
Qed.

Lemma splitSpaces_words s : forall cur inSpace word,
  forallb (fun c => negb (isSpace c)) cur = true ->
  In word (splitSpaces cur inSpace s) ->
  forallb (fun c => negb (isSpace c)) word = true.
Proof.
  assert (Hrev : forall cur, forallb (fun c => negb (isSpace c)) cur = true ->
                   forallb (fun c => negb (isSpace c)) (rev cur) = true).
  { intros cur H. apply forallb_forall. intros c Hc. apply in_rev in Hc.
    rewrite forallb_forall in H. now apply H. }
  induction s as [|c s IH]; intros cur inSpace word Hcur Hin; simpl in Hin.
  - destruct Hin as [<-|[]]. now apply Hrev.
  - destruct (isSpace c) eqn:Ec.
    + destruct inSpace.
      * now apply (IH [] true).
      * destruct Hin as [<-|Hin]; [now apply Hrev | now apply (IH [] true)].
    + apply (IH (c :: cur) false); [|exact Hin]. simpl. now rewrite Ec.
Qed.

Lemma isDateTimeText_space value :
  forallb (fun c => negb (isSpace c)) value = true -> isDateTimeText value = false.
Proof.
  intros H. unfold isDateTimeText.
  destruct value as [|k0 value]; [reflexivity|].
  destruct value as [|k1 value]; [reflexivity|].
  destruct value as [|k2 value]; [reflexivity|].
  destruct value as [|k3 value]; [reflexivity|].
  destruct value as [|k4 value]; [reflexivity|].
  destruct value as [|k5 value]; [reflexivity|].
  destruct value as [|k6 value]; [reflexivity|].
  destruct value as [|k7 value]; [reflexivity|].
  destruct value as [|k8 value]; [reflexivity|].
  destruct value as [|k9 value]; [reflexivity|].
  destruct value as [|k10 value]; [reflexivity|].
  destruct value as [|k11 value]; [reflexivity|].
  destruct value as [|k12 value]; [reflexivity|].
  destruct value as [|k13 value]; [reflexivity|].
  destruct value as [|k14 value]; [reflexivity|].
  destruct value as [|k15 value]; [reflexivity|].
  destruct value as [|k16 value]; [reflexivity|].
  destruct value as [|k17 value]; [reflexivity|].
  destruct value as [|k18 value]; [reflexivity|].
  destruct value; [|reflexivity].
  destruct (k10 =? 32)%N eqn:E; [|now rewrite !andb_false_r].
  apply N.eqb_eq in E. subst k10. exfalso.
  cbn [forallb] in H. rewrite !andb_true_iff in H.
  destruct H as (_ & _ & _ & _ & _ & _ & _ & _ & _ & _ & H & _). discriminate.
Qed.

Lemma parseRow_row index line row :
  parseRow index line = Normal row ->
  dialogRow row = true /\ dateFormat row <> Some FDatetime.
Proof.
  unfold parseRow. destruct (nth_error _ 1) as [word|] eqn:E; [|discriminate].
  assert (Hw : forallb (fun c => negb (isSpace c)) word = true).
  { apply (splitSpaces_words (trim line) [] false word eq_refl).
    eapply nth_error_In. exact E. }
  rewrite (isDateTimeText_space _ Hw).
  destruct (isDateText word).
  { intros H; injection H as <-. split; [reflexivity | discriminate]. }
  destruct (endsWithPercent word).
  { intros H; injection H as <-. split; [reflexivity | discriminate]. }
  destruct (negb (isNaN (ofString word))) eqn:En;
    intros H; injection H as <-; (split; [|discriminate]).
  - unfold dialogRow. cbn [type value]. exact En.
  - reflexivity.
Qed.

(** X17: [parseData] never reads a date with a time: a value is one word,
    and the pattern of a date with a time has a space in it; every row it
    makes has the date format ['date'] or none. *)
Theorem parsedData_never_reads_a_time inputText rows row :
  parsedData inputText = Normal rows -> In row rows ->
  dateFormat row <> Some FDatetime.
Proof.
  unfold parsedData. intros H Hin.
  destruct (mapMi_Normal _ _ _ H row Hin) as [i [line [_ Hl]]].
  now apply parseRow_row in Hl.
Qed.

Lemma editRow_edited edit prevData row :
  editRow edit prevData row = Normal (edited edit prevData row).
Proof.
  unfold edited.
  destruct edit as [v|v|v|v|v]; simpl; try reflexivity.
  - destruct (type row); try reflexivity.
    now rewrite calculateFormula_value.
  - destruct (JsString.truthy v); [|reflexivity].
    now rewrite calculateFormula_value.
Qed.

Lemma refreshRow_refreshed rowId newData row :
  refreshRow rowId newData row = Normal (refreshed rowId newData row).
Proof.
  unfold refreshRow, refreshed. destruct (_ && _); [|reflexivity].
  now rewrite calculateFormula_value.
Qed.

Lemma handleCellChange_map rowId edit prevData :
  handleCellChange rowId edit prevData
  = Normal
      (let newData :=
         map (fun row => if strictEquals (id row) rowId
                         then edited edit prevData row else row) prevData in
       map (refreshed rowId newData) newData).
Proof.
  unfold handleCellChange.
  rewrite (@mapM_Normal _ _ _
             (fun row => if strictEquals (id row) rowId
                         then edited edit prevData row else row)).
  - cbn [bind]. apply mapM_Normal. intros. apply refreshRow_refreshed.
  - intros row _. destruct (strictEquals (id row) rowId); [|reflexivity].
    apply editRow_edited.
Qed.

Lemma entry_refreshed rowId newData row :
  entry (refreshed rowId newData row) = entry row.
Proof. unfold refreshed. destruct (_ && _); reflexivity. Qed.

Lemma id_edited edit prevData row : id (edited edit prevData row) = id row.
Proof.
  unfold edited, editRow. destruct edit as [v|v|v|v|v]; try reflexivity.
  - destruct (type row); rewrite ?calculateFormula_value; reflexivity.
  - destruct (JsString.truthy v); rewrite ?calculateFormula_value; reflexivity.
Qed.

Lemma type_edited edit prevData row : type (edited edit prevData row) = type row.
Proof.
  unfold edited, editRow. destruct edit as [v|v|v|v|v]; try reflexivity.
  - destruct (type row) eqn:Et; rewrite ?calculateFormula_value;
      cbn [bind type withValue withResult]; congruence.
  - destruct (JsString.truthy v); rewrite ?calculateFormula_value; reflexivity.
Qed.

Lemma formulaValue_entries formula data data' :
  map entry data = map entry data' ->
  formulaValue formula data None = formulaValue formula data' None.
Proof.
  intros H. unfold formulaValue.
  now rewrite (@calculateFormula_entries host formula data None data' None).
Qed.

Lemma entry_edited_formula f prevData row :
  entry (edited (EditFormula f) prevData row) = entry row.
Proof.
  unfold edited, editRow.
  destruct (JsString.truthy f); rewrite ?calculateFormula_value; reflexivity.
Qed.

Lemma edited_formula f prevData row :
  hasFormula (edited (EditFormula f) prevData row) = true ->
  formula (edited (EditFormula f) prevData row) = Some f
  /\ result (edited (EditFormula f) prevData row)
     = Some (RNum (formulaValue f prevData None)).
Proof.
  unfold edited, editRow, hasFormula.
  destruct (JsString.truthy f) eqn:Et; rewrite ?calculateFormula_value;
    cbn [bind formula result]; [auto | congruence].
Qed.

(** X18: after [handleCellChange] the result of every row with a formula and
    another id than the one that is edited is the value of its formula, read
    in the rows returned; so is the result of the row that is edited when it
    is its formula that is edited. *)
Theorem handleCellChange_brings_results_up_to_date rowId edit prevData data' row :
  handleCellChange rowId edit prevData = Normal data' ->
  In row data' -> hasFormula row = true ->
  strictEquals (id row) rowId = false \/ (exists f, edit = EditFormula f) ->
  upToDate data' row.
Proof.
  rewrite handleCellChange_map. cbv zeta.
  set (newData := map _ prevData). intros H; injection H as <-.
  intros Hin Hf Hcase. apply in_map_iff in Hin. destruct Hin as [r [<- Hr]].
  assert (He : map entry newData = map entry (map (refreshed rowId newData) newData)).
  { rewrite map_map. apply map_ext. intros. now rewrite entry_refreshed. }
  assert (Hid : id (refreshed rowId newData r) = id r)
    by (unfold refreshed; destruct (_ && _); reflexivity).
  assert (Hfr : formula (refreshed rowId newData r) = formula r)
    by (unfold refreshed; destruct (_ && _); reflexivity).
  assert (Hhf : hasFormula r = true).
  { unfold hasFormula in *. now rewrite Hfr in Hf. }
  unfold upToDate. rewrite Hfr, <- (formulaValue_entries _ newData _ He).
  destruct (strictEquals (id r) rowId) eqn:Eid.
  - (* the row that is edited *)
    destruct Hcase as [Hc|[f ->]]; [rewrite Hid in Hc; congruence|].
    unfold refreshed. rewrite Hhf, Eid. cbn [andb negb].
    assert (Hn : map entry prevData = map entry newData).
    { unfold newData. rewrite map_map. apply map_ext. intros a.
      destruct (strictEquals (id a) rowId); [|reflexivity].
      now rewrite entry_edited_formula. }
    unfold newData in Hr. apply in_map_iff in Hr. destruct Hr as [r0 [Hr0 Hin0]].
    destruct (strictEquals (id r0) rowId) eqn:E0; [|subst r0; congruence].
    subst r. destruct (edited_formula _ _ _ Hhf) as [-> ->].
    do 2 f_equal. now apply formulaValue_entries.
  - unfold refreshed. rewrite Hhf, Eid. reflexivity.
Qed.

Lemma changed_rows rowId edit prevData newData rows :
  Forall2 (changed rowId) rows
    (map (refreshed rowId newData)
       (map (fun row => if strictEquals (id row) rowId
                        then edited edit prevData row else row) rows)).
Proof.
  induction rows as [|r rs IH]; simpl; constructor; [|exact IH].
  unfold changed, refreshed.
  destruct (strictEquals (id r) rowId) eqn:Eid.
  - destruct (_ && _); cbn [withResult id type];
      rewrite id_edited, type_edited; repeat split; discriminate.
  - destruct (_ && _); repeat split.
Qed.

(** X19: [handleCellChange] keeps the rows in their order with their ids and
    their types, and a row with another id than the one that is edited
    changes in its result at most. *)
Theorem handleCellChange_edits_the_rows_of_that_id rowId edit prevData :
  exists data',
    handleCellChange rowId edit prevData = Normal data'
    /\ Forall2 (changed rowId) prevData data'.
Proof.
  eexists. split; [apply handleCellChange_map|]. apply changed_rows.
Qed.

End DialogFacts.

Section DialogInvariant.

Context {host : Host} {dateHost : DateHost}.

Lemma dialogRow_refreshed rowId newData row :
  dialogRow (refreshed rowId newData row) = dialogRow row.
Proof. unfold refreshed. destruct (_ && _); reflexivity. Qed.

Lemma dialogRow_edited edit prevData row :
  dialogRow row = true -> dialogRow (edited edit prevData row) = true.
Proof.
  unfold edited, editRow, dialogRow.
  destruct edit as [v|v|v|v|v]; try (intros H; exact H).
  - destruct (type row) eqn:Et, (value row) eqn:Ev; try discriminate; intros _;
      cbn [type value withValue]; rewrite ?Et; try reflexivity;
      destruct (isNaN (ofString v)) eqn:En; [reflexivity | now rewrite En].
  - destruct (JsString.truthy v); rewrite ?calculateFormula_value; intros H; exact H.
Qed.

Lemma dialogRow_formatRow data row row' :
  dialogRow row = true -> formatRow data row = Normal row' -> dialogRow row' = true.
Proof.
  unfold formatRow, dialogRow.
  destruct (type row) eqn:Et, (value row) eqn:Ev; try discriminate; intros Hd;
    try destruct (newDate _);
    try destruct (hasFormula row); rewrite ?calculateFormula_value;
    intros H; injection H as <-; cbn [type value withValue withResult];
    rewrite ?Et, ?Ev; try reflexivity; exact Hd.
Qed.

Lemma mapM_In {A B} (f : A -> completion B) l : forall bs,
  mapM f l = Normal bs -> forall b, In b bs -> exists a, In a l /\ f a = Normal b.
Proof.
  induction l as [|a l IH]; intros bs H b Hb; simpl in H.
  - injection H as <-. destruct Hb.
  - destruct (f a) as [b0|e] eqn:Ea; [|discriminate]. simpl in H.
    destruct (mapM f l) as [bs0|e] eqn:El; [|discriminate].
    simpl in H. injection H as <-. destruct Hb as [<-|Hb].
    + exists a. split; [now left | exact Ea].
    + destruct (IH _ eq_refl b Hb) as [a' [Hin Ha]]. exists a'.
      split; [now right | exact Ha].
Qed.

(** Every row the dialog holds is a row as the dialog makes them. *)
Lemma dialogData_rows data : dialogData data -> forallb dialogRow data = true.
Proof.
  induction 1 as [|inputText rows Hp|data Hd IH|rowId data Hd IH
                 |rowId edit data data' Hd IH Hc|data rows Hd IH Hs].
  - reflexivity.
  - apply forallb_forall. intros row Hin. unfold parsedData in Hp.
    destruct (mapMi_Normal _ _ _ Hp row Hin) as [i [line [_ Hl]]].
    now apply parseRow_row in Hl.
  - unfold handleAddRow. rewrite forallb_app, IH. reflexivity.
  - rewrite forallb_forall in *. intros row Hin. apply filter_In in Hin.
    now apply IH.
  - rewrite handleCellChange_map in Hc. injection Hc as <-. cbv zeta.
    rewrite forallb_forall in *. intros row Hin.
    apply in_map_iff in Hin. destruct Hin as [r [<- Hr]].
    rewrite dialogRow_refreshed. apply in_map_iff in Hr.
    destruct Hr as [r0 [<- Hr0]]. specialize (IH r0 Hr0).
    destruct (strictEquals (id r0) rowId); [now apply dialogRow_edited | exact IH].
  - unfold handleSave in Hs. destruct data as [|d ds]; [discriminate|].
    destruct (mapM _ _) as [formattedData|e] eqn:Em; [|discriminate].
    injection Hs as <-. rewrite forallb_forall in *. intros row Hin.
    destruct (mapM_In _ _ Em row Hin) as [r [Hr Hf]].
    apply (dialogRow_formatRow _ _ (IH r Hr) Hf).
Qed.

(** X20: from an empty table or from parsed text, the dialog never makes a
    row of type ['formula'] or ['datetime'], whatever is typed and whichever
    handlers run, and its rows of type ['number'] hold numbers that are not
    [NaN]. *)
Theorem dialog_rows_keep_to_four_types data row :
  dialogData data -> In row data ->
  (type row = TString \/ type row = TNumber \/ type row = TDate
   \/ type row = TPercentage)
  /\ (type row = TNumber -> exists n, value row = VNum n /\ isNaN n = false).
Proof.
  intros Hd Hin. apply dialogData_rows in Hd. rewrite forallb_forall in Hd.
  specialize (Hd row Hin). unfold dialogRow in Hd.
  destruct (type row), (value row) as [s|n|d]; try discriminate; split; auto;
    try discriminate.
  intros _. exists n. split; [reflexivity|]. now apply negb_true_iff.
Qed.

(** X21: the recalculation of SAVE_STATE changes nothing in rows that come
    from the dialog: it recalculates rows of type ['formula'], and the
    dialog makes none. *)
Theorem recalculateFormulas_leaves_dialog_rows_as_they_are data stateTables :
  dialogData data -> recalculateFormulas data stateTables = Normal data.
Proof.
  intros Hd. apply dialogData_rows in Hd. rewrite recalculateFormulas_map.
  f_equal. rewrite <- (map_id data) at 3. apply map_ext_in. intros row Hin.
  rewrite forallb_forall in Hd. specialize (Hd row Hin).
  unfold recalculated, isFormulaRow. unfold dialogRow in Hd.
  destruct (type row); try reflexivity; destruct (value row); discriminate.
Qed.

End DialogInvariant.

(** ** Dates in the dialog *)

Module DisplayFacts.

Import JsDateOps.
Local Open Scope Z_scope.

Lemma forallb_range (P : Z -> bool) lo n :
  forallb P (map (fun i => lo + Z.of_nat i) (seq 0 n)) = true ->
  forall z, lo <= z < lo + Z.of_nat n -> P z = true.
Proof.
  intros H z Hz. rewrite forallb_forall in H. apply H.
  apply in_map_iff. exists (Z.to_nat (z - lo)). split; [lia|].
  apply in_seq. lia.
Qed.

Lemma years_print y :
  1000 <= y <= 9999 -> toString (ofZ y) = pad 4 y.
Proof.
  intros Hy. apply JsStringFacts.eqb_eq.
  apply (@forallb_range (fun y => JsString.eqb (toString (ofZ y)) (pad 4 y))
           1000 (Z.to_nat 9000)); [vm_compute; reflexivity | lia].
Qed.

Lemma months_print mo :
  1 <= mo <= 12 -> padStart2 (toString (add (ofZ (mo - 1)) (ofZ 1))) = pad 2 mo.
Proof.
  intros Hm. apply JsStringFacts.eqb_eq.
  apply (@forallb_range
           (fun mo => JsString.eqb (padStart2 (toString (add (ofZ (mo - 1)) (ofZ 1))))
                        (pad 2 mo))
           1 12); [vm_compute; reflexivity | lia].
Qed.

Lemma days_print d :
  1 <= d <= 31 -> padStart2 (toString (ofZ d)) = pad 2 d.
Proof.
  intros Hd. apply JsStringFacts.eqb_eq.
  apply (@forallb_range
           (fun d => JsString.eqb (padStart2 (toString (ofZ d))) (pad 2 d))
           1 31); [vm_compute; reflexivity | lia].
Qed.

Lemma dashes_pad w n : dashes (pad w n) = pad w n.
Proof.
  unfold dashes. induction w as [|w IH]; [reflexivity|].
  cbn [pad map]. rewrite IH. f_equal.
  assert (H : 0 <= n / 10 ^ Z.of_nat w mod 10 < 10) by (apply Z.mod_pos_bound; lia).
  replace (Z.to_N (48 + n / 10 ^ Z.of_nat w mod 10) =? 47)%N with false; [reflexivity|].
  symmetry. apply N.eqb_neq. lia.
Qed.

Lemma dashes_dateText separator y mo d :
  isSeparator separator = true ->
  dashes (dateText separator y mo d) = dateText 45 y mo d.
Proof.
  intros Hs. unfold dateText.
  assert (Hd : (if (separator =? 47)%N then 45%N else separator) = 45%N).
  { unfold isSeparator in Hs. apply orb_true_iff in Hs.
    destruct Hs as [Hs | Hs]; apply N.eqb_eq in Hs; subst separator; reflexivity. }
  unfold dashes at 1.
  rewrite map_app. cbn [map]. rewrite map_app. cbn [map]. rewrite Hd.
  fold (dashes (pad 4 y)). fold (dashes (pad 2 mo)). fold (dashes (pad 2 d)).
  now rewrite !dashes_pad.
Qed.

Ltac monthTable :=
  repeat match goal with
         | H : context [DaysBeforeMonth ?l ?k] |- _ =>
             let v := eval cbv in (DaysBeforeMonth l k) in
             change (DaysBeforeMonth l k) with v in H
         | |- context [DaysBeforeMonth ?l ?k] =>
             let v := eval cbv in (DaysBeforeMonth l k) in
             change (DaysBeforeMonth l k) with v
         | H : context [?a =? 12] |- _ =>
             let v := eval cbv in (a =? 12) in
             change (a =? 12) with v in H; cbv iota in H
         end.

Ltac monthCase :=
  monthTable; unfold MonthFromDay;
  repeat match goal with
         | |- context [if ?a <? ?b then _ else _] => destruct (Z.ltb_spec a b)
         end;
  lia.

Lemma calendarDay_spec y mo d :
  calendarDay y mo d = true ->
  1 <= mo <= 12 /\ 1 <= d <= 31
  /\ 0 <= DaysBeforeMonth (InLeapYear y) (mo - 1) + d - 1 < 365 + InLeapYear y
  /\ MonthFromDay (InLeapYear y) (DaysBeforeMonth (InLeapYear y) (mo - 1) + d - 1)
     = mo - 1.
Proof.
  unfold calendarDay, validFields. cbn [year month date hours minutes seconds].
  rewrite !andb_true_iff, !Z.leb_le. intros [[[[[[H1 H2] H3] H4] _] _] _].
  assert (Hc : mo = 1 \/ mo = 2 \/ mo = 3 \/ mo = 4 \/ mo = 5 \/ mo = 6 \/ mo = 7
               \/ mo = 8 \/ mo = 9 \/ mo = 10 \/ mo = 11 \/ mo = 12) by lia.
  destruct (DateFacts.InLeapYear_range y) as [E | E]; rewrite E in *; clear E;
    repeat (destruct Hc as [Hc | Hc]; [subst mo; monthCase|]);
    subst mo; monthCase.
Qed.

Lemma DayFromYear_mono a b : a <= b -> DayFromYear a <= DayFromYear b.
Proof. unfold DayFromYear. lia. Qed.

Lemma YearFromDay_unique y day :
  DayFromYear y <= day < DayFromYear (y + 1) -> YearFromDay day = y.
Proof.
  intros H. pose proof (DateFacts.YearFromDay_spec day) as Hs.
  remember (YearFromDay day) as y' eqn:E. clear E.
  unfold DayFromYear in *. lia.
Qed.

Lemma year_fieldsOf t : year (fieldsOf t) = YearFromDay (t / msPerDay).
Proof. reflexivity. Qed.

Lemma month_fieldsOf t :
  month (fieldsOf t)
  = MonthFromDay (InLeapYear (YearFromDay (t / msPerDay)))
      (t / msPerDay - DayFromYear (YearFromDay (t / msPerDay))) + 1.
Proof. reflexivity. Qed.

Lemma date_fieldsOf t :
  date (fieldsOf t)
  = t / msPerDay - DayFromYear (YearFromDay (t / msPerDay))
    - DaysBeforeMonth (InLeapYear (YearFromDay (t / msPerDay)))
        (MonthFromDay (InLeapYear (YearFromDay (t / msPerDay)))
           (t / msPerDay - DayFromYear (YearFromDay (t / msPerDay)))) + 1.
Proof. reflexivity. Qed.

Lemma validFields_calendarDay f :
  validFields f = true -> calendarDay (year f) (month f) (date f) = true.
Proof.
  destruct f as [y mo d h mi se ms]. unfold calendarDay, validFields.
  cbn [year month date hours minutes seconds].
  rewrite !andb_true_iff. intros [[[[[[V1 V2] V3] V4] _] _] _].
  now rewrite V1, V2, V3, V4.
Qed.

(** The day of the fields of an instant is the day of the instant. *)
Lemma fieldsOf_day y mo d o :
  calendarDay y mo d = true -> 0 <= o < msPerDay ->
  let g := fieldsOf (midnight y mo d + o) in
  year g = y /\ month g = mo /\ date g = d.
Proof.
  intros Hc Ho. destruct (calendarDay_spec _ _ _ Hc) as (Hm & Hd & Hr & Hmo).
  cbv zeta. rewrite year_fieldsOf, month_fieldsOf, date_fieldsOf.
  assert (Hday : (midnight y mo d + o) / msPerDay = MakeDay y (mo - 1) d).
  { unfold midnight. rewrite Z.div_add_l by (unfold msPerDay; lia).
    rewrite Z.div_small by exact Ho. lia. }
  rewrite Hday.
  assert (Hy : YearFromDay (MakeDay y (mo - 1) d) = y).
  { apply YearFromDay_unique. pose proof (DateFacts.DayFromYear_succ y).
    unfold MakeDay. lia. }
  rewrite Hy.
  replace (MakeDay y (mo - 1) d - DayFromYear y)
    with (DaysBeforeMonth (InLeapYear y) (mo - 1) + d - 1) by (unfold MakeDay; lia).
  rewrite Hmo. repeat split; lia.
Qed.

End DisplayFacts.

Section Display.

Context {host : Host} {dateHost : DateHost}.

Import JsDateOps DisplayFacts.
Local Open Scope Z_scope.

Lemma MakeDay_bounds y mo d :
  calendarDay y mo d = true ->
  DayFromYear y <= MakeDay y (mo - 1) d < DayFromYear (y + 1).
Proof.
  intros Hc. destruct (calendarDay_spec _ _ _ Hc) as (_ & _ & Hr & _).
  pose proof (DateFacts.DayFromYear_succ y). unfold MakeDay. lia.
Qed.

Lemma parseDateOnly_dateText y mo d :
  0 <= y <= 9999 -> calendarDay y mo d = true ->
  parseDateOnly (dateText 45 y mo d) = Some (TimeClip (midnight y mo d)).
Proof.
  intros Hy Hc. destruct (calendarDay_spec _ _ _ Hc) as (Hm & Hd & _ & _).
  unfold parseDateOnly, dateText.
  rewrite DateFacts.digits_pad_exact by (simpl; lia).
  cbn [bindO expect N.eqb Pos.eqb].
  rewrite DateFacts.digits_pad_exact by (simpl; lia).
  cbn [bindO expect N.eqb Pos.eqb].
  rewrite <- (app_nil_r (pad 2 d)).
  rewrite DateFacts.digits_pad_exact by (simpl; lia).
  cbn [bindO]. fold (calendarDay y mo d). rewrite Hc.
  do 2 f_equal. unfold timeOf, midnight, MakeTime.
  cbn [year month date hours minutes seconds millis]. lia.
Qed.

Lemma TimeClip_midnight y mo d o :
  999 <= y <= 9999 -> calendarDay y mo d = true ->
  - msPerDay <= o <= msPerDay ->
  Z.abs (midnight y mo d + o) <= maxTime.
Proof.
  intros Hy Hc Ho. pose proof (MakeDay_bounds _ _ _ Hc) as Hb.
  unfold midnight, maxTime, msPerDay in *.
  remember (MakeDay y (mo - 1) d) as day eqn:E. clear E.
  unfold DayFromYear in Hb. lia.
Qed.

Lemma newDate_dateText separator y mo d :
  isSeparator separator = true -> 1000 <= y <= 9999 ->
  calendarDay y mo d = true ->
  newDate (dashes (dateText separator y mo d)) = Some (midnight y mo d).
Proof.
  intros Hs Hy Hc. unfold newDate.
  rewrite (dashes_dateText _ _ _ _ Hs), parseDateOnly_dateText by (lia || exact Hc).
  unfold TimeClip.
  assert (H := @TimeClip_midnight y mo d 0). rewrite Z.add_0_r in H.
  replace (Z.abs (midnight y mo d) <=? maxTime) with true; [reflexivity|].
  symmetry. apply Z.leb_le. apply H; [lia | exact Hc | unfold msPerDay; lia].
Qed.

(** What [formatDate] writes for a year of four digits. *)
Lemma formatDate_date t :
  1000 <= year (localFields t) <= 9999 ->
  1 <= month (localFields t) <= 12 ->
  1 <= date (localFields t) <= 31 ->
  formatDate (Some t) (Some FDate)
  = dateText 45 (year (localFields t)) (month (localFields t)) (date (localFields t)).
Proof.
  intros Hy Hm Hd. unfold formatDate, getFullYear, getMonth, getDate, getter.
  rewrite (years_print Hy), (months_print Hm), (days_print Hd). reflexivity.
Qed.

Lemma dateText_inj y mo d y' mo' d' :
  0 <= y <= 9999 -> calendarDay y mo d = true ->
  0 <= y' <= 9999 -> calendarDay y' mo' d' = true ->
  Z.abs (midnight y mo d) <= maxTime -> Z.abs (midnight y' mo' d') <= maxTime ->
  dateText 45 y mo d = dateText 45 y' mo' d' ->
  midnight y mo d = midnight y' mo' d'.
Proof.
  intros Hy Hc Hy' Hc' Ht Ht' E.
  assert (H : parseDateOnly (dateText 45 y mo d) = parseDateOnly (dateText 45 y' mo' d'))
    by now rewrite E.
  rewrite !parseDateOnly_dateText in H by assumption.
  unfold TimeClip in H. apply Z.leb_le in Ht, Ht'. rewrite Ht, Ht' in H.
  congruence.
Qed.

(** The fields of an instant of the day before. *)
Lemma fieldsOf_day_before y mo d o :
  1000 <= y <= 9999 -> calendarDay y mo d = true -> - msPerDay <= o < 0 ->
  let g := fieldsOf (midnight y mo d + o) in
  999 <= year g <= 9999 /\ 1 <= month g <= 12 /\ 1 <= date g <= 31
  /\ calendarDay (year g) (month g) (date g) = true
  /\ midnight (year g) (month g) (date g) = midnight y mo d - msPerDay.
Proof.
  intros Hy Hc Ho. cbv zeta.
  assert (Ht : Z.abs (midnight y mo d + o) <= maxTime)
    by (apply TimeClip_midnight; [lia | exact Hc | lia]).
  destruct (DateFacts.fieldsOf_spec _ Ht) as (_ & Hm & Hd & _ & _ & _ & _ & Hv & _).
  assert (Hday : (midnight y mo d + o) / msPerDay = MakeDay y (mo - 1) d - 1).
  { unfold midnight.
    replace (MakeDay y (mo - 1) d * msPerDay + o)
      with ((MakeDay y (mo - 1) d - 1) * msPerDay + (o + msPerDay)) by lia.
    rewrite Z.div_add_l by (unfold msPerDay; lia).
    rewrite Z.div_small by lia. lia. }
  pose proof (MakeDay_bounds _ _ _ Hc) as Hb.
  pose proof (DateFacts.YearFromDay_spec (MakeDay y (mo - 1) d - 1)) as Hs.
  assert (Hyear : year (fieldsOf (midnight y mo d + o))
                  = YearFromDay (MakeDay y (mo - 1) d - 1)).
  { rewrite year_fieldsOf. now rewrite Hday. }
  split; [|split; [exact Hm | split; [exact Hd | split]]].
  - rewrite Hyear. clear - Hy Hb Hs.
    remember (YearFromDay (MakeDay y (mo - 1) d - 1)) as y' eqn:E. clear E.
    remember (MakeDay y (mo - 1) d) as day eqn:E. clear E.
    assert (H1 : DayFromYear 1000 <= DayFromYear y) by (apply DayFromYear_mono; lia).
    assert (H2 : DayFromYear (y + 1) <= DayFromYear 10000)
      by (apply DayFromYear_mono; lia).
    assert (H3 : DayFromYear 1000 - DayFromYear 999 = 365) by reflexivity.
    split.
    + destruct (Z.lt_ge_cases y' 999) as [Hlt | Hge]; [exfalso | exact Hge].
      assert (H4 : DayFromYear (y' + 1) <= DayFromYear 999)
        by (apply DayFromYear_mono; lia).
      lia.
    + destruct (Z.lt_ge_cases 9999 y') as [Hlt | Hge]; [exfalso | lia].
      assert (H4 : DayFromYear 10000 <= DayFromYear y')
        by (apply DayFromYear_mono; lia).
      lia.
  - now apply validFields_calendarDay.
  - assert (Hg : MakeDay (year (fieldsOf (midnight y mo d + o)))
                   (month (fieldsOf (midnight y mo d + o)) - 1)
                   (date (fieldsOf (midnight y mo d + o)))
                 = MakeDay y (mo - 1) d - 1).
    { rewrite year_fieldsOf, month_fieldsOf, date_fieldsOf, Hday.
      set (day := MakeDay y (mo - 1) d - 1). set (y' := YearFromDay day).
      set (m := MonthFromDay (InLeapYear y') (day - DayFromYear y')).
      replace (m + 1 - 1) with m by lia.
      unfold MakeDay at 1. lia. }
    unfold midnight at 1. rewrite Hg. unfold midnight, msPerDay. lia.
Qed.

(** X23: a date typed into the text area in the form [YYYY-MM-DD] or
    [YYYY/MM/DD], with a year of four digits that does not start with 0, is
    read as midnight of that day in universal time and shown in local time:
    the dialog shows the date that was typed, dashes for the separators,
    exactly when local time is not behind universal time at that instant. *)
Theorem a_date_typed_is_shown_unless_local_time_is_behind separator y mo d :
  isSeparator separator = true ->
  1000 <= y <= 9999 ->
  calendarDay y mo d = true ->
  - msPerDay <= LocalTZA (midnight y mo d) < msPerDay ->
  formatDate (newDate (dashes (dateText separator y mo d))) (Some FDate)
  = dateText 45 y mo d
  <-> 0 <= LocalTZA (midnight y mo d).
Proof.
  intros Hs Hy Hc Hz. rewrite (newDate_dateText _ _ _ Hs Hy Hc).
  set (t := midnight y mo d) in *.
  destruct (Z.le_gt_cases 0 (LocalTZA t)) as [Ho | Ho]; split; intros H; try lia.
  - destruct (@fieldsOf_day y mo d (LocalTZA t) Hc) as (E1 & E2 & E3); [lia|].
    destruct (calendarDay_spec _ _ _ Hc) as (Hm & Hd & _ & _).
    fold t in E1, E2, E3.
    change (fieldsOf (t + LocalTZA t)) with (localFields t) in E1, E2, E3.
    rewrite formatDate_date; rewrite ?E1, ?E2, ?E3; auto.
  - exfalso.
    destruct (@fieldsOf_day_before y mo d (LocalTZA t) Hy Hc)
      as (G1 & G2 & G3 & G4 & G5); [lia|].
    fold t in G1, G2, G3, G4, G5.
    change (fieldsOf (t + LocalTZA t)) with (localFields t) in G1, G2, G3, G4, G5.
    destruct (Z.eq_dec (year (localFields t)) 999) as [E | E].
    + revert H. unfold formatDate, getFullYear, getter. rewrite E.
      replace (toString (ofZ 999)) with [57%N; 57%N; 57%N] by (vm_compute; reflexivity).
      unfold dateText. intros H.
      apply (f_equal (fun s => nth 3 s 0%N)) in H. cbn [nth pad app] in H.
      assert (Hr : 0 <= y / 10 ^ Z.of_nat 0 mod 10 < 10) by (apply Z.mod_pos_bound; lia).
      lia.
    + rewrite formatDate_date in H by lia.
      apply dateText_inj in H; try assumption; try lia.
      * assert (Hb := @TimeClip_midnight y mo d (- msPerDay)).
        rewrite G5. apply Hb; [lia | exact Hc | unfold msPerDay; lia].
      * assert (Hb := @TimeClip_midnight y mo d 0). rewrite Z.add_0_r in Hb.
        apply Hb; [lia | exact Hc | unfold msPerDay; lia].
Qed.

End Display.

Module DialogExamples.

(** Table B lies 500 to the right of table A. *)
Lemma arrow_from_A_to_B_and_back :
  calculateArrowPoints (tableB (js "table-B")) tableA
  = backwards (calculateArrowPoints tableA (tableB (js "table-B"))).
Proof.
  apply (calculateArrowPoints_there_and_back tableA (tableB (js "table-B"))).
  left. vm_compute. reflexivity.
Defined.

(** The text area left empty. *)
Lemma empty_text_throws : @parsedData strictHost [] = Throw TypeError.
Proof.
  apply (@parsedData_throws_on_a_line_of_one_word strictHost []).
  exists []. split; [now left | simpl; lia].
Defined.

(** Of a date with a time the date is read, and the time is the third
    word. *)
Lemma the_time_is_not_read :
  exists first second,
    @parsedData strictHost twoLines = Normal [first; second]
    /\ type second = TDate
    /\ dateFormat second <> Some FDatetime.
Proof.
  destruct (@parsedData strictHost twoLines) as [rows|e] eqn:E;
    [|vm_compute in E; discriminate].
  assert (H := @parsedData_never_reads_a_time strictHost twoLines rows).
  vm_compute in E. injection E as <-.
  eexists. eexists. split; [reflexivity|]. split; [reflexivity|].
  apply H; [reflexivity | right; left; reflexivity].
Defined.

(** 7 is typed as the value of [x], and [y], which is [x*2], follows. *)
Lemma y_follows_x :
  exists x' y',
    @handleCellChange strictHost (ofZ 1) (EditValue (js "7")) [typedX; typedY]
    = Normal [x'; y']
    /\ value x' = VNum (ofZ 7)
    /\ result y' = Some (RNum (ofZ 14))
    /\ @upToDate strictHost [x'; y'] y'.
Proof.
  destruct (@handleCellChange strictHost (ofZ 1) (EditValue (js "7")) [typedX; typedY])
    as [data'|e] eqn:E; [|vm_compute in E; discriminate].
  assert (H := @handleCellChange_brings_results_up_to_date strictHost
                 (ofZ 1) (EditValue (js "7")) [typedX; typedY] data').
  vm_compute in E. injection E as <-.
  eexists. eexists. split; [reflexivity|]. split; [reflexivity|].
  split; [reflexivity|].
  apply H; [reflexivity | right; left; reflexivity | reflexivity | left; reflexivity].
Defined.

(** The row [handleAddRow] adds to an empty table, which is a row of type
    ['string']. *)
Lemma added_row_keeps_to_four_types :
  (type (nth 0 (handleAddRow []) typedX) = TString
   \/ type (nth 0 (handleAddRow []) typedX) = TNumber
   \/ type (nth 0 (handleAddRow []) typedX) = TDate
   \/ type (nth 0 (handleAddRow []) typedX) = TPercentage)
  /\ (type (nth 0 (handleAddRow []) typedX) = TNumber ->
      exists n, value (nth 0 (handleAddRow []) typedX) = VNum n /\ isNaN n = false).
Proof.
  apply (@dialog_rows_keep_to_four_types strictHost strictDateHost
           (handleAddRow []) (nth 0 (handleAddRow []) typedX)
           (dialog_added dialog_opened) (or_introl eq_refl)).
Defined.

(** The row [handleAddRow] adds comes out of the recalculation as it went
    in. *)
Lemma added_row_is_not_recalculated :
  @recalculateFormulas strictHost (handleAddRow []) [tableA]
  = Normal (handleAddRow []).
Proof.
  apply (@recalculateFormulas_leaves_dialog_rows_as_they_are strictHost
           strictDateHost (handleAddRow []) [tableA]).
  apply dialog_added. apply dialog_opened.
Defined.

(** 2024/01/15, typed with slashes, is shown as 2024-01-15 in the zone of
    universal time. *)
Lemma date_of_2024_01_15_is_shown :
  @formatDate strictDateHost
    (@newDate strictHost (dashes (dateText 47 2024 1 15))) (Some FDate)
  = js "2024-01-15".
Proof.
  apply (@a_date_typed_is_shown_unless_local_time_is_behind strictHost
           strictDateHost 47%N 2024%Z 1%Z 15%Z);
    [reflexivity | lia | reflexivity | vm_compute; split; [discriminate | reflexivity]
    | vm_compute; discriminate].
Defined.

(** Five hours behind universal time it is shown as the day before. *)
Lemma date_of_2024_01_15_shown_behind :
  @formatDate behindHost
    (@newDate strictHost (dashes (dateText 47 2024 1 15))) (Some FDate)
  = js "2024-01-14".
Proof. vm_compute. reflexivity. Qed.

End DialogExamples.
